(** * DAZER parent database: a shallow embedding of the layer-addressed
      parent-resolution engine

    The development follows [src/DAZER/dockerhub_api.py] (the ancestry
    resolver [get_image_parent]) and [src/populate_parent_db.py] (the layer
    extractor [get_layers_image], the repository extraction of
    [get_layers_official_repository], the synchronizer
    [update_official_database] and the duplicate resolver
    [verify_duplicates]).

    Conventions of the embedding.
    - A Python [str] is a [string]; [a + b] is [String.append], [a == b] is
      [String.eqb], a slice [s[i:i+n]] is [substring i n s].
    - A Python [dict] loaded from JSON keeps its insertion order: the parent
      database is an association list whose key list has no duplicates.
    - Timestamps are the integers produced by [calendar.timegm], in [Z].
    - A [for] loop over a list that is not mutated is a left fold; loops over
      a list that the body mutates are index-driven, as CPython runs them.
    - Exceptions are values of [exn]; a call yields a [result]. *)

From Stdlib Require Import String Ascii ZArith List Bool Lia PeanoNat.
From stdpp Require Import base option list strings gmap.

Import ListNotations.
Local Open Scope string_scope.
Local Open Scope list_scope.

(** ** Data model *)

(** One image of a repository, as stored in the JSON file:
    [{"fs_layers": .., "image_tag": .., "last_updated": .., "created": ..}]. *)
Record ImageRecord : Type := mkImage {
  fs_layers    : string;
  image_tag    : string;
  last_updated : Z;
  created      : Z
}.

#[global] Instance ImageRecord_eq_dec : EqDecision ImageRecord.
Proof. solve_decision. Defined.

(** The parent database: repository name to its images, in file order. *)
Definition ParentDb : Type := list (string * list ImageRecord).

(** [list(parent_db.keys())] *)
Definition keys (db : ParentDb) : list string := map fst db.

(** [parent_db[repo]]. Every lookup of the source is made at a key drawn from
    [keys db], where it cannot raise [KeyError] (lemma [db_get_key]); the
    default is never reached there. *)
Fixpoint db_get (db : ParentDb) (repo : string) : list ImageRecord :=
  match db with
  | [] => []
  | (k, images) :: db' => if String.eqb k repo then images else db_get db' repo
  end.

(** The exceptions the modelled code can raise. *)
Inductive exn : Type :=
| IOError
| NameError
| TypeError
| AttributeError
| ValueError
| ReadTimeout
| APIError (msg : string).

Inductive result (A : Type) : Type :=
| Return (a : A)
| Raise (e : exn).
Arguments Return {A} a.
Arguments Raise {A} e.

(** ** Ancestry resolver: [get_image_parent] (dockerhub_api.py) *)

Module Resolver.

(** The returned [dict]: [{"name": repo, "tag": image.get("image_tag")}]. *)
Record Parent : Type := mkParent { name : string; tag : string }.

(** [image_id_length = 12] *)
Definition image_id_length : nat := 12.

(** [range(0, stop, step)] for a positive [step]: [0, step, 2*step, ...],
    the multiples of [step] below [stop]. *)
Definition range_step (stop step : nat) : list nat :=
  map (fun k => k * step) (seq 0 ((stop + step - 1) / step)).

(** [[image_layers[id:id + image_id_length]
      for id in range(0, len(image_layers), image_id_length)]] *)
Definition split_layers (image_layers : string) : list string :=
  map (fun id => substring id image_id_length image_layers)
      (range_step (String.length image_layers) image_id_length).

(** [repositories.index(repository)]: the first position, if any. *)
Fixpoint index_of (x : string) (l : list string) : option nat :=
  match l with
  | [] => None
  | y :: l' => if String.eqb y x then Some 0
               else option_map S (index_of x l')
  end.

(** The body of the [try] once the file is loaded:
    [repositories = list(base_db.keys())], then the slice that leaves the
    owner out.  When the owner is not a key, [index] raises [ValueError],
    the bare [except: pass] swallows it and [repositories] keeps every key. *)
Definition candidate_repositories (base_db : ParentDb) (repository : string)
  : list string :=
  let repositories := keys base_db in
  match index_of repository repositories with
  | Some i => firstn i repositories ++ skipn (i + 1) repositories
  | None => repositories
  end.

(** [for image in base_db[repo]: if current_layers == image.get("fs_layers"):
      parent = {...}] *)
Definition scan_images (current_layers repo : string)
    (images : list ImageRecord) (parent : option Parent) : option Parent :=
  fold_left
    (fun parent image =>
       if String.eqb current_layers (fs_layers image)
       then Some {| name := repo; tag := image_tag image |}
       else parent)
    images parent.

(** [for repo in repositories: for image in base_db[repo]: ...] *)
Definition scan_repositories (base_db : ParentDb) (repositories : list string)
    (current_layers : string) (parent : option Parent) : option Parent :=
  fold_left
    (fun parent repo => scan_images current_layers repo (db_get base_db repo) parent)
    repositories parent.

(** [for image_id in image_ids: current_layers = current_layers + image_id; ...] *)
Fixpoint walk (base_db : ParentDb) (repositories : list string)
    (image_ids : list string) (current_layers : string)
    (parent : option Parent) : option Parent :=
  match image_ids with
  | [] => parent
  | image_id :: rest =>
      let current_layers := current_layers +:+ image_id in
      walk base_db repositories rest current_layers
           (scan_repositories base_db repositories current_layers parent)
  end.

(** The resolver on a loaded database: lines 713-715 and 734-762. *)
Definition resolve_parent (repository image_layers : string) (base_db : ParentDb)
  : option Parent :=
  walk base_db (candidate_repositories base_db repository)
       (split_layers image_layers) "" None.

(** What reading the most recent database file of a type gives: [open] fails
    ([IOError], re-raised), the line is not a JSON object (swallowed by the
    bare [except], leaving [repositories] unbound), or a database. *)
Inductive load_result : Type :=
| LoadIOError
| LoadMalformed
| Loaded (base_db : ParentDb).

(** The files of [json/parent_db], by database type. *)
Record Storage : Type := mkStorage {
  official_db : load_result;
  verified_db : load_result
}.

(** What [get_image_parent] hands back: the [parent] dict (empty or not), or
    the empty string of the [else: return ""] branch. *)
Inductive answer : Type :=
| ParentDict (parent : option Parent)
| EmptyStr.

Definition get_image_parent (st : Storage)
    (repository image_layers db_type : string) : result answer :=
  let image_ids := split_layers image_layers in
  let with_file (file : load_result) : result answer :=
    match file with
    | LoadIOError => Raise IOError
    | LoadMalformed =>
        match image_ids with
        | [] => Return (ParentDict None)
        | _ :: _ => Raise NameError
        end
    | Loaded base_db =>
        Return (ParentDict
                  (walk base_db (candidate_repositories base_db repository)
                        image_ids "" None))
    end in
  if String.eqb db_type "official" then with_file (official_db st)
  else if String.eqb db_type "verified" then with_file (verified_db st)
  else Return EmptyStr.

(** The comparisons [current_layers == image.get("fs_layers")] of a run, in
    the order the three nested loops make them. *)
Fixpoint prefixes (image_ids : list string) (current_layers : string)
  : list string :=
  match image_ids with
  | [] => []
  | image_id :: rest =>
      (current_layers +:+ image_id) :: prefixes rest (current_layers +:+ image_id)
  end.

Definition comparisons (base_db : ParentDb) (repositories : list string)
    (image_ids : list string) : list (string * string * ImageRecord) :=
  flat_map
    (fun current_layers =>
       flat_map (fun repo => map (fun image => (current_layers, repo, image))
                                 (db_get base_db repo))
                repositories)
    (prefixes image_ids "").

(** The token-aligned prefixes of a layer sequence, shortest first: the first
    [12], [24], ... characters, the last one being the sequence itself. *)
Definition aligned_prefixes (image_layers : string) : list string :=
  map (fun k => substring 0 (k * image_id_length) image_layers)
      (seq 1 ((String.length image_layers + image_id_length - 1) / image_id_length)).

(** A candidate record: an image of a repository other than the owner. *)
Definition candidate (base_db : ParentDb) (repository repo : string)
    (image : ImageRecord) : Prop :=
  In repo (keys base_db) /\ repo <> repository /\ In image (db_get base_db repo).

(** A record whose layers are the longest token-aligned prefix of the target
    that any candidate record carries. *)
Definition longest_match (base_db : ParentDb) (repository image_layers : string)
    (image : ImageRecord) : Prop :=
  In (fs_layers image) (aligned_prefixes image_layers) /\
  forall repo' image',
    candidate base_db repository repo' image' ->
    In (fs_layers image') (aligned_prefixes image_layers) ->
    String.length (fs_layers image') <= String.length (fs_layers image).

(** Some record of the list, of the repositories, carries the layers [p]. *)
Definition matched_in (p : string) (images : list ImageRecord) : Prop :=
  exists image, In image images /\ fs_layers image = p.

Definition matched (base_db : ParentDb) (repositories : list string) (p : string)
  : Prop :=
  exists repo, In repo repositories /\ matched_in p (db_get base_db repo).

(** The repository scan folded over a list of prefixes. *)
Definition walk_prefixes (base_db : ParentDb) (repositories : list string)
    (ps : list string) (parent : option Parent) : option Parent :=
  fold_left (fun parent p => scan_repositories base_db repositories p parent)
            ps parent.

End Resolver.

Module ResolverExamples.
Import Resolver.

Definition t1 := "aaaaaaaaaaaa".
Definition t2 := "bbbbbbbbbbbb".
Definition t3 := "cccccccccccc".
Definition t4 := "dddddddddddd".

Definition db3 : ParentDb :=
  [ ("alpha", [mkImage t1 "1" 10 10]);
    ("beta",  [mkImage (t1 +:+ t2) "2" 20 20]);
    ("gamma", [mkImage (t1 +:+ t2 +:+ t3) "3" 30 30]) ].


Definition target4 : string := t1 +:+ t2 +:+ t3 +:+ t4.

Definition recA : ImageRecord := mkImage t1 "1" 10 10.
Definition recB : ImageRecord := mkImage (t1 +:+ t2) "2" 20 20.
Definition recC : ImageRecord := mkImage (t1 +:+ t2 +:+ t3) "3" 30 30.

(** Two repositories publishing the same content. *)
Definition db_tie : ParentDb :=
  [ ("alpha", [mkImage t1 "1" 10 10]);
    ("beta",  [mkImage t1 "2" 20 20]) ].

(** Three repositories publishing the same content. *)
Definition db_tie3 : ParentDb :=
  [ ("alpha", [mkImage t1 "1" 10 10]);
    ("beta",  [mkImage t1 "2" 20 20]);
    ("gamma", [mkImage t1 "3" 30 30]) ].

(** The layers of the illustration in the specification, three characters
    to a token. *)
Definition db_short : ParentDb :=
  [ ("alpha", [mkImage "aaa" "1" 10 10]);
    ("beta",  [mkImage "aaabbb" "2" 20 20]) ].

End ResolverExamples.

(** ** Layer extractor: [get_layers_image] (populate_parent_db.py) *)

Module Extractor.

(** One decoded line of [client.pull(..., stream = True, decode = True)],
    through the three keys the code reads: [line.get("status")],
    [line.get("id")] and [line.get("error")] ([None] when the key is absent). *)
Record Line : Type := mkLine {
  status : option string;
  id     : option string;
  error  : option string
}.

(** How a pull ends once its lines are consumed: the generator is exhausted,
    or the client raises: [docker.errors.APIError] with [str(e) = msg]
    ([APIError msg]), or an exception of another class, such as the read
    timeout of [requests] once the [timeout = 1800] of the client has passed.
    A failure of [docker.APIClient] or [client.login] is a pull without lines
    that raises. *)
Inductive stream_end : Type :=
| StreamEnd
| StreamRaises (e : exn).

Record Pull : Type := mkPull {
  lines  : list Line;
  ending : stream_end
}.

(** [re.search(pat, s)] for the patterns of this function, which are plain
    words: [pat] occurs in [s]. *)
Fixpoint contains (pat s : string) : bool :=
  match s with
  | EmptyString => String.prefix pat s
  | String _ s' => String.prefix pat s || contains pat s'
  end.

(** The truth value of [line.get("error")]. *)
Definition truthy (v : option string) : bool :=
  match v with
  | None => false
  | Some s => negb (String.eqb s "")
  end.

Definition status_is (line : Line) (s : string) : bool :=
  match status line with
  | Some s' => String.eqb s' s
  | None => false
  end.

(** [line.get("status") == "Pulling fs layer" or
     line.get("status") == "Already exists"] *)
Definition announces_layer (line : Line) : bool :=
  status_is line "Pulling fs layer" || status_is line "Already exists".

Definition incompatible_platform : string := "cannot be used on this platform".

(** The condition of line 193, with Python's precedence of [and] over [or]. *)
Definition is_incompatible (name : string) (err : string) : bool :=
  contains incompatible_platform err
  || (contains "no matching manifest" err && contains "microsoft" name)
  || contains "no matching manifest" err.

(** What one iteration of the [for line in client.pull(...)] loop does to
    [fs_layer_ids]. *)
Inductive line_outcome : Type :=
| NextLine (fs_layer_ids : string)
| BreakRetrieved (fs_layer_ids : string)
| LineRaises (fs_layer_ids : string) (e : exn).

Definition step_line (name : string) (fs_layer_ids : string) (line : Line)
  : line_outcome :=
  if announces_layer line then
    match id line with
    | Some i => NextLine (fs_layer_ids +:+ i)
    | None => LineRaises fs_layer_ids TypeError
    end
  else if truthy (error line) then
    if is_incompatible name (default "" (error line))
    then LineRaises fs_layer_ids (APIError incompatible_platform)
    else LineRaises fs_layer_ids (APIError "")
  else if status_is line "Downloading" then BreakRetrieved fs_layer_ids
  else NextLine fs_layer_ids.

(** How the [try] block of one attempt ends. *)
Inductive attempt_outcome : Type :=
| Retrieved (fs_layer_ids : string)
| Exhausted (fs_layer_ids : string)
| Raised (fs_layer_ids : string) (e : exn).

Fixpoint consume (name : string) (fs_layer_ids : string) (ls : list Line)
    (e : stream_end) : attempt_outcome :=
  match ls with
  | [] =>
      match e with
      | StreamEnd => Exhausted fs_layer_ids
      | StreamRaises ex => Raised fs_layer_ids ex
      end
  | line :: rest =>
      match step_line name fs_layer_ids line with
      | NextLine fs => consume name fs rest e
      | BreakRetrieved fs => Retrieved fs
      | LineRaises fs ex => Raised fs ex
      end
  end.

(** The effects of a call that the claims speak of: the attempts it starts
    and the pauses it takes ([time.sleep]).  [Pulls retrial] marks the start
    of the attempt number [retrial], that is of its [try] block: the client
    is created, logs in and pulls; an attempt whose login raises has started
    but has made no [client.pull].  Logging is left out. *)
Inductive effect : Type :=
| Pulls (retrial : nat)
| Sleeps (seconds : nat).

Record Run : Type := mkRun {
  outcome : result string;
  effects : list effect
}.

(** [retrials = 3 + 2] and [retrials_wait_time = 30] *)
Definition retrials : nat := 3 + 2.
Definition retrials_wait_time : nat := 30.

(** [range(1, retrials)] *)
Definition retrial_range : list nat := seq 1 (retrials - 1).

(** The [for retrial in range(1, retrials)] loop, from a given iteration on.
    [pulls retrial] is what the registry answers to the pull of that
    iteration. *)
Fixpoint retry_loop (name : string) (pulls : nat -> Pull) (todo : list nat)
    (fs_layer_ids : string) (is_retrieved : bool) (done : list effect) : Run :=
  match todo with
  | [] => mkRun (Return fs_layer_ids) done
  | retrial :: rest =>
      if is_retrieved then mkRun (Return fs_layer_ids) done
      else
        let done := done ++ [Pulls retrial] in
        match consume name fs_layer_ids (lines (pulls retrial))
                      (ending (pulls retrial)) with
        | Retrieved fs => retry_loop name pulls rest fs true done
        | Exhausted fs => retry_loop name pulls rest fs false done
        | Raised fs (APIError msg) =>
            if contains incompatible_platform msg
            then mkRun (Return fs) done
            else
              let fs := if contains "docker login" msg then fs else "" in
              if (retrial <? retrials - 1)%nat
              then retry_loop name pulls rest fs false
                              (done ++ [Sleeps retrials_wait_time])
              else retry_loop name pulls rest fs false done
        | Raised fs ex => mkRun (Raise ex) done
        end
  end.

Definition get_layers_image (name : string) (pulls : nat -> Pull) : Run :=
  retry_loop name pulls retrial_range "" false [].

(** The identifiers announced by the lines of a stream, in order. *)
Fixpoint layer_tokens (ls : list Line) : string :=
  match ls with
  | [] => ""
  | line :: rest =>
      (if announces_layer line then default "" (id line) else "")
      +:+ layer_tokens rest
  end.

(** A line that neither stops the loop nor raises: a layer announcement with
    its identifier, or a line without error whose status is not
    ["Downloading"]. *)
Definition passes (line : Line) : Prop :=
  if announces_layer line then id line <> None
  else truthy (error line) = false /\ status_is line "Downloading" = false.

(** The line that signals the start of the transfer. *)
Definition starts_download (line : Line) : Prop :=
  status_is line "Downloading" = true /\ truthy (error line) = false.

(** A transient failure of an attempt: an [APIError] that is neither the
    incompatible platform nor a required login. *)
Definition transient (msg : string) : Prop :=
  contains incompatible_platform msg = false /\
  contains "docker login" msg = false.

Definition fails_transiently (name : string) (p : Pull) : Prop :=
  exists fs msg,
    consume name "" (lines p) (ending p) = Raised fs (APIError msg) /\
    transient msg.

Definition count_pulls (es : list effect) : nat :=
  List.length
    (List.filter (fun e => match e with Pulls _ => true | Sleeps _ => false end) es).

(** An outcome with [fs] put in front of its identifiers. *)
Definition with_prefix (fs : string) (o : attempt_outcome) : attempt_outcome :=
  match o with
  | Retrieved x => Retrieved (fs +:+ x)
  | Exhausted x => Exhausted (fs +:+ x)
  | Raised x e => Raised (fs +:+ x) e
  end.

(** The effects of [k] attempts that failed and were retried. *)
Definition failed_effects (k : nat) : list effect :=
  flat_map
    (fun j => Pulls j :: if (j <? retrials - 1)%nat
                         then [Sleeps retrials_wait_time] else [])
    (seq 1 k).

End Extractor.

Module ExtractorExamples.
Import Extractor.

Definition layer (i : string) : Line := mkLine (Some "Pulling fs layer") (Some i) None.
Definition cached (i : string) : Line := mkLine (Some "Already exists") (Some i) None.
Definition downloading (i : string) : Line := mkLine (Some "Downloading") (Some i) None.
Definition failure (e : string) : Line := mkLine None None (Some e).
Definition pulling_from (t : string) : Line :=
  mkLine (Some "Pulling from library/redis") (Some t) None.

(** A pull that announces two layers and starts the transfer. *)
Definition good_pull : Pull :=
  mkPull [pulling_from "7"; layer "aaaaaaaaaaaa"; cached "bbbbbbbbbbbb";
          downloading "aaaaaaaaaaaa"; layer "cccccccccccc"] StreamEnd.

(** A pull interrupted by a registry error after the first announcement. *)
Definition broken_pull : Pull :=
  mkPull [layer "aaaaaaaaaaaa"; failure "gateway timeout";
          downloading "aaaaaaaaaaaa"] StreamEnd.

(** Four attempts that fail, and a fifth pull that would succeed. *)
Definition failing_then_good (k : nat) : Pull :=
  if (k <=? 4)%nat then broken_pull else good_pull.

End ExtractorExamples.

(** ** The registry as the synchronizer sees it *)

Module Hub.

(** The ["last_updated"] entry of a tag object: absent or JSON [null]
    ([None]), the text ["null"], or a time stamp, taken in the parsed form
    [calendar.timegm(time.strptime(..))]. *)
Inductive hub_time : Type :=
| NoTime
| NullText
| Time (t : Z).

(** [dockerhub_api.get_repository_tag_query_v2]: the empty string when the
    request fails, the tag object otherwise. *)
Inductive tag_object : Type :=
| TagQueryFailed
| TagObject (last_updated : hub_time).

(** The answers of the outside world, by repository and tag.
    - [repository_tags]: [get_repository_tags_query_v2("library/" + r)];
    - [repository_tag]: [get_repository_tag_query_v2("library/" + r, tag)];
    - [microbadger_tag]: [microbadger_api.get_repository_tag_query_v1], the
      parsed ["Created"] of the version found, [None] for the empty string;
    - [pulls]: what the registry streams at each pull of [r:tag]. *)
Record API : Type := mkAPI {
  repository_tags : string -> list string;
  repository_tag  : string -> string -> tag_object;
  microbadger_tag : string -> string -> option Z;
  pulls           : string -> string -> nat -> Extractor.Pull
}.

End Hub.

(** ** Repository extraction: [get_layers_official_repository] *)

Module Extraction.
Import Extractor Hub.

(** Lines 271-281: the loop over the lines of one pull.  Unlike
    [get_layers_image] it has no branch for error lines. *)
Fixpoint consume_official (fs_layer_ids : string) (ls : list Line)
    (e : stream_end) : attempt_outcome :=
  match ls with
  | [] =>
      match e with
      | StreamEnd => Exhausted fs_layer_ids
      | StreamRaises ex => Raised fs_layer_ids ex
      end
  | line :: rest =>
      if announces_layer line then
        match id line with
        | Some i => consume_official (fs_layer_ids +:+ i) rest e
        | None => Raised fs_layer_ids TypeError
        end
      else if status_is line "Downloading" then Retrieved fs_layer_ids
      else consume_official fs_layer_ids rest e
  end.

(** Lines 263-291: every [APIError] empties [fs_layer_ids]. *)
Fixpoint retry_official (pulls : nat -> Pull) (todo : list nat)
    (fs_layer_ids : string) (is_retrieved : bool) : result string :=
  match todo with
  | [] => Return fs_layer_ids
  | retrial :: rest =>
      if is_retrieved then Return fs_layer_ids
      else
        match consume_official fs_layer_ids (lines (pulls retrial))
                               (ending (pulls retrial)) with
        | Retrieved fs => retry_official pulls rest fs true
        | Exhausted fs => retry_official pulls rest fs false
        | Raised _ (APIError _) => retry_official pulls rest "" false
        | Raised _ ex => Raise ex
        end
  end.

(** Lines 297-300: [for image in images: if fs_layer_ids ==
    image.get("fs_layers"): is_retrieved = True; break] *)
Fixpoint already_retrieved (fs_layer_ids : string) (images : list ImageRecord)
  : bool :=
  match images with
  | [] => false
  | image :: rest =>
      if String.eqb fs_layer_ids (fs_layers image) then true
      else already_retrieved fs_layer_ids rest
  end.

(** Lines 293-329: what is done with the layers extracted for a tag. *)
Definition insert_image (api : API) (repository repository_tag : string)
    (fs_layer_ids : string) (images : list ImageRecord)
  : result (list ImageRecord) :=
  if String.eqb fs_layer_ids "" then Return images
  else if already_retrieved fs_layer_ids images then Return images
  else
    match Hub.repository_tag api repository repository_tag with
    | TagQueryFailed => Return images
    | TagObject lu =>
        let with_time (last_updated : Z) :=
          match microbadger_tag api repository repository_tag with
          | Some created =>
              Return (images ++ [{| fs_layers := fs_layer_ids;
                                    image_tag := repository_tag;
                                    last_updated := last_updated;
                                    created := created |}])
          | None => Return images
          end in
        match lu with
        | Time t => with_time t
        | NoTime => with_time 0%Z
        | NullText => Raise ValueError
        end
    end.

(** The loop over the tags of the repository, lines 252-329. *)
Fixpoint extract_tags (api : API) (repository : string)
    (repository_tags : list string) (images : list ImageRecord)
  : result (list ImageRecord) :=
  match repository_tags with
  | [] => Return images
  | repository_tag :: rest =>
      match retry_official (pulls api repository repository_tag)
                           retrial_range "" false with
      | Raise ex => Raise ex
      | Return fs_layer_ids =>
          match insert_image api repository repository_tag fs_layer_ids images with
          | Raise ex => Raise ex
          | Return images => extract_tags api repository rest images
          end
      end
  end.

Definition get_layers_official_repository (api : API) (repository : string)
  : result (list ImageRecord) :=
  extract_tags api repository (Hub.repository_tags api repository) [].

(** The records of a list that carry given layers. *)
Definition with_layers (fs : string) (images : list ImageRecord)
  : list ImageRecord :=
  List.filter (fun image => String.eqb fs (fs_layers image)) images.

(** One insertion request: a tag and the layers extracted for it. *)
Definition insertion : Type := (string * string)%type.

(** A run of insertions into the record list of one repository. *)
Fixpoint insert_all (api : API) (repository : string) (reqs : list insertion)
    (images : list ImageRecord) : result (list ImageRecord) :=
  match reqs with
  | [] => Return images
  | (repository_tag, fs_layer_ids) :: rest =>
      match insert_image api repository repository_tag fs_layer_ids images with
      | Raise ex => Raise ex
      | Return images => insert_all api repository rest images
      end
  end.

(** The lookups that complete a record succeed for [repository:tag], and
    layers were extracted. *)
Definition has_record (api : API) (repository tag fs : string) : Prop :=
  fs <> "" /\
  (exists lu, Hub.repository_tag api repository tag = TagObject lu /\ lu <> NullText) /\
  microbadger_tag api repository tag <> None.

End Extraction.

Module ExtractionExamples.
Import Extractor Hub Extraction ExtractorExamples.

(** A registry where [redis] has the tags ["7"] and ["latest"], which publish
    the same layers, and ["6"]. *)
Definition redis_api : API :=
  mkAPI
    (fun _ => ["7"; "latest"; "6"])
    (fun _ tag => if String.eqb tag "6" then TagObject (Time 100)
                  else TagObject (Time 200))
    (fun _ tag => if String.eqb tag "6" then Some 90%Z else Some 190%Z)
    (fun _ tag _ =>
       if String.eqb tag "6"
       then mkPull [layer "aaaaaaaaaaaa"; downloading "aaaaaaaaaaaa"] StreamEnd
       else mkPull [layer "aaaaaaaaaaaa"; layer "bbbbbbbbbbbb";
                    downloading "aaaaaaaaaaaa"] StreamEnd).

End ExtractionExamples.

(** ** Incremental synchronizer: [update_official_database] *)

Module Sync.
Import Hub.

(** *** The staleness watermark, lines 549-561 *)

(** [threshold = 30] *)
Definition threshold : nat := 30.

(** The state of the scan: [last_updated_time], [n], and the records whose
    ["last_updated"] the loop has read so far (kept to speak about the scan;
    the code does not store them). *)
Record Scan : Type := mkScan {
  last_updated_time : Z;
  n_not_raising     : nat;
  scanned           : list ImageRecord
}.

(** [for image in parent_db[repository]: if n >= threshold: break; ...] *)
Fixpoint watermark_loop (images : list ImageRecord) (s : Scan) : Scan :=
  match images with
  | [] => s
  | image :: rest =>
      if (threshold <=? n_not_raising s)%nat then s
      else if (last_updated image >? last_updated_time s)%Z
      then watermark_loop rest
             (mkScan (last_updated image) (n_not_raising s) (scanned s ++ [image]))
      else watermark_loop rest
             (mkScan (last_updated_time s) (n_not_raising s + 1) (scanned s ++ [image]))
  end.

(** [last_updated_time = 0; n = 0] and the loop. *)
Definition watermark_scan (images : list ImageRecord) : Scan :=
  watermark_loop images (mkScan 0 0 []).

Definition watermark (images : list ImageRecord) : Z :=
  last_updated_time (watermark_scan images).

(** The largest of [0] and the given time stamps. *)
Definition max_time (ts : list Z) : Z := fold_left Z.max ts 0%Z.

(** *** The update pass over the tags of one repository, lines 567-647 *)

(** [non_updated_threshold = 30] *)
Definition non_updated_threshold : nat := 30.

(** The variables of the pass: the record list [parent_db[repository]]
    (which [repository_images] aliases), [added_image_layers], [n] and
    [is_image_updated]. *)
Record Pass : Type := mkPass {
  images           : list ImageRecord;
  added            : gset string;
  n                : nat;
  is_image_updated : bool
}.

(** [repository_images.index(repository_image)]: the first equal record. *)
Fixpoint index_image (x : ImageRecord) (l : list ImageRecord) : option nat :=
  match l with
  | [] => None
  | y :: l' => if decide (y = x) then Some 0 else option_map S (index_image x l')
  end.

(** [parent_db[repository].remove(repository_image)]: drops the first equal
    record. *)
Fixpoint remove_image (x : ImageRecord) (l : list ImageRecord) : list ImageRecord :=
  match l with
  | [] => []
  | y :: l' => if decide (y = x) then l' else y :: remove_image x l'
  end.

(** [parent_db[repository][image_index][..] = ..] for the index of the first
    record equal to [repository_image]. *)
Definition update_image (repository_image new_image : ImageRecord)
    (l : list ImageRecord) : list ImageRecord :=
  match index_image repository_image l with
  | Some image_index => <[image_index := new_image]> l
  | None => l
  end.

(** The test [result is not None and result.get("last_updated") != "null" and
    result.get("last_updated") is not None] followed by the parse: the time
    stamp when the test holds, [None] when it does not; on the empty string of
    a failed request [.get] raises [AttributeError]. *)
Definition checked_time (o : tag_object) : result (option Z) :=
  match o with
  | TagQueryFailed => Raise AttributeError
  | TagObject (Time t) => Return (Some t)
  | TagObject NoTime => Return None
  | TagObject NullText => Return None
  end.

(** One iteration of [for repository_image in repository_images], lines
    584-623, on the record at position [pos] of the live list. *)
Definition inner_step (api : API) (repository new_repository_tag : string)
    (new_image_layers : string) (repository_image : ImageRecord) (p : Pass)
  : result Pass :=
  if String.eqb (fs_layers repository_image) new_image_layers then
    match checked_time (repository_tag api repository new_repository_tag) with
    | Raise ex => Raise ex
    | Return t =>
        let images :=
          match t with
          | Some new_updated_time =>
              if (new_updated_time >? last_updated repository_image)%Z
              then update_image repository_image
                     {| fs_layers := fs_layers repository_image;
                        image_tag := image_tag repository_image;
                        last_updated := new_updated_time;
                        created := created repository_image |}
                     (images p)
              else images p
          | None => images p
          end in
        Return (mkPass images (added p) (n p + 1) true)
    end
  else if String.eqb (image_tag repository_image) new_repository_tag then
    if decide (new_image_layers ∈ added p) then
      Return (mkPass (remove_image repository_image (images p))
                     (added p) (n p) (is_image_updated p))
    else
      match checked_time (repository_tag api repository new_repository_tag) with
      | Raise ex => Raise ex
      | Return (Some new_updated_time) =>
          Return (mkPass
                    (update_image repository_image
                       {| fs_layers := new_image_layers;
                          image_tag := image_tag repository_image;
                          last_updated := new_updated_time;
                          created := created repository_image |}
                       (images p))
                    ({[ new_image_layers ]} ∪ added p) (n p) true)
      | Return None => Return p
      end
  else Return p.

(** The loop itself.  CPython iterates a list by position and reads its
    length anew at every step, so a removal makes the loop skip the record
    that slides into the freed position.  The list never grows inside the
    loop: [fuel] steps are enough from [length (images p) - pos] on (lemma
    [inner_loop_fuel]). *)
Fixpoint inner_loop (fuel : nat) (api : API) (repository new_repository_tag : string)
    (new_image_layers : string) (pos : nat) (p : Pass) : result Pass :=
  match fuel with
  | O => Return p
  | S fuel =>
      match images p !! pos with
      | None => Return p
      | Some repository_image =>
          match inner_step api repository new_repository_tag new_image_layers
                           repository_image p with
          | Raise ex => Raise ex
          | Return p =>
              inner_loop fuel api repository new_repository_tag
                         new_image_layers (pos + 1) p
          end
      end
  end.

(** Lines 625-647: the image is brand new. *)
Definition add_new_image (api : API) (repository new_repository_tag : string)
    (new_image_layers : string) (p : Pass) : result Pass :=
  if negb (is_image_updated p) && negb (bool_decide (new_image_layers ∈ added p))
  then
    match checked_time (repository_tag api repository new_repository_tag) with
    | Raise ex => Raise ex
    | Return (Some updated_time) =>
        match microbadger_tag api repository new_repository_tag with
        | Some created =>
            Return (mkPass
                      (images p ++ [{| fs_layers := new_image_layers;
                                       image_tag := new_repository_tag;
                                       last_updated := updated_time;
                                       created := created |}])
                      ({[ new_image_layers ]} ∪ added p) (n p) (is_image_updated p))
        | None => Return p
        end
    | Return None => Return p
    end
  else Return p.

(** [for new_repository_tag in new_repository_tags], lines 573-647. *)
Fixpoint tags_loop (api : API) (repository : string)
    (new_repository_tags : list string) (p : Pass) : result Pass :=
  match new_repository_tags with
  | [] => Return p
  | new_repository_tag :: rest =>
      if (non_updated_threshold <=? n p)%nat then Return p
      else
        match Extractor.outcome
                (Extractor.get_layers_image repository
                   (pulls api repository new_repository_tag)) with
        | Raise ex => Raise ex
        | Return new_image_layers =>
            let p := mkPass (images p) (added p) (n p) false in
            if String.eqb new_image_layers "" then tags_loop api repository rest p
            else
              match inner_loop (length (images p)) api repository
                               new_repository_tag new_image_layers 0 p with
              | Raise ex => Raise ex
              | Return p =>
                  match add_new_image api repository new_repository_tag
                                      new_image_layers p with
                  | Raise ex => Raise ex
                  | Return p => tags_loop api repository rest p
                  end
              end
        end
  end.

(** The pass on the stored records of a repository: lines 567-647. *)
Definition update_pass (api : API) (repository : string)
    (repository_images : list ImageRecord) : result (list ImageRecord) :=
  match tags_loop api repository (repository_tags api repository)
                  (mkPass repository_images ∅ 0 false) with
  | Raise ex => Raise ex
  | Return p => Return (images p)
  end.

(** *** The whole function, lines 501-665 *)

(** What [open(db_file, "r")] and [json.loads] give. *)
Inductive read_result : Type :=
| ReadFails (e : exn)
| ReadDb (db : ParentDb).

(** The world of a run: the catalog names of [get_official_images()], the
    database file, and the registry. *)
Record World : Type := mkWorld {
  catalog : list string;
  db_file : read_result;
  api     : API
}.

(** The effects of a run on the outside, in order. *)
Inductive sync_effect : Type :=
| FetchCatalog
| OpenRead
| ProcessExit
| ExtractRepository (repository : string)
| AppendElement (repository : string) (repository_images : list ImageRecord)
| CheckRepository (repository : string)
| WriteDb (parent_db : ParentDb)
| RenameFile
| LogException (e : exn).

(** How the call ends for its caller. *)
Inductive sync_outcome : Type :=
| Returned
| Exited
| Propagated (e : exn).

(** How a computation of the [try] block ends: with a value, with an
    exception on its way to the handler, or with the process gone
    ([os._exit], which no handler sees). *)
Inductive step (A : Type) : Type :=
| Ok (a : A)
| Throws (e : exn)
| Quits.
Arguments Ok {A} a.
Arguments Throws {A} e.
Arguments Quits {A}.

(** Computations of the [try] block: they read and write the database in
    memory, leave effects, and may raise or leave the process. *)
Definition M (A : Type) : Type :=
  ParentDb * list sync_effect -> step A * (ParentDb * list sync_effect).

Definition ret {A} (a : A) : M A := fun s => (Ok a, s).
Definition raise {A} (e : exn) : M A := fun s => (Throws e, s).
Definition os_exit {A} : M A := fun s => (Quits, s).
Definition bind {A B} (m : M A) (f : A -> M B) : M B :=
  fun s => match m s with
           | (Ok a, s') => f a s'
           | (Throws e, s') => (Throws e, s')
           | (Quits, s') => (Quits, s')
           end.
Definition lift {A} (r : result A) : M A :=
  match r with
  | Return a => ret a
  | Raise e => raise e
  end.
Definition emit (e : sync_effect) : M unit := fun s => (Ok tt, (s.1, s.2 ++ [e])).
Definition get_db : M ParentDb := fun s => (Ok s.1, s).
Definition put_db (db : ParentDb) : M unit := fun s => (Ok tt, (db, s.2)).

(** The monad notations [x ← m; k] and [m ;; k] are those of stdpp. *)
#[global] Instance M_ret : MRet M := @ret.
#[global] Instance M_bind : MBind M := fun A B f m => bind m f.

(** [parent_db[repository] = repository_images]: in place for a known key,
    at the end for a new one. *)
Fixpoint db_set (db : ParentDb) (repository : string)
    (repository_images : list ImageRecord) : ParentDb :=
  match db with
  | [] => [(repository, repository_images)]
  | (k, v) :: db' =>
      if String.eqb k repository then (k, repository_images) :: db'
      else (k, v) :: db_set db' repository repository_images
  end.

(** [list(set(new_repositories) - set(parent_db.keys()))]; a [set] has no
    promised order, the catalog order is taken. *)
Fixpoint brand_new (names : list string) (known : list string) : list string :=
  match names with
  | [] => []
  | x :: rest =>
      if bool_decide (x ∈ known) then brand_new rest known
      else x :: brand_new rest (x :: known)
  end.

(** Lines 524-533. *)
Fixpoint add_repositories (w : World) (new_repositories : list string) : M unit :=
  match new_repositories with
  | [] => ret tt
  | new_repository :: rest =>
      emit (ExtractRepository new_repository) ;;
      repository_images ←
        lift (Extraction.get_layers_official_repository (api w) new_repository);
      match repository_images with
      | [] => ret tt
      | _ :: _ =>
          emit (AppendElement new_repository repository_images) ;;
          parent_db ← get_db;
          put_db (db_set parent_db new_repository repository_images)
      end ;;
      add_repositories w rest
  end.

(** [tag = dockerhub_api.get_latest_versioned_tag(..)] *)
Definition get_latest_versioned_tag (a : API) (repository : string) : string :=
  match repository_tags a repository with
  | [] => ""
  | tag :: _ => tag
  end.

(** Line 547 on the tag object of line 544: [result] is never [None];
    [.get] on the empty string, [strptime] on [None] and on ["null"] raise. *)
Definition parsed_time (o : tag_object) : result Z :=
  match o with
  | TagQueryFailed => Raise AttributeError
  | TagObject NoTime => Raise TypeError
  | TagObject NullText => Raise ValueError
  | TagObject (Time t) => Return t
  end.

(** Lines 540-654, for one repository. *)
Definition check_repository (w : World) (repository : string) : M unit :=
  emit (CheckRepository repository) ;;
  new_updated_time ←
    lift (parsed_time (repository_tag (api w) repository
                         (get_latest_versioned_tag (api w) repository)));
  parent_db ← get_db;
  (if (new_updated_time >? watermark (db_get parent_db repository))%Z
   then
     repository_images ←
       lift (update_pass (api w) repository (db_get parent_db repository));
     put_db (db_set parent_db repository repository_images)
   else ret tt) ;;
  parent_db ← get_db;
  emit (WriteDb parent_db).

Fixpoint check_repositories (w : World) (repositories : list string) : M unit :=
  match repositories with
  | [] => ret tt
  | repository :: rest =>
      check_repository w repository ;; check_repositories w rest
  end.

(** Lines 505-506: [with open(db_file, "r") as json_file:
    parent_db = json.loads(json_file.readline())]. *)
Definition read_database (w : World) : M unit :=
  emit OpenRead ;;
  match db_file w with
  | ReadFails e => raise e
  | ReadDb parent_db => put_db parent_db
  end.

(** The [try] block, lines 502-662. *)
Definition sync_body (w : World) : M unit :=
  emit FetchCatalog ;;
  read_database w ;;
  match catalog w with
  | [] => emit ProcessExit ;; os_exit
  | _ :: _ => ret tt
  end ;;
  parent_db ← get_db;
  (if (length (keys parent_db) <? length (catalog w))%nat
   then add_repositories w (brand_new (catalog w) (keys parent_db))
   else ret tt) ;;
  parent_db ← get_db;
  check_repositories w (keys parent_db) ;;
  emit RenameFile.

(** [update_official_database(db_file)]: the [try] block, entered with
    [parent_db] unset, and the bare [except], which logs whatever the block
    raises; nothing is re-raised. *)
Definition update_official_database (w : World)
  : sync_outcome * list sync_effect :=
  match sync_body w ([], []) with
  | (Ok _, (_, effects)) => (Returned, effects)
  | (Throws e, (_, effects)) => (Returned, effects ++ [LogException e])
  | (Quits, (_, effects)) => (Exited, effects)
  end.

(** An effect that changes a repository of the database, in the file or
    through the registry. *)
Definition updates_repository (e : sync_effect) : bool :=
  match e with
  | ExtractRepository _ | AppendElement _ _ | CheckRepository _
  | WriteDb _ | RenameFile => true
  | FetchCatalog | OpenRead | ProcessExit | LogException _ => false
  end.

(** The number of time stamps of a scan that do not raise the running
    maximum [m]. *)
Fixpoint not_raising (ts : list Z) (m : Z) : nat :=
  match ts with
  | [] => 0
  | t :: ts' => if (t >? m)%Z then not_raising ts' t else S (not_raising ts' m)
  end.

End Sync.

Module SyncExamples.
Import Extractor Hub Sync ExtractorExamples.

(** Thirty-one records, each newer than the one before. *)
Definition rising (k : nat) : list ImageRecord :=
  map (fun i => mkImage "aaaaaaaaaaaa" "t" (Z.of_nat i) 0) (seq 1 k).

Definition layers6 : string := "aaa111222333".
Definition layers7 : string := "aaa111222333444555666".
Definition rec6 : ImageRecord := mkImage layers6 "6" 100 90.

(** The registry of the scenario: [redis] now lists the tag ["7"], whose pull
    announces the layers of ["6"] and one more; [created7] is what the
    creation-time lookup answers for it. *)
Definition redis7 (created7 : option Z) : API :=
  mkAPI
    (fun _ => ["7"])
    (fun _ _ => TagObject (Time 200))
    (fun _ _ => created7)
    (fun _ _ _ => mkPull [layer "aaa111222333"; layer "444555666";
                          downloading "aaa111222333"] StreamEnd).

(** A database file that cannot be read. *)
Definition unreadable : World :=
  mkWorld ["redis"] (ReadFails IOError) (redis7 (Some 190%Z)).

Definition redis_world : World :=
  mkWorld ["redis"] (ReadDb [("redis", [rec6])]) (redis7 (Some 190%Z)).

(** The catalog request brings nothing. *)
Definition empty_catalog : World :=
  mkWorld [] (ReadDb [("redis", [rec6])]) (redis7 (Some 190%Z)).

(** The tag request of the registry fails for every tag. *)
Definition failing_hub : World :=
  mkWorld ["redis"] (ReadDb [("redis", [rec6])])
    (mkAPI (fun _ => ["7"]) (fun _ _ => TagQueryFailed) (fun _ _ => None)
           (fun _ _ _ => mkPull [] StreamEnd)).

End SyncExamples.

(** ** Duplicate resolver: [verify_duplicates] *)

Module Duplicates.

(** The branch taken at line 851 once two records with equal layers are
    found: [image] is more recent than [img] ([is_image_parent = False];
    the removal left in comment is that of [image]), or it is not (the
    removal left in comment is that of [img]). *)
Inductive verdict : Type :=
| ImageMoreRecent
| ImageOlder.

(** One resolution, as logged and printed by lines 843-848, with the branch
    that follows. *)
Record Finding : Type := mkFinding {
  repository : string;
  image      : ImageRecord;
  repo       : string;
  img        : ImageRecord;
  outcome    : verdict
}.

(** [for img in parent_db[repo]], lines 840-858: the flag
    [is_image_parent] and the resolutions reported. *)
Fixpoint compare_images (repository : string) (image : ImageRecord)
    (repo : string) (imgs : list ImageRecord) (is_image_parent : bool)
  : bool * list Finding :=
  match imgs with
  | [] => (is_image_parent, [])
  | img :: rest =>
      if String.eqb (fs_layers image) (fs_layers img) then
        if (created image - created img >? 0)%Z then
          let '(flag, found) := compare_images repository image repo rest false in
          (flag, mkFinding repository image repo img ImageMoreRecent :: found)
        else
          let '(flag, found) :=
            compare_images repository image repo rest is_image_parent in
          (flag, mkFinding repository image repo img ImageOlder :: found)
      else compare_images repository image repo rest is_image_parent
  end.

(** [for repo in repositories], lines 837-862, with its [break]. *)
Fixpoint scan_others (parent_db : ParentDb) (repository : string)
    (image : ImageRecord) (repositories : list string) : list Finding :=
  match repositories with
  | [] => []
  | repo :: rest =>
      let '(is_image_parent, found) :=
        compare_images repository image repo (db_get parent_db repo) true in
      if is_image_parent
      then found ++ scan_others parent_db repository image rest
      else found
  end.

(** Lines 834-835: the keys without [repository]. *)
Definition other_repositories (parent_db : ParentDb) (repository : string)
  : list string :=
  let repositories := keys parent_db in
  match Resolver.index_of repository repositories with
  | Some i => firstn i repositories ++ skipn (i + 1) repositories
  | None => repositories
  end.

(** The two outer loops, lines 831-832; what they report is the
    concatenation of what each image reports. *)
Definition verify_database (parent_db : ParentDb) : list Finding :=
  flat_map
    (fun '(repository, images) =>
       flat_map
         (fun image =>
            scan_others parent_db repository image
              (other_repositories parent_db repository))
         images)
    parent_db.

(** [verify_duplicates(db_file)]: a failure to read the file is logged by the
    bare [except] and nothing is reported. *)
Definition verify_duplicates (db_file : Sync.read_result)
  : list Finding * option exn :=
  match db_file with
  | Sync.ReadFails e => ([], Some e)
  | Sync.ReadDb parent_db => (verify_database parent_db, None)
  end.

(** The record that a resolution marks as the republished copy: [image] when
    it is more recent, [img] otherwise. *)
Definition flags (f : Finding) (r : string) (x : ImageRecord) : Prop :=
  match outcome f with
  | ImageMoreRecent => repository f = r /\ image f = x
  | ImageOlder => repo f = r /\ img f = x
  end.

(** The record that a resolution leaves as the legitimate parent. *)
Definition keeps (f : Finding) (r : string) (x : ImageRecord) : Prop :=
  match outcome f with
  | ImageMoreRecent => repo f = r /\ img f = x
  | ImageOlder => repository f = r /\ image f = x
  end.

(** A resolution that confronts the two given records. *)
Definition confronts (f : Finding) (ra : string) (a : ImageRecord)
    (rb : string) (b : ImageRecord) : Prop :=
  (repository f = ra /\ image f = a /\ repo f = rb /\ img f = b) \/
  (repository f = rb /\ image f = b /\ repo f = ra /\ img f = a).

End Duplicates.

Module DuplicatesExamples.

Definition foo_xyz : ImageRecord := mkImage "xyz" "1" 0 100.
Definition bar_xyz : ImageRecord := mkImage "xyz" "2" 0 200.
Definition base_xyz : ImageRecord := mkImage "xyz" "0" 0 50.

Definition foo_bar : ParentDb := [("foo", [foo_xyz]); ("bar", [bar_xyz])].

(** A third repository holds the oldest copy and comes first. *)
Definition base_foo_bar : ParentDb :=
  [("base", [base_xyz]); ("foo", [foo_xyz]); ("bar", [bar_xyz])].

End DuplicatesExamples.

(** ** The most recent file: [get_most_recent_file] (utils.py) *)

Module Utils.

(** The loop of lines 131-136; [getmtime] stands for [os.path.getmtime] (a
    time stamp, of which only the order is used), [most_recent_mtime] is
    [None] before the first file. *)
Fixpoint most_recent_loop (getmtime : string -> Z) (files : list string)
    (most_recent_mtime : option Z) (most_recent_file : string) : string :=
  match files with
  | [] => most_recent_file
  | file :: rest =>
      let mtime := getmtime file in
      match most_recent_mtime with
      | None => most_recent_loop getmtime rest (Some mtime) file
      | Some m =>
          if (mtime >? m)%Z
          then most_recent_loop getmtime rest (Some mtime) file
          else most_recent_loop getmtime rest most_recent_mtime most_recent_file
      end
  end.

Definition get_most_recent_file (getmtime : string -> Z) (files : list string)
  : string :=
  most_recent_loop getmtime files None "".

End Utils.

(** ** The tags of a repository: [get_repository_tags_query_v2]
    (dockerhub_api.py) *)

Module TagsQuery.

(** What the request of one page gives: a [ConnectionError], an answer that
    is not [ok] or has no ["results"], or the names of its tag objects. *)
Inductive page_response : Type :=
| PageRaises
| PageEmpty
| PageResults (names : list string).

(** The registry, once the first request has been answered: the ["count"] of
    the first answer ([None] when it is not [ok] or carries a ["detail"]),
    whether [session.get] raises a [ConnectionError], and the pages. *)
Record Endpoint : Type := mkEndpoint {
  count_response : option nat;
  session_raises : bool;
  page           : nat -> page_response
}.

(** [fetching_size = 50] *)
Definition fetching_size : nat := 50.

(** [total_images // fetching_size + 1 if total_images % fetching_size > 0
     else total_images // fetching_size] *)
Definition total_pages (total_images : nat) : nat :=
  if (0 <? total_images mod fetching_size)%nat
  then total_images / fetching_size + 1
  else total_images / fetching_size.

(** [for page in range(1, total_pages + 1)], inside the [try]: a
    [ConnectionError] ends the loop with the tags gathered so far. *)
Fixpoint fetch_pages (page : nat -> page_response) (todo : list nat)
    (tags : list string) : list string :=
  match todo with
  | [] => tags
  | p :: rest =>
      match page p with
      | PageRaises => tags
      | PageEmpty => fetch_pages page rest tags
      | PageResults [] => fetch_pages page rest tags
      | PageResults names => fetch_pages page rest (tags ++ names)
      end
  end.

Definition get_repository_tags_query_v2 (e : Endpoint) : list string :=
  if session_raises e then []
  else
    match count_response e with
    | None => []
    | Some total_images =>
        fetch_pages (page e) (seq 1 (total_pages total_images)) []
    end.

(** [get_latest_versioned_tag]: [tags[0]], or [""] without tags. *)
Definition get_latest_versioned_tag (e : Endpoint) : string :=
  match get_repository_tags_query_v2 e with
  | [] => ""
  | tag :: _ => tag
  end.

(** A registry that serves the tags [all] in pages of [fetching_size]. *)
Definition serves (all : list string) : Endpoint :=
  mkEndpoint (Some (List.length all)) false
             (fun p => PageResults
                         (firstn fetching_size (skipn ((p - 1) * fetching_size) all))).

End TagsQuery.

(** ** The creation time of a tag: [get_repository_tag_query_v1]
    (microbadger_api.py) *)

Module MicroBadger.

(** One element of ["Versions"]: its ["Created"] text, parsed, and the
    ["tag"] of each of its ["Tags"]. *)
Record Version : Type := mkVersion {
  Created : Z;
  Tags    : list string
}.

(** [for tag in tags: if tag.get("tag") == repository_tag: ...; break] *)
Fixpoint scan_tags (tags : list string) (repository_tag : string) : bool :=
  match tags with
  | [] => false
  | tag :: rest =>
      if String.eqb tag repository_tag then true
      else scan_tags rest repository_tag
  end.

(** [for version in versions: if is_retrieved: break; ...] *)
Fixpoint scan_versions (versions : list Version) (repository_tag : string)
    (tag_object : option Version) (is_retrieved : bool) : option Version :=
  match versions with
  | [] => tag_object
  | version :: rest =>
      if is_retrieved then tag_object
      else if scan_tags (Tags version) repository_tag
      then scan_versions rest repository_tag (Some version) true
      else scan_versions rest repository_tag tag_object is_retrieved
  end.

(** The answer of [get_repository_query_v1]: nothing (the empty string of a
    failed request), or an object with its ["Versions"], if any.  The result
    is the version found, [None] standing for the empty string. *)
Definition get_repository_tag_query_v1 (result : option (option (list Version)))
    (repository_tag : string) : option Version :=
  match result with
  | None => None
  | Some None => None
  | Some (Some []) => None
  | Some (Some versions) => scan_versions versions repository_tag None false
  end.

End MicroBadger.

(** ** The download of an image: [download_image] (image_analyzer.py) *)

Module Analyzer.
Import Extractor.

(** The loop of lines 64-68 keeps every announced identifier and looks at
    nothing else, neither at ["Downloading"] nor at ["error"]. *)
Fixpoint consume_all (fs_layer_ids : string) (ls : list Line) (e : stream_end)
  : attempt_outcome :=
  match ls with
  | [] =>
      match e with
      | StreamEnd => Exhausted fs_layer_ids
      | StreamRaises ex => Raised fs_layer_ids ex
      end
  | line :: rest =>
      if announces_layer line then
        match id line with
        | Some i => consume_all (fs_layer_ids +:+ i) rest e
        | None => Raised fs_layer_ids TypeError
        end
      else consume_all fs_layer_ids rest e
  end.

Definition newline : ascii := "010"%char.

(** [re.match(".*" + pat, s)]: [pat] after any characters of the same line. *)
Fixpoint later_on_line (pat s : string) : bool :=
  String.prefix pat s
  || match s with
     | EmptyString => false
     | String c s' =>
         if Ascii.eqb c newline then false else later_on_line pat s'
     end.

(** The rest of a string from position [k] on. *)
Fixpoint skip (k : nat) (s : string) : string :=
  match k, s with
  | O, _ => s
  | S k', String _ s' => skip k' s'
  | S _, EmptyString => EmptyString
  end.

(** [re.search("manifest.*not found", s)] *)
Fixpoint manifest_not_found (s : string) : bool :=
  (String.prefix "manifest" s && later_on_line "not found" (skip 8 s))
  || match s with
     | EmptyString => false
     | String _ s' => manifest_not_found s'
     end.

(** The branch of the handler of lines 71-92 that an [APIError] takes. *)
Inductive branch : Type :=
| RequiresCheckout
| FailedMisc
| IncompatiblePlatform
| FailedManifest
| LoggedOnly.

Definition handler (msg : string) : branch :=
  if contains "pull access denied" msg then RequiresCheckout
  else if negb (manifest_not_found msg) then FailedMisc
  else if manifest_not_found msg then
    if contains "mcr.microsoft.com" msg then IncompatiblePlatform
    else FailedManifest
  else LoggedOnly.

Definition download_image (pull : Pull) : result string :=
  match consume_all "" (lines pull) (ending pull) with
  | Retrieved fs => Return fs
  | Exhausted fs => Return fs
  | Raised fs (APIError msg) =>
      match handler msg with
      | RequiresCheckout | IncompatiblePlatform | LoggedOnly => Return fs
      | FailedMisc | FailedManifest => Raise (APIError msg)
      end
  | Raised fs ex => Raise ex
  end.

End Analyzer.

(** ** The parent of an analysed image: the retrieval of main.py *)

Module Main.
Import Resolver.

(** What the retrieval does to the outside: a call of [get_image_parent] on
    a type of database, or a pause. *)
Inductive parent_effect : Type :=
| Lookup (db_type : string)
| Sleep (seconds : nat).

(** The variables of lines 564-636: [image_parent], [image_parent_dict],
    [is_retrieved]; the number of lookups made so far and the effects are
    kept beside them. *)
Record Retrieval : Type := mkRetrieval {
  image_parent      : string;
  image_parent_dict : answer;
  is_retrieved      : bool;
  lookups           : nat;
  trace             : list parent_effect
}.

(** [retrials = 3] and [retrials_wait_time = 30] *)
Definition retrials : nat := 3.
Definition retrials_wait_time : nat := 30.

(** The body of a [try]:
    [image_parent_dict = dockerhub_api.get_image_parent(.., db_type)] and
    [if image_parent_dict: image_parent = name + ":" + tag].  [storage k] is
    what the files hold at the lookup number [k]; the boolean tells whether
    the body ended without an exception. *)
Definition lookup (storage : nat -> Storage) (name image_layers db_type : string)
    (s : Retrieval) : Retrieval * bool :=
  match get_image_parent (storage (lookups s)) name image_layers db_type with
  | Raise _ =>
      (mkRetrieval (image_parent s) (image_parent_dict s) (is_retrieved s)
                   (lookups s + 1) (trace s ++ [Lookup db_type]),
       false)
  | Return a =>
      (mkRetrieval
         (match a with
          | ParentDict (Some p) => Resolver.name p +:+ ":" +:+ tag p
          | _ => image_parent s
          end)
         a (is_retrieved s) (lookups s + 1) (trace s ++ [Lookup db_type]),
       true)
  end.

Definition retrieved (s : Retrieval) : Retrieval :=
  mkRetrieval (image_parent s) (image_parent_dict s) true (lookups s) (trace s).

Definition pause (s : Retrieval) : Retrieval :=
  mkRetrieval (image_parent s) (image_parent_dict s) (is_retrieved s)
              (lookups s) (trace s ++ [Sleep retrials_wait_time]).

(** [for retrial in range(1, retrials + 1): time.sleep(..); try: ..
     except: continue; else: is_retrieved = True; break] *)
Fixpoint retry (storage : nat -> Storage) (name image_layers db_type : string)
    (todo : list nat) (s : Retrieval) : Retrieval :=
  match todo with
  | [] => s
  | _ :: rest =>
      match lookup storage name image_layers db_type (pause s) with
      | (s', true) => retrieved s'
      | (s', false) => retry storage name image_layers db_type rest s'
      end
  end.

(** One [try: .. is_retrieved = True; except: <retry loop>] block. *)
Definition consult (storage : nat -> Storage) (name image_layers db_type : string)
    (s : Retrieval) : Retrieval :=
  match lookup storage name image_layers db_type s with
  | (s', true) => retrieved s'
  | (s', false) =>
      retry storage name image_layers db_type (seq 1 retrials) s'
  end.

(** Lines 564-638.  The condition of line 605 reads, with the precedence of
    [and] over [or]: [(not is_retrieved and experiment_type == "verified")
    or experiment_type == "certified"]. *)
Definition retrieve_parent (storage : nat -> Storage)
    (name image_layers experiment_type : string) : Retrieval :=
  let s := mkRetrieval "" (ParentDict None) false 0 [] in
  if String.eqb image_layers "" then s
  else
    let s := consult storage name image_layers "official" s in
    if (negb (is_retrieved s) && String.eqb experiment_type "verified")
       || String.eqb experiment_type "certified"
    then consult storage name image_layers "verified" s
    else s.

End Main.

(** ** The download of one image by the downloading thread of main.py *)

Module Downloader.
Import Extractor Analyzer.

Inductive download_effect : Type :=
| Download (attempt : nat)
| Wait (seconds : nat).

(** The global [downloaded_image_layers], a dict from image name to layers,
    and the effects so far. *)
Record Downloads : Type := mkDownloads {
  downloaded_image_layers : gmap string string;
  done                    : list download_effect
}.

(** [retrials = 3] and [retrials_wait_time = 30] *)
Definition retrials : nat := 3.
Definition retrials_wait_time : nat := 30.

(** The loop of the handler, lines 219-230: the result of a retried
    [download_image] is not kept. *)
Fixpoint retry_download (pulls : nat -> Pull) (todo : list nat) (d : Downloads)
  : Downloads :=
  match todo with
  | [] => d
  | retrial :: rest =>
      let d := mkDownloads (downloaded_image_layers d)
                           (done d ++ [Wait retrials_wait_time;
                                       Download (retrial + 1)]) in
      match download_image (pulls (retrial + 1)) with
      | Raise _ => retry_download pulls rest d
      | Return _ => d
      end
  end.

(** Lines 210-230: [pulls k] is what the registry answers to the download
    number [k] of the image. *)
Definition download (name : string) (pulls : nat -> Pull) (d : Downloads)
  : Downloads :=
  let d := mkDownloads (downloaded_image_layers d) (done d ++ [Download 1]) in
  match download_image (pulls 1) with
  | Return image_layers =>
      mkDownloads (<[name := image_layers]> (downloaded_image_layers d)) (done d)
  | Raise _ => retry_download pulls (seq 1 retrials) d
  end.

(** [image_layers = downloaded_image_layers.get(name)], as the analysis
    reads it; a missing entry is as false as empty layers. *)
Definition recorded_layers (d : Downloads) (name : string) : string :=
  default "" (downloaded_image_layers d !! name).

End Downloader.

(** ** Facts about the resolver *)

Module ResolverFacts.
Import Resolver.

(** *** Strings: slices and their concatenation *)

Lemma substring_0_0 (s : string) : substring 0 0 s = "".
Proof. destruct s; reflexivity. Qed.

Lemma substring_skip (a b : nat) (s : string) :
  substring 0 a s +:+ substring a b s = substring 0 (a + b) s.
Proof.
  revert s; induction a as [|a IH]; intros s.
  - rewrite substring_0_0. reflexivity.
  - destruct s as [|c s]; simpl.
    + destruct b; reflexivity.
    + rewrite <- IH. reflexivity.
Qed.

Lemma length_substring_0 (n : nat) (s : string) :
  String.length (substring 0 n s) = Nat.min n (String.length s).
Proof.
  revert s; induction n as [|n IH]; intros s.
  - rewrite substring_0_0. reflexivity.
  - destruct s as [|c s]; simpl; [reflexivity|]. f_equal. apply IH.
Qed.

Lemma substring_0_all (n : nat) (s : string) :
  String.length s <= n -> substring 0 n s = s.
Proof.
  revert s; induction n as [|n IH]; intros s Hlen.
  - destruct s; simpl in *; [reflexivity | lia].
  - destruct s as [|c s]; simpl in *; [reflexivity|]. f_equal. apply IH. lia.
Qed.

Lemma substring_0_idem (n : nat) (s : string) :
  substring 0 (String.length (substring 0 n s)) s = substring 0 n s.
Proof.
  revert s; induction n as [|n IH]; intros s.
  - rewrite substring_0_0. simpl. apply substring_0_0.
  - destruct s as [|c s]; simpl; [reflexivity|]. f_equal. apply IH.
Qed.

(** *** The prefixes the walk compares are the token-aligned ones *)

Lemma prefixes_from (image_layers : string) (m i : nat) :
  prefixes
    (map (fun id => substring id image_id_length image_layers)
         (map (fun k => k * image_id_length) (seq i m)))
    (substring 0 (i * image_id_length) image_layers)
  = map (fun k => substring 0 (k * image_id_length) image_layers) (seq (S i) m).
Proof.
  revert i; induction m as [|m IH]; intros i; [reflexivity|].
  cbn [seq map prefixes].
  rewrite substring_skip.
  replace (i * image_id_length + image_id_length) with (S i * image_id_length)
    by (unfold image_id_length; lia).
  f_equal. apply IH.
Qed.

Lemma prefixes_split_layers (image_layers : string) :
  prefixes (split_layers image_layers) "" = aligned_prefixes image_layers.
Proof.
  unfold split_layers, range_step, aligned_prefixes.
  rewrite <- (substring_0_0 image_layers) at 1.
  apply (prefixes_from image_layers _ 0).
Qed.

Lemma aligned_prefix_is_slice (image_layers p : string) :
  In p (aligned_prefixes image_layers) ->
  p = substring 0 (String.length p) image_layers.
Proof.
  unfold aligned_prefixes. rewrite in_map_iff. intros (k & <- & _).
  symmetry. apply substring_0_idem.
Qed.

Lemma aligned_prefixes_increasing_from (image_layers : string) (m i : nat) :
  (i + m) * image_id_length < String.length image_layers + 2 * image_id_length ->
  forall pre p post,
    map (fun k => substring 0 (k * image_id_length) image_layers) (seq i m)
      = pre ++ p :: post ->
    forall q, In q pre -> String.length q < String.length p.
Proof.
  revert i; induction m as [|m IH]; intros i Hbound pre p post Heq q Hq.
  - destruct pre; discriminate.
  - cbn [seq map] in Heq. destruct pre as [|x pre]; [destruct Hq|].
    injection Heq as Hx Hrest. destruct Hq as [<- | Hq].
    + assert (Hp : In p (map (fun k => substring 0 (k * image_id_length) image_layers)
                               (seq (S i) m)))
        by (rewrite Hrest; apply in_elt).
      apply in_map_iff in Hp as (k & <- & Hk). apply in_seq in Hk.
      subst x. rewrite !length_substring_0.
      unfold image_id_length in *. lia.
    + eapply (IH (S i)); eauto. lia.
Qed.

(** The prefixes are examined in strictly increasing length. *)
Lemma aligned_prefixes_increasing (image_layers : string) pre p post :
  aligned_prefixes image_layers = pre ++ p :: post ->
  forall q, In q pre -> String.length q < String.length p.
Proof.
  apply aligned_prefixes_increasing_from.
  unfold image_id_length.
  pose proof (Nat.div_mod_eq (String.length image_layers + 12 - 1) 12) as Hdm.
  pose proof (Nat.mod_upper_bound (String.length image_layers + 12 - 1) 12).
  lia.
Qed.

Lemma aligned_prefixes_last (image_layers : string) :
  image_layers <> "" ->
  exists pre, aligned_prefixes image_layers = pre ++ [image_layers].
Proof.
  intros Hne. unfold aligned_prefixes.
  set (n := (String.length image_layers + image_id_length - 1) / image_id_length).
  assert (Hlen : 0 < String.length image_layers)
    by (destruct image_layers; [congruence | simpl; lia]).
  assert (Hn : (n - 1) * image_id_length < String.length image_layers
               /\ String.length image_layers <= n * image_id_length /\ 0 < n).
  { unfold n, image_id_length in *.
    pose proof (Nat.div_mod_eq (String.length image_layers + 12 - 1) 12) as Hdm.
    pose proof (Nat.mod_upper_bound (String.length image_layers + 12 - 1) 12).
    lia. }
  destruct Hn as (_ & Hhi & Hpos).
  clearbody n. destruct n as [|m]; [lia|].
  rewrite seq_S, map_app. cbn [map].
  eexists. f_equal. f_equal.
  apply substring_0_all. exact Hhi.
Qed.

(** *** The three loops, innermost first *)

Lemma matched_in_dec (p : string) (images : list ImageRecord) :
  {matched_in p images} + {~ matched_in p images}.
Proof.
  induction images as [|x l [IH|IH]].
  - right. intros (im & [] & _).
  - left. destruct IH as (im & Him & Hp). exists im. split; [right|]; assumption.
  - destruct (string_dec (fs_layers x) p) as [Hx|Hx].
    + left. exists x. split; [left; reflexivity | exact Hx].
    + right. intros (im & [<-|Him] & Hp); [congruence|].
      apply IH. exists im. split; assumption.
Qed.

Lemma matched_dec (base_db : ParentDb) (repositories : list string) (p : string) :
  {matched base_db repositories p} + {~ matched base_db repositories p}.
Proof.
  induction repositories as [|x l [IH|IH]].
  - right. intros (r & [] & _).
  - left. destruct IH as (r & Hr & Hm). exists r. split; [right|]; assumption.
  - destruct (matched_in_dec p (db_get base_db x)) as [Hx|Hx].
    + left. exists x. split; [left; reflexivity | exact Hx].
    + right. intros (r & [<-|Hr] & Hm); [contradiction|].
      apply IH. exists r. split; assumption.
Qed.

Lemma scan_images_snoc p repo images image parent :
  scan_images p repo (images ++ [image]) parent
  = if String.eqb p (fs_layers image)
    then Some (mkParent repo (image_tag image))
    else scan_images p repo images parent.
Proof. unfold scan_images. rewrite fold_left_app. reflexivity. Qed.

Lemma scan_images_no_match p repo images parent :
  ~ matched_in p images -> scan_images p repo images parent = parent.
Proof.
  induction images as [|x l IH] using rev_ind; intros Hno; [reflexivity|].
  rewrite scan_images_snoc.
  destruct (String.eqb_spec p (fs_layers x)) as [Heq|Hne].
  - exfalso. apply Hno. exists x. split; [apply in_elt | congruence].
  - apply IH. intros (im & Him & Hp). apply Hno. exists im.
    split; [apply in_or_app; left; exact Him | exact Hp].
Qed.

Lemma scan_images_match p repo images parent :
  matched_in p images ->
  exists image, In image images /\ fs_layers image = p /\
    scan_images p repo images parent = Some (mkParent repo (image_tag image)).
Proof.
  induction images as [|x l IH] using rev_ind; intros (im & Him & Hp).
  - destruct Him.
  - rewrite scan_images_snoc.
    destruct (String.eqb_spec p (fs_layers x)) as [Heq|Hne].
    + exists x. split; [apply in_elt|]. split; [congruence | reflexivity].
    + apply in_app_or in Him as [Him | [<- | []]]; [|congruence].
      destruct IH as (im' & Him' & Hp' & Hscan); [exists im; split; assumption|].
      exists im'. split; [apply in_or_app; left; exact Him'|]. split; assumption.
Qed.

Lemma scan_repositories_app base_db l1 l2 p parent :
  scan_repositories base_db (l1 ++ l2) p parent
  = scan_repositories base_db l2 p (scan_repositories base_db l1 p parent).
Proof. unfold scan_repositories. apply fold_left_app. Qed.

Lemma scan_repositories_no_match base_db repositories p parent :
  ~ matched base_db repositories p ->
  scan_repositories base_db repositories p parent = parent.
Proof.
  revert parent; induction repositories as [|x l IH]; intros parent Hno;
    [reflexivity|].
  change (scan_repositories base_db (x :: l) p parent)
    with (scan_repositories base_db l p
            (scan_images p x (db_get base_db x) parent)).
  rewrite scan_images_no_match.
  - apply IH. intros (r & Hr & Hm). apply Hno. exists r. split; [right|]; assumption.
  - intros Hm. apply Hno. exists x. split; [left; reflexivity | exact Hm].
Qed.

(** Once a record of the list matches, the incoming answer is overwritten. *)
Lemma scan_images_overwrites p repo images q q' :
  matched_in p images ->
  scan_images p repo images q = scan_images p repo images q'.
Proof.
  induction images as [|x l IH] using rev_ind; intros (im0 & Him0 & Hp0).
  - destruct Him0.
  - rewrite !scan_images_snoc.
    destruct (String.eqb_spec p (fs_layers x)) as [Heq|Hne]; [reflexivity|].
    apply IH. apply in_app_or in Him0 as [H | [<- | []]]; [|congruence].
    exists im0. split; assumption.
Qed.

(** The last repository of the scan that holds a match decides. *)
Lemma scan_repositories_last base_db pre repo post p parent :
  matched_in p (db_get base_db repo) ->
  ~ matched base_db post p ->
  scan_repositories base_db (pre ++ repo :: post) p parent
  = scan_images p repo (db_get base_db repo) None.
Proof.
  intros Hm Hpost.
  rewrite scan_repositories_app.
  change (scan_repositories base_db (repo :: post) p ?q)
    with (scan_repositories base_db post p
            (scan_images p repo (db_get base_db repo) q)).
  rewrite scan_repositories_no_match by exact Hpost.
  apply scan_images_overwrites. exact Hm.
Qed.

(** Any scan that finds a match ends on a matching record of the scan. *)
Lemma scan_repositories_match base_db repositories p parent :
  matched base_db repositories p ->
  exists pre repo post image,
    repositories = pre ++ repo :: post /\
    (~ matched base_db post p) /\
    In image (db_get base_db repo) /\ fs_layers image = p /\
    (scan_repositories base_db repositories p parent
     = Some (mkParent repo (image_tag image))).
Proof.
  induction repositories as [|x l IH] using rev_ind; intros (r & Hr & Hm).
  - destruct Hr.
  - destruct (matched_in_dec p (db_get base_db x)) as [Hx|Hx].
    + destruct (scan_images_match p x _ None Hx) as (im & Him & Hp & Hscan).
      exists l, x, [], im. split; [reflexivity|].
      split; [intros (r' & [] & _)|]. split; [exact Him|]. split; [exact Hp|].
      rewrite scan_repositories_last; [exact Hscan | exact Hx |].
      intros (r' & [] & _).
    + apply in_app_or in Hr as [Hr | [<- | []]]; [|contradiction].
      destruct IH as (pre & repo & post & im & -> & Hpost & Him & Hp & Hscan);
        [exists r; split; assumption|].
      exists pre, repo, (post ++ [x]), im.
      split; [rewrite <- app_assoc; reflexivity|].
      split.
      { intros (r' & Hr' & Hm').
        apply in_app_or in Hr' as [Hr' | [<- | []]]; [|contradiction].
        apply Hpost. exists r'. split; assumption. }
      split; [exact Him|]. split; [exact Hp|].
      rewrite scan_repositories_app.
      change (scan_repositories base_db [x] p ?q)
        with (scan_images p x (db_get base_db x) q).
      rewrite scan_images_no_match by exact Hx. apply Hscan.
Qed.

(** The walk is a fold of the repository scan over the growing prefixes. *)
Lemma walk_is_fold base_db repositories image_ids current_layers parent :
  walk base_db repositories image_ids current_layers parent
  = walk_prefixes base_db repositories (prefixes image_ids current_layers) parent.
Proof.
  revert current_layers parent.
  induction image_ids as [|x l IH]; intros cur parent; [reflexivity|].
  cbn [walk prefixes]. rewrite IH. reflexivity.
Qed.

Lemma walk_prefixes_app base_db repositories l1 l2 parent :
  walk_prefixes base_db repositories (l1 ++ l2) parent
  = walk_prefixes base_db repositories l2
      (walk_prefixes base_db repositories l1 parent).
Proof. unfold walk_prefixes. apply fold_left_app. Qed.

Lemma walk_prefixes_cons base_db repositories p l parent :
  walk_prefixes base_db repositories (p :: l) parent
  = walk_prefixes base_db repositories l
      (scan_repositories base_db repositories p parent).
Proof. reflexivity. Qed.

Lemma walk_prefixes_no_match base_db repositories ps parent :
  (forall p, In p ps -> ~ matched base_db repositories p) ->
  walk_prefixes base_db repositories ps parent = parent.
Proof.
  revert parent; induction ps as [|p l IH]; intros parent Hno; [reflexivity|].
  rewrite walk_prefixes_cons.
  rewrite scan_repositories_no_match by (apply Hno; left; reflexivity).
  apply IH. intros q Hq. apply Hno. right. exact Hq.
Qed.

(** The last prefix of the walk that has a match decides. *)
Lemma walk_prefixes_last base_db repositories pre p post parent :
  matched base_db repositories p ->
  (forall q, In q post -> ~ matched base_db repositories q) ->
  walk_prefixes base_db repositories (pre ++ p :: post) parent
  = scan_repositories base_db repositories p None.
Proof.
  intros Hm Hpost. rewrite walk_prefixes_app, walk_prefixes_cons.
  rewrite walk_prefixes_no_match by exact Hpost.
  destruct (scan_repositories_match base_db repositories p None Hm)
    as (rpre & repo & rpost & im & -> & Hrpost & Him & Hp & _).
  rewrite !scan_repositories_last; try assumption; try reflexivity;
    exists im; split; assumption.
Qed.

Lemma walk_prefixes_match base_db repositories ps :
  (exists p, In p ps /\ matched base_db repositories p) ->
  exists pre p post,
    ps = pre ++ p :: post /\ matched base_db repositories p /\
    (forall q, In q post -> ~ matched base_db repositories q).
Proof.
  induction ps as [|x l IH] using rev_ind; intros (p & Hp & Hm).
  - destruct Hp.
  - destruct (matched_dec base_db repositories x) as [Hx|Hx].
    + exists l, x, []. split; [reflexivity|]. split; [exact Hx|]. intros q [].
    + apply in_app_or in Hp as [Hp | [<- | []]]; [|contradiction].
      destruct IH as (pre & p' & post & -> & Hm' & Hpost);
        [exists p; split; assumption|].
      exists pre, p', (post ++ [x]).
      split; [rewrite <- app_assoc; reflexivity|]. split; [exact Hm'|].
      intros q Hq. apply in_app_or in Hq as [Hq | [<- | []]]; [|exact Hx].
      apply Hpost. exact Hq.
Qed.

(** *** The candidate repositories *)

Lemma db_get_key (db : ParentDb) (k : string) :
  In k (keys db) -> exists images, In (k, images) db /\ db_get db k = images.
Proof.
  induction db as [|[k' images] db IH]; intros Hk; [destruct Hk|].
  simpl. destruct (String.eqb_spec k' k) as [->|Hne].
  - exists images. split; [left; reflexivity | reflexivity].
  - destruct Hk as [Hk|Hk]; [simpl in Hk; congruence|].
    destruct (IH Hk) as (im & Him & Hget). exists im. split; [right|]; assumption.
Qed.

Lemma index_of_None (x : string) (l : list string) :
  index_of x l = None -> ~ In x l.
Proof.
  induction l as [|y l IH]; simpl; [tauto|].
  destruct (String.eqb_spec y x) as [->|Hne]; [discriminate|].
  destruct (index_of x l); [discriminate|]. intros _ [H|H]; [congruence | tauto].
Qed.

Lemma index_of_Some (x : string) (l : list string) (i : nat) :
  index_of x l = Some i ->
  l = firstn i l ++ x :: skipn (i + 1) l /\ ~ In x (firstn i l).
Proof.
  revert i; induction l as [|y l IH]; intros i; simpl; [discriminate|].
  destruct (String.eqb_spec y x) as [->|Hne].
  - intros [= <-]. simpl. split; [reflexivity | tauto].
  - destruct (index_of x l) as [j|] eqn:Hj; [|discriminate].
    intros [= <-]. destruct (IH j eq_refl) as [Hl Hnot]. simpl.
    split; [f_equal; exact Hl|]. intros [H|H]; [congruence | tauto].
Qed.

Lemma candidate_repositories_in (db : ParentDb) (r repo : string) :
  List.NoDup (keys db) ->
  In repo (candidate_repositories db r) <-> In repo (keys db) /\ repo <> r.
Proof.
  intros Hnd. unfold candidate_repositories.
  destruct (index_of r (keys db)) as [i|] eqn:Hi.
  - destruct (index_of_Some _ _ _ Hi) as [Hl Hnot].
    rewrite Hl in Hnd. apply NoDup_remove in Hnd as [_ Hr].
    rewrite Hl at 3. rewrite !in_app_iff. simpl. rewrite in_app_iff in Hr.
    split.
    + intros H. split; [tauto|]. intros ->. tauto.
    + intros [[H|[H|H]] Hne]; [tauto | congruence | tauto].
  - apply index_of_None in Hi. split; [|tauto].
    intros H. split; [exact H|]. intros ->. contradiction.
Qed.

Lemma candidate_repositories_NoDup (db : ParentDb) (r : string) :
  List.NoDup (keys db) -> List.NoDup (candidate_repositories db r).
Proof.
  intros Hnd. unfold candidate_repositories.
  destruct (index_of r (keys db)) as [i|] eqn:Hi; [|exact Hnd].
  destruct (index_of_Some _ _ _ Hi) as [Hl _].
  rewrite Hl in Hnd. apply NoDup_remove in Hnd as [Hnd _]. exact Hnd.
Qed.

Lemma matched_candidates (db : ParentDb) (r p : string) :
  List.NoDup (keys db) ->
  matched db (candidate_repositories db r) p <->
  exists repo image, candidate db r repo image /\ fs_layers image = p.
Proof.
  intros Hnd. unfold matched, matched_in, candidate. split.
  - intros (repo & Hrepo & im & Him & Hp).
    apply candidate_repositories_in in Hrepo as [Hk Hne]; [|exact Hnd].
    exists repo, im. tauto.
  - intros (repo & im & (Hk & Hne & Him) & Hp).
    exists repo. split; [apply candidate_repositories_in; tauto|].
    exists im. tauto.
Qed.

(** [get_image_parent] on a database that loads is [resolve_parent]; on a file
    that cannot be opened it raises [IOError]; for another database type it
    returns the empty string. *)
Lemma get_image_parent_loaded (db : ParentDb) (other : load_result)
    (r L : string) :
  get_image_parent (mkStorage (Loaded db) other) r L "official"
    = Return (ParentDict (resolve_parent r L db)) /\
  get_image_parent (mkStorage other (Loaded db)) r L "verified"
    = Return (ParentDict (resolve_parent r L db)).
Proof. split; reflexivity. Qed.

Lemma get_image_parent_unreadable (st : Storage) (r L : string) :
  official_db st = LoadIOError ->
  get_image_parent st r L "official" = Raise IOError.
Proof. intros H. unfold get_image_parent. simpl. rewrite H. reflexivity. Qed.

Lemma get_image_parent_other_type (st : Storage) (r L : string) :
  get_image_parent st r L "community" = Return EmptyStr.
Proof. reflexivity. Qed.

(** The resolver, through the characterisation of its loops. *)
Lemma resolve_parent_unfold (db : ParentDb) (r L : string) :
  resolve_parent r L db
  = walk_prefixes db (candidate_repositories db r) (aligned_prefixes L) None.
Proof.
  unfold resolve_parent. rewrite walk_is_fold, prefixes_split_layers. reflexivity.
Qed.

Lemma resolve_parent_None (db : ParentDb) (r L : string) :
  List.NoDup (keys db) ->
  resolve_parent r L db = None <->
  (forall repo image, candidate db r repo image ->
     ~ In (fs_layers image) (aligned_prefixes L)).
Proof.
  intros Hnd. rewrite resolve_parent_unfold. split.
  - intros Hnone repo im Hc Hin.
    destruct (walk_prefixes_match db (candidate_repositories db r)
                (aligned_prefixes L)) as (pre & p & post & Heq & Hm & Hpost).
    { exists (fs_layers im). split; [exact Hin|].
      apply matched_candidates; [exact Hnd|]. exists repo, im. tauto. }
    rewrite Heq, walk_prefixes_last in Hnone by assumption.
    destruct (scan_repositories_match _ _ _ None Hm)
      as (? & ? & ? & ? & _ & _ & _ & _ & Hs).
    congruence.
  - intros Hno. apply walk_prefixes_no_match. intros p Hp Hm.
    apply matched_candidates in Hm as (repo & im & Hc & <-); [|exact Hnd].
    exact (Hno repo im Hc Hp).
Qed.

Lemma matched_any_dec (db : ParentDb) (repositories ps : list string) :
  {exists p, In p ps /\ matched db repositories p}
  + {forall p, In p ps -> ~ matched db repositories p}.
Proof.
  induction ps as [|x l [IH|IH]].
  - right. intros p [].
  - left. destruct IH as (p & Hp & Hm). exists p. split; [right|]; assumption.
  - destruct (matched_dec db repositories x) as [Hx|Hx].
    + left. exists x. split; [left; reflexivity | exact Hx].
    + right. intros p [<-|Hp]; [exact Hx | apply IH; exact Hp].
Qed.

Lemma resolve_parent_Some (db : ParentDb) (r L : string) (parent : Parent) :
  List.NoDup (keys db) ->
  resolve_parent r L db = Some parent ->
  exists image,
    candidate db r (name parent) image /\ image_tag image = tag parent /\
    longest_match db r L image.
Proof.
  intros Hnd. rewrite resolve_parent_unfold. intros Hres.
  destruct (matched_any_dec db (candidate_repositories db r) (aligned_prefixes L))
    as [Hex|Hno].
  2:{ rewrite walk_prefixes_no_match in Hres by exact Hno. discriminate. }
  destruct (walk_prefixes_match _ _ _ Hex) as (pre & p & post & Heq & Hm & Hpost).
  rewrite Heq, walk_prefixes_last in Hres by assumption.
  destruct (scan_repositories_match _ _ _ None Hm)
    as (rpre & repo & rpost & im & Hr & _ & Him & Hp & Hs).
  rewrite Hs in Hres. injection Hres as <-. simpl.
  exists im. split.
  { assert (Hin : In repo (candidate_repositories db r))
      by (rewrite Hr; apply in_elt).
    apply candidate_repositories_in in Hin as [? ?]; [|exact Hnd].
    unfold candidate. tauto. }
  split; [reflexivity|].
  split; [rewrite Hp, Heq; apply in_elt|].
  intros repo' im' Hc' Hin'. rewrite Hp.
  rewrite Heq in Hin'. apply in_app_or in Hin' as [Hin'|[Hin'|Hin']].
  - apply Nat.lt_le_incl. eapply aligned_prefixes_increasing; eauto.
  - rewrite Hin'. apply Nat.le_refl.
  - exfalso. apply (Hpost _ Hin'). apply matched_candidates; [exact Hnd|].
    exists repo', im'. tauto.
Qed.

(** The nested loops make exactly the comparisons of [comparisons], in that
    order, and each match overwrites the answer. *)
Lemma walk_comparisons (db : ParentDb) (repositories image_ids : list string)
    (parent : option Parent) :
  walk db repositories image_ids "" parent
  = fold_left
      (fun parent '(current_layers, repo, image) =>
         if String.eqb current_layers (fs_layers image)
         then Some (mkParent repo (image_tag image))
         else parent)
      (comparisons db repositories image_ids) parent.
Proof.
  rewrite walk_is_fold. unfold comparisons, walk_prefixes.
  generalize (prefixes image_ids "") as ps. intros ps. revert parent.
  induction ps as [|p ps IHp]; intros parent; [reflexivity|].
  cbn [fold_left flat_map]. rewrite fold_left_app, IHp. f_equal.
  unfold scan_repositories. clear IHp. revert parent.
  induction repositories as [|x l IHr]; intros parent; [reflexivity|].
  cbn [fold_left flat_map]. rewrite fold_left_app, IHr. f_equal.
  unfold scan_images. generalize (db_get db x) as images. intros images.
  revert parent. induction images as [|im images IHi]; intros parent;
    [reflexivity|].
  cbn [fold_left map]. apply IHi.
Qed.

(** C1 (amended). On a database with unique keys and a non-empty target,
    [get_image_parent] scans the candidate repositories once for each
    token-aligned prefix of the target, taken in strictly increasing length,
    the last being the target itself; an answer
    names a record of a repository other than the owner whose layers are the
    longest token-aligned prefix that any candidate record carries; the answer
    is empty exactly when no candidate record carries a token-aligned prefix.
    In particular, when records [A] and [B] lie in different candidate
    repositories, [A]'s layers are a strict prefix of [B]'s, [B]'s layers are
    a token-aligned prefix of the target, and every candidate record outside
    [B]'s repository that carries a token-aligned prefix is shorter than
    [B]'s layers, then [B]'s owner is returned, not [A]'s. *)
Theorem resolve_parent_longest_prefix (db : ParentDb) (r L : string) :
  List.NoDup (keys db) ->
  L <> "" ->
  prefixes (split_layers L) "" = aligned_prefixes L /\
  resolve_parent r L db
    = walk_prefixes db (candidate_repositories db r) (aligned_prefixes L) None /\
  (exists pre, aligned_prefixes L = pre ++ [L]) /\
  (forall pre p post q, aligned_prefixes L = pre ++ p :: post ->
     In q pre -> String.length q < String.length p) /\
  (forall parent, resolve_parent r L db = Some parent ->
     exists image,
       candidate db r (name parent) image /\ image_tag image = tag parent /\
       longest_match db r L image) /\
  (resolve_parent r L db = None <->
     forall repo image, candidate db r repo image ->
       ~ In (fs_layers image) (aligned_prefixes L)) /\
  (forall repoA repoB A B,
     candidate db r repoA A -> candidate db r repoB B -> repoA <> repoB ->
     String.prefix (fs_layers A) (fs_layers B) = true ->
     fs_layers A <> fs_layers B ->
     In (fs_layers B) (aligned_prefixes L) ->
     (forall repo' image', candidate db r repo' image' ->
        In (fs_layers image') (aligned_prefixes L) -> repo' <> repoB ->
        String.length (fs_layers image') < String.length (fs_layers B)) ->
     exists parent,
       resolve_parent r L db = Some parent /\
       name parent = repoB /\ name parent <> repoA).
Proof.
  intros Hnd HL.
  split; [apply prefixes_split_layers|].
  split; [apply resolve_parent_unfold|].
  split; [apply aligned_prefixes_last; exact HL|].
  split; [intros pre p post q Heq Hq; eapply aligned_prefixes_increasing; eauto|].
  split; [intros parent; apply resolve_parent_Some; exact Hnd|].
  split; [apply resolve_parent_None; exact Hnd|].
  intros repoA repoB A B HA HB Hdiff _ _ HBin Hothers.
  destruct (resolve_parent r L db) as [parent|] eqn:Hres.
  - exists parent. split; [reflexivity|].
    destruct (resolve_parent_Some db r L parent Hnd Hres)
      as (im & Hc & _ & _ & Hmax).
    assert (Hname : name parent = repoB).
    { destruct (string_dec (name parent) repoB) as [Heq|Hne]; [exact Heq|].
      exfalso.
      destruct (resolve_parent_Some db r L parent Hnd Hres)
        as (im' & Hc' & _ & Hin' & Hmax').
      pose proof (Hothers _ _ Hc' Hin' Hne) as Hlt.
      pose proof (Hmax' _ _ HB HBin) as Hle. lia. }
    split; [exact Hname | congruence].
  - exfalso.
    exact (proj1 (resolve_parent_None db r L Hnd) Hres _ _ HB HBin).
Qed.

(** C8 (amended). When two candidate repositories, [R1] scanned before [R2],
    each hold a record whose layers equal the same token-aligned prefix of the
    target, no candidate record carries a longer one, and no candidate
    repository scanned after [R2] carries this one, the answer names [R2], the
    later of the two, with the tag of a record of [R2] that carries these
    layers: the match met last in the scan overwrites the earlier ones. *)
Theorem resolve_parent_tie_later_wins (db : ParentDb) (r L R1 R2 : string)
    (a b : ImageRecord) (l1 l2 l3 : list string) :
  List.NoDup (keys db) ->
  candidate_repositories db r = l1 ++ R1 :: l2 ++ R2 :: l3 ->
  In a (db_get db R1) -> In b (db_get db R2) ->
  fs_layers a = fs_layers b ->
  In (fs_layers a) (aligned_prefixes L) ->
  (forall repo image, candidate db r repo image ->
     In (fs_layers image) (aligned_prefixes L) ->
     String.length (fs_layers image) <= String.length (fs_layers a)) ->
  (forall repo image, In repo l3 -> In image (db_get db repo) ->
     fs_layers image <> fs_layers a) ->
  exists image,
    In image (db_get db R2) /\ fs_layers image = fs_layers a /\
    resolve_parent r L db = Some (mkParent R2 (image_tag image)).
Proof.
  intros Hnd Hscan Ha Hb Hab Hin Hlongest Hafter.
  pose proof (candidate_repositories_NoDup db r Hnd) as Hcnd.
  assert (HR2 : In R2 (candidate_repositories db r)).
  { rewrite Hscan. apply in_or_app. right. right. apply in_elt. }
  assert (Hm : matched db (candidate_repositories db r) (fs_layers a)).
  { exists R2. split; [exact HR2|]. exists b. split; [exact Hb | congruence]. }
  destruct (walk_prefixes_match db (candidate_repositories db r)
              (aligned_prefixes L)) as (pre & p & post & Heq & Hmp & Hpost).
  { exists (fs_layers a). split; assumption. }
  assert (Hp : p = fs_layers a).
  { rewrite Heq in Hin. apply in_app_or in Hin as [Hpre|[Hhd|Htl]].
    - exfalso.
      pose proof (aligned_prefixes_increasing L pre p post Heq _ Hpre) as Hlt.
      apply matched_candidates in Hmp as (repo & im & Hc & Hl); [|exact Hnd].
      assert (Hle := Hlongest repo im Hc).
      rewrite Hl in Hle. specialize (Hle ltac:(rewrite Heq; apply in_elt)). lia.
    - exact Hhd.
    - exfalso. exact (Hpost _ Htl Hm). }
  subst p.
  assert (Hl3 : ~ matched db l3 (fs_layers a)).
  { intros (repo & Hrepo & im & Him & Hl). exact (Hafter repo im Hrepo Him Hl). }
  assert (Hmb : matched_in (fs_layers a) (db_get db R2))
    by (exists b; split; [exact Hb | congruence]).
  destruct (scan_images_match (fs_layers a) R2 _ None Hmb)
    as (im & Him & Hl & Hs).
  exists im. split; [exact Him|]. split; [exact Hl|].
  rewrite resolve_parent_unfold, Heq, walk_prefixes_last by assumption.
  rewrite Hscan.
  replace (l1 ++ R1 :: l2 ++ R2 :: l3)
    with ((l1 ++ R1 :: l2) ++ R2 :: l3)
    by (rewrite <- app_assoc; reflexivity).
  rewrite scan_repositories_last by assumption. exact Hs.
Qed.

(** C10. For every database and every owner, an empty target splits into no
    token, the walk makes no comparison, and the answer is the initial empty
    one, whichever of the two database types is asked. *)
Theorem get_image_parent_empty_target (db : ParentDb) (r : string)
    (other : load_result) :
  split_layers "" = [] /\
  comparisons db (candidate_repositories db r) (split_layers "") = [] /\
  resolve_parent r "" db = None /\
  get_image_parent (mkStorage (Loaded db) other) r "" "official"
    = Return (ParentDict None) /\
  get_image_parent (mkStorage other (Loaded db)) r "" "verified"
    = Return (ParentDict None).
Proof. repeat split; reflexivity. Qed.

(** *** Concrete runs *)

Import ResolverExamples.

Ltac solve_NoDup :=
  repeat (apply List.NoDup_cons; [simpl; intuition discriminate|]);
  apply List.NoDup_nil.

Example split_two : split_layers (t1 +:+ t2) = [t1; t2].
Proof. reflexivity. Qed.

Example split_ragged : split_layers (t1 +:+ "xyz") = [t1; "xyz"].
Proof. reflexivity. Qed.

Example candidates_without_owner :
  candidate_repositories db3 "beta" = ["alpha"; "gamma"].
Proof. reflexivity. Qed.

Example candidates_unknown_owner :
  candidate_repositories db3 "mine" = ["alpha"; "beta"; "gamma"].
Proof. reflexivity. Qed.

(** C1, the claim as stated fails: [recA] and [recB] lie in different
    candidate repositories, [recA]'s layers are a prefix of [recB]'s and both
    are prefixes of the target, yet the answer is the owner of the longer
    [recC], not [recB]'s. *)
Lemma resolve_parent_pair_not_returned :
  candidate db3 "mine" "alpha" recA /\
  candidate db3 "mine" "beta" recB /\
  String.prefix (fs_layers recA) (fs_layers recB) = true /\
  String.prefix (fs_layers recA) target4 = true /\
  String.prefix (fs_layers recB) target4 = true /\
  resolve_parent "mine" target4 db3 = Some (mkParent "gamma" "3") /\
  ~ (exists t, resolve_parent "mine" target4 db3 = Some (mkParent "beta" t)).
Proof.
  unfold candidate. simpl.
  repeat split; try reflexivity; try discriminate; auto.
  intros (t & Ht). vm_compute in Ht. discriminate.
Qed.

(** With equal layers (a prefix that is not strict) the later repository of
    the scan answers, whichever of the two records is called [B]. *)
Example resolve_parent_equal_layers :
  resolve_parent "mine" (t1 +:+ t2) db_tie = Some (mkParent "beta" "2").
Proof. reflexivity. Qed.

(** Layers that are prefixes of the target without being token-aligned are
    never compared equal: the illustration with three-character tokens has no
    parent under the twelve-character split. *)
Example resolve_parent_short_tokens :
  split_layers "aaabbbccc" = ["aaabbbccc"] /\
  resolve_parent "mine" "aaabbbccc" db_short = None.
Proof. split; reflexivity. Qed.

Lemma resolve_parent_longest_prefix_witness :
  List.NoDup (keys db3) /\ target4 <> "" /\
  exists parent,
    resolve_parent "mine" target4 db3 = Some parent /\
    name parent = "gamma" /\ name parent <> "beta".
Proof.
  assert (Hnd : List.NoDup (keys db3)) by (simpl; solve_NoDup).
  assert (HL : target4 <> "") by discriminate.
  split; [exact Hnd|]. split; [exact HL|].
  destruct (resolve_parent_longest_prefix db3 "mine" target4 Hnd HL)
    as (_ & _ & _ & _ & _ & _ & Hpair).
  apply (Hpair "beta" "gamma" recB recC).
  - unfold candidate. simpl. intuition discriminate.
  - unfold candidate. simpl. intuition discriminate.
  - discriminate.
  - reflexivity.
  - discriminate.
  - vm_compute. tauto.
  - intros repo' image' (Hk & _ & Him) _ Hne. simpl in Hk.
    destruct Hk as [<-|[<-|[<-|[]]]]; simpl in Him;
      destruct Him as [<-|[]]; simpl; try lia. congruence.
Defined.

Lemma resolve_parent_tie_later_wins_witness :
  exists image,
    In image (db_get db_tie "beta") /\ fs_layers image = t1 /\
    resolve_parent "mine" (t1 +:+ t2) db_tie
      = Some (mkParent "beta" (image_tag image)).
Proof.
  apply (resolve_parent_tie_later_wins db_tie "mine" (t1 +:+ t2) "alpha" "beta"
           (mkImage t1 "1" 10 10) (mkImage t1 "2" 20 20) [] [] []).
  - simpl. solve_NoDup.
  - reflexivity.
  - simpl. auto.
  - simpl. auto.
  - reflexivity.
  - vm_compute. tauto.
  - intros repo image (Hk & _ & Him) _. simpl in Hk.
    destruct Hk as [<-|[<-|[]]]; simpl in Him; destruct Him as [<-|[]];
      simpl; lia.
  - intros repo image [].
Defined.

(** C8, the claim as stated fails: ["alpha"] and ["beta"] each hold a record
    whose layers are the first token of the target, no candidate record
    carries a longer prefix, and ["beta"] is met second in the scan; but
    ["gamma"], met third, carries the same layers, and the answer names
    ["gamma"], not ["beta"]. *)
Lemma resolve_parent_tie_third_wins :
  candidate_repositories db_tie3 "mine" = ["alpha"; "beta"; "gamma"] /\
  candidate db_tie3 "mine" "alpha" (mkImage t1 "1" 10 10) /\
  candidate db_tie3 "mine" "beta" (mkImage t1 "2" 20 20) /\
  "alpha" <> "beta" /\
  In t1 (aligned_prefixes (t1 +:+ t2)) /\
  (forall repo image, candidate db_tie3 "mine" repo image ->
     In (fs_layers image) (aligned_prefixes (t1 +:+ t2)) ->
     String.length (fs_layers image) <= String.length t1) /\
  resolve_parent "mine" (t1 +:+ t2) db_tie3 = Some (mkParent "gamma" "3") /\
  ~ (exists t, resolve_parent "mine" (t1 +:+ t2) db_tie3
               = Some (mkParent "beta" t)).
Proof.
  split; [reflexivity|].
  split; [split; [simpl; tauto | split; [discriminate | simpl; tauto]]|].
  split; [split; [simpl; tauto | split; [discriminate | simpl; tauto]]|].
  split; [discriminate|].
  split; [vm_compute; tauto|].
  split.
  - intros repo image (Hk & _ & Him) _. simpl in Hk.
    destruct Hk as [<-|[<-|[<-|[]]]]; simpl in Him; destruct Him as [<-|[]];
      simpl; lia.
  - assert (Hres : resolve_parent "mine" (t1 +:+ t2) db_tie3
                   = Some (mkParent "gamma" "3")) by (vm_compute; reflexivity).
    split; [exact Hres|]. intros (t & Ht). rewrite Hres in Ht. discriminate Ht.
Qed.
End ResolverFacts.

(** ** Facts about the layer extractor *)

Module ExtractorFacts.
Import Extractor.

Lemma append_assoc (s t u : string) : (s +:+ t) +:+ u = s +:+ (t +:+ u).
Proof.
  induction s as [|c s IH]; [reflexivity|].
  change (String c ((s +:+ t) +:+ u) = String c (s +:+ (t +:+ u))).
  f_equal. exact IH.
Qed.

Lemma append_empty_r (s : string) : s +:+ "" = s.
Proof.
  induction s as [|c s IH]; [reflexivity|].
  change (String c (s +:+ "") = String c s). f_equal. exact IH.
Qed.

(** *** One attempt *)

Lemma step_line_passes name fs line :
  passes line ->
  step_line name fs line
  = NextLine (fs +:+ (if announces_layer line then default "" (id line) else "")).
Proof.
  unfold passes, step_line. destruct (announces_layer line).
  - destruct (id line); [reflexivity | congruence].
  - intros [-> ->]. rewrite append_empty_r. reflexivity.
Qed.

Lemma consume_passes name fs pre rest e :
  Forall passes pre ->
  consume name fs (pre ++ rest) e
  = consume name (fs +:+ layer_tokens pre) rest e.
Proof.
  intros Hpre. revert fs. induction Hpre as [|line pre Hline _ IH]; intros fs.
  - simpl. rewrite append_empty_r. reflexivity.
  - cbn [app consume layer_tokens]. rewrite step_line_passes by exact Hline.
    rewrite IH, append_assoc. reflexivity.
Qed.

Lemma step_line_download name fs line :
  starts_download line -> step_line name fs line = BreakRetrieved fs.
Proof.
  intros [Hs He]. unfold step_line, announces_layer, status_is in *.
  destruct (status line) as [s|]; [|discriminate].
  apply String.eqb_eq in Hs. subst s. simpl. rewrite He. reflexivity.
Qed.

(** The loop over the lines stops at the first line that starts the
    transfer, with one identifier added per layer announced before it. *)
Lemma consume_until_download name fs pre d post e :
  Forall passes pre -> starts_download d ->
  consume name fs (pre ++ d :: post) e = Retrieved (fs +:+ layer_tokens pre).
Proof.
  intros Hpre Hd. rewrite consume_passes by exact Hpre.
  cbn [consume]. rewrite step_line_download by exact Hd. reflexivity.
Qed.

(** The accumulator only ever grows at its end: an attempt entered with
    [fs] ends as the attempt entered with the empty string, with [fs] in
    front. *)
Lemma consume_prefix name fs ls e :
  consume name fs ls e = with_prefix fs (consume name "" ls e).
Proof.
  revert fs. induction ls as [|line ls IH]; intros fs.
  - simpl. destruct e; simpl; rewrite append_empty_r; reflexivity.
  - cbn [consume]. unfold step_line.
    destruct (announces_layer line).
    + destruct (id line) as [i|]; simpl.
      * change ("" +:+ i) with i. rewrite (IH (fs +:+ i)), (IH i).
        destruct (consume name "" ls e); simpl; rewrite append_assoc; reflexivity.
      * rewrite append_empty_r. reflexivity.
    + destruct (truthy (error line)).
      * destruct (is_incompatible name (default "" (error line))); simpl;
          rewrite append_empty_r; reflexivity.
      * destruct (status_is line "Downloading"); simpl.
        -- rewrite append_empty_r. reflexivity.
        -- apply IH.
Qed.

(** *** The retry loop *)

Lemma retry_loop_transient name pulls retrial rest fs done :
  fails_transiently name (pulls retrial) ->
  retry_loop name pulls (retrial :: rest) fs false done
  = retry_loop name pulls rest "" false
      (done ++ Pulls retrial :: if (retrial <? retrials - 1)%nat
                                then [Sleeps retrials_wait_time] else []).
Proof.
  intros (fs' & msg & Hc & Hplat & Hlogin).
  cbn [retry_loop]. rewrite consume_prefix, Hc. cbn [with_prefix].
  rewrite Hplat, Hlogin.
  destruct (retrial <? retrials - 1)%nat.
  - rewrite <- app_assoc. reflexivity.
  - reflexivity.
Qed.

Lemma retry_loop_transient_run name pulls k :
  forall start rest fs done,
    (forall j, start <= j < start + k -> fails_transiently name (pulls j)) ->
    0 < k ->
    retry_loop name pulls (seq start k ++ rest) fs false done
    = retry_loop name pulls rest "" false
        (done ++ flat_map
                   (fun j => Pulls j :: if (j <? retrials - 1)%nat
                                        then [Sleeps retrials_wait_time] else [])
                   (seq start k)).
Proof.
  induction k as [|k IH]; intros start rest fs done Hfail Hk; [lia|].
  cbn [seq app flat_map].
  rewrite retry_loop_transient by (apply Hfail; lia).
  destruct k as [|k].
  - simpl. rewrite app_nil_r. reflexivity.
  - rewrite IH; [|intros j Hj; apply Hfail; lia | lia].
    rewrite <- app_assoc. reflexivity.
Qed.

Lemma retry_loop_pulls name pulls todo :
  forall fs b done,
    count_pulls (effects (retry_loop name pulls todo fs b done))
    <= count_pulls done + List.length todo.
Proof.
  assert (Hsnoc : forall done e, count_pulls (done ++ [e]) <= S (count_pulls done)).
  { intros done e. unfold count_pulls. rewrite List.filter_app, List.length_app.
    destruct e; simpl; lia. }
  assert (Hsleep : forall done s, count_pulls (done ++ [Sleeps s]) = count_pulls done).
  { intros done s. unfold count_pulls. rewrite List.filter_app, List.length_app.
    simpl. lia. }
  induction todo as [|retrial rest IH]; intros fs b done.
  - simpl. lia.
  - cbn [retry_loop List.length]. destruct b; [simpl; lia|].
    pose proof (Hsnoc done (Pulls retrial)) as Hp.
    destruct (consume name fs (lines (pulls retrial)) (ending (pulls retrial)))
      as [x|x|x ex].
    + etransitivity; [apply IH|]. lia.
    + etransitivity; [apply IH|]. lia.
    + destruct ex; try (simpl; lia).
      destruct (contains incompatible_platform msg); [simpl; lia|].
      destruct (retrial <? retrials - 1)%nat.
      * etransitivity; [apply IH|]. rewrite Hsleep. lia.
      * etransitivity; [apply IH|]. lia.
Qed.


(** *** The claims *)

Import ExtractorExamples.

Lemma retry_loop_retrieved name pulls todo fs done :
  retry_loop name pulls todo fs true done = mkRun (Return fs) done.
Proof. destruct todo; reflexivity. Qed.

Lemma retry_loop_transient_fresh name pulls k start rest done :
  (forall j, start <= j < start + k -> fails_transiently name (pulls j)) ->
  retry_loop name pulls (seq start k ++ rest) "" false done
  = retry_loop name pulls rest "" false
      (done ++ flat_map
                 (fun j => Pulls j :: if (j <? retrials - 1)%nat
                                      then [Sleeps retrials_wait_time] else [])
                 (seq start k)).
Proof.
  intros Hfail. destruct k as [|k].
  - simpl. rewrite app_nil_r. reflexivity.
  - apply retry_loop_transient_run; [exact Hfail | lia].
Qed.

(** The run of a call whose attempt [k] is the first not to fail. *)
Lemma get_layers_image_attempt name pulls k :
  1 <= k <= 4 ->
  (forall j, 1 <= j < k -> fails_transiently name (pulls j)) ->
  get_layers_image name pulls
  = retry_loop name pulls (k :: seq (S k) (4 - k)) "" false
               (failed_effects (k - 1)).
Proof.
  intros Hk Hfail. unfold get_layers_image, retrial_range.
  replace (seq 1 (retrials - 1))
    with (seq 1 (k - 1) ++ k :: seq (S k) (4 - k)).
  - rewrite retry_loop_transient_fresh; [reflexivity|].
    intros j Hj. apply Hfail. lia.
  - destruct k as [|[|[|[|[|k]]]]]; try lia; reflexivity.
Qed.

(** C2 (amended). Let attempt [k] be entered afresh (it is the first, or all
    the attempts before it failed transiently).  When its stream reaches a
    line that starts the transfer (status ["Downloading"], no error) and every
    line before it passes (a layer announcement with its identifier, or a line
    that is neither an error nor ["Downloading"]), the call returns the
    identifiers of the lines announcing a layer (["Pulling fs layer"] or
    ["Already exists"]) before that line, one per line and in their order, and
    makes no further pull; the lines after it, the way the stream ends and
    the later pulls have no influence.  Inside any attempt the same lines add
    the same identifiers to whatever the attempt was entered with. *)
Theorem get_layers_image_until_download (name : string) (pulls : nat -> Pull)
    (k : nat) (pre post : list Line) (d : Line) :
  1 <= k <= 4 ->
  (forall j, 1 <= j < k -> fails_transiently name (pulls j)) ->
  lines (pulls k) = pre ++ d :: post ->
  Forall passes pre ->
  starts_download d ->
  get_layers_image name pulls
    = mkRun (Return (layer_tokens pre)) (failed_effects (k - 1) ++ [Pulls k]) /\
  (forall pulls' post' e',
     (forall j, 1 <= j < k -> pulls' j = pulls j) ->
     pulls' k = mkPull (pre ++ d :: post') e' ->
     get_layers_image name pulls' = get_layers_image name pulls) /\
  (forall fs e, consume name fs (pre ++ d :: post) e
                = Retrieved (fs +:+ layer_tokens pre)).
Proof.
  intros Hk Hfail Hlines Hpre Hd.
  assert (Hrun : forall q post',
            (forall j, 1 <= j < k -> fails_transiently name (q j)) ->
            lines (q k) = pre ++ d :: post' ->
            get_layers_image name q
            = mkRun (Return (layer_tokens pre))
                    (failed_effects (k - 1) ++ [Pulls k])).
  { intros q post' Hq Hqk. rewrite (get_layers_image_attempt name q k Hk Hq).
    cbn [retry_loop]. rewrite Hqk, consume_until_download by assumption.
    apply retry_loop_retrieved. }
  split; [apply (Hrun pulls post Hfail Hlines)|].
  split.
  - intros pulls' post' e' Hsame Hp'. rewrite (Hrun pulls post Hfail Hlines).
    apply (Hrun pulls' post').
    + intros j Hj. rewrite Hsame by exact Hj. apply Hfail. exact Hj.
    + rewrite Hp'. reflexivity.
  - intros fs e. apply consume_until_download; assumption.
Qed.

Lemma get_layers_image_until_download_witness :
  get_layers_image "redis" (fun _ => good_pull)
  = mkRun (Return "aaaaaaaaaaaabbbbbbbbbbbb") [Pulls 1].
Proof.
  apply (get_layers_image_until_download "redis" (fun _ => good_pull) 1
           [pulling_from "7"; layer "aaaaaaaaaaaa"; cached "bbbbbbbbbbbb"]
           [layer "cccccccccccc"] (downloading "aaaaaaaaaaaa")).
  - lia.
  - intros j Hj. lia.
  - reflexivity.
  - repeat constructor; unfold passes; simpl; congruence.
  - split; reflexivity.
Defined.

(** A second attempt, after a transient failure of the first, starts from the
    empty string. *)
Example get_layers_image_second_attempt :
  get_layers_image "redis" (fun j => if (j =? 1)%nat then broken_pull else good_pull)
  = mkRun (Return "aaaaaaaaaaaabbbbbbbbbbbb") [Pulls 1; Sleeps 30; Pulls 2].
Proof. reflexivity. Qed.

(** C2, the claim as stated fails: in [broken_pull] an error line stands
    between the announced layer and the first ["Downloading"] line; every
    attempt raises there, the identifier is discarded and the call returns the
    empty string, not the identifier announced before the ["Downloading"]
    line. *)
Lemma get_layers_image_error_before_download :
  lines broken_pull
    = [layer "aaaaaaaaaaaa"; failure "gateway timeout"]
      ++ downloading "aaaaaaaaaaaa" :: [] /\
  Forall (fun l => status_is l "Downloading" = false)
         [layer "aaaaaaaaaaaa"; failure "gateway timeout"] /\
  layer_tokens [layer "aaaaaaaaaaaa"; failure "gateway timeout"] = "aaaaaaaaaaaa" /\
  outcome (get_layers_image "redis" (fun _ => broken_pull)) = Return "" /\
  outcome (get_layers_image "redis" (fun _ => broken_pull))
    <> Return (layer_tokens [layer "aaaaaaaaaaaa"; failure "gateway timeout"]).
Proof.
  split; [reflexivity|]. split; [repeat constructor|].
  split; [reflexivity|]. split; [reflexivity|].
  vm_compute. discriminate.
Qed.

(** C4 (amended). The loop makes at most four attempts ([range(1, 3 + 2)]).
    When the first [k] attempts fail transiently, their accumulated
    identifiers are discarded: the call goes on as a fresh loop over the
    remaining attempts, entered with the empty string, having paused
    [retrials_wait_time = 30] seconds after each failed attempt but the
    fourth.  When all four fail, the call returns the empty string after the
    pulls 1 to 4 separated by three pauses of 30 seconds. *)
Theorem get_layers_image_retries (name : string) (pulls : nat -> Pull) (k : nat) :
  1 <= k <= 4 ->
  (forall j, 1 <= j <= k -> fails_transiently name (pulls j)) ->
  retrial_range = [1; 2; 3; 4] /\
  get_layers_image name pulls
    = retry_loop name pulls (seq (S k) (4 - k)) "" false (failed_effects k) /\
  (k = 4 ->
   get_layers_image name pulls
   = mkRun (Return "")
           [Pulls 1; Sleeps 30; Pulls 2; Sleeps 30; Pulls 3; Sleeps 30; Pulls 4]) /\
  count_pulls (effects (get_layers_image name pulls)) <= 4.
Proof.
  intros Hk Hfail.
  assert (Hrun : get_layers_image name pulls
                 = retry_loop name pulls (seq (S k) (4 - k)) "" false
                              (failed_effects k)).
  { unfold get_layers_image, retrial_range.
    replace (seq 1 (retrials - 1)) with (seq 1 k ++ seq (S k) (4 - k)).
    - rewrite retry_loop_transient_run; [reflexivity | | lia].
      intros j Hj. apply Hfail. lia.
    - rewrite <- seq_app. f_equal. unfold retrials. lia. }
  split; [reflexivity|]. split; [exact Hrun|]. split.
  - intros ->. rewrite Hrun. reflexivity.
  - apply (retry_loop_pulls name pulls retrial_range "" false []).
Qed.

Lemma broken_pull_fails_transiently name : fails_transiently name broken_pull.
Proof.
  exists "aaaaaaaaaaaa", "". split; [reflexivity|]. split; reflexivity.
Defined.

Lemma get_layers_image_retries_witness :
  get_layers_image "redis" (fun _ => broken_pull)
  = mkRun (Return "")
          [Pulls 1; Sleeps 30; Pulls 2; Sleeps 30; Pulls 3; Sleeps 30; Pulls 4].
Proof.
  refine (proj1 (proj2 (proj2
            (get_layers_image_retries "redis" (fun _ => broken_pull) 4 _ _)))
            eq_refl).
  - lia.
  - intros j _. apply broken_pull_fails_transiently.
Defined.

(** C4, the claim as stated fails: the budget is not five attempts.  With
    four failing pulls and a fifth that would deliver the layers, the call
    stops after the fourth and returns the empty string. *)
Lemma get_layers_image_no_fifth_attempt :
  (forall j, 1 <= j <= 4 -> fails_transiently "redis" (failing_then_good j)) /\
  consume "redis" "" (lines (failing_then_good 5)) (ending (failing_then_good 5))
    = Retrieved "aaaaaaaaaaaabbbbbbbbbbbb" /\
  get_layers_image "redis" failing_then_good
    = mkRun (Return "")
            [Pulls 1; Sleeps 30; Pulls 2; Sleeps 30; Pulls 3; Sleeps 30; Pulls 4] /\
  count_pulls (effects (get_layers_image "redis" failing_then_good)) = 4 /\
  count_pulls (effects (get_layers_image "redis" failing_then_good)) <> 5.
Proof.
  split.
  { intros j Hj. unfold failing_then_good.
    destruct (Nat.leb_spec j 4); [|lia]. apply broken_pull_fails_transiently. }
  split; [reflexivity|]. split; [reflexivity|]. split; [reflexivity|].
  vm_compute. discriminate.
Qed.

Example contains_platform :
  contains incompatible_platform
           "image operating system windows cannot be used on this platform" = true /\
  contains "docker login" "pull access denied, may require 'docker login'" = true /\
  contains incompatible_platform "gateway timeout" = false.
Proof. repeat split; reflexivity. Qed.

(** An incompatible platform ends the loop at once, without pause. *)
Example get_layers_image_incompatible :
  get_layers_image "redis"
    (fun _ => mkPull [failure "no matching manifest for linux/amd64"] StreamEnd)
  = mkRun (Return "") [Pulls 1].
Proof. reflexivity. Qed.

(** An exception of the client that is not an [APIError] is not caught by the
    loop: it leaves the call. *)
Example get_layers_image_read_timeout :
  get_layers_image "redis"
    (fun _ => mkPull [layer "aaaaaaaaaaaa"] (StreamRaises ReadTimeout))
  = mkRun (Raise ReadTimeout) [Pulls 1].
Proof. reflexivity. Qed.

(** What the amended claims leave aside: an attempt whose stream ends without
    a ["Downloading"] line, or that raises with a message asking for
    [docker login], keeps its identifiers, and the next attempt adds to
    them. *)
Example get_layers_image_keeps_after_exhausted :
  get_layers_image "redis"
    (fun k => if (k =? 1)%nat
              then mkPull [cached "aaaaaaaaaaaa"] StreamEnd
              else mkPull [layer "aaaaaaaaaaaa"; downloading "aaaaaaaaaaaa"] StreamEnd)
  = mkRun (Return "aaaaaaaaaaaaaaaaaaaaaaaa") [Pulls 1; Pulls 2].
Proof. reflexivity. Qed.
End ExtractorFacts.

(** ** Facts about the repository extraction *)

Module ExtractionFacts.
Import Extractor Hub Extraction.

Lemma already_retrieved_In fs images :
  already_retrieved fs images = true <-> In fs (map fs_layers images).
Proof.
  induction images as [|x l IH]; simpl; [split; [discriminate | tauto]|].
  destruct (String.eqb_spec fs (fs_layers x)) as [->|Hne].
  - split; auto.
  - rewrite IH. split; [auto|]. intros [H|H]; [congruence | exact H].
Qed.

(** An insertion leaves the list as it is or appends one record with the
    requested layers, which no record carried. *)
Lemma insert_image_cases api repository tag fs images images' :
  insert_image api repository tag fs images = Return images' ->
  images' = images \/
  exists r, images' = images ++ [r] /\ fs_layers r = fs /\ image_tag r = tag /\
            fs <> "" /\ ~ In fs (map fs_layers images).
Proof.
  unfold insert_image.
  destruct (String.eqb_spec fs "") as [->|Hne]; [intros [= <-]; auto|].
  destruct (already_retrieved fs images) eqn:Hscan; [intros [= <-]; auto|].
  assert (Hnot : ~ In fs (map fs_layers images)).
  { rewrite <- already_retrieved_In, Hscan. discriminate. }
  destruct (Hub.repository_tag api repository tag) as [|lu]; [intros [= <-]; auto|].
  destruct lu as [| |t]; try discriminate;
    destruct (microbadger_tag api repository tag) as [c|];
    intros [= <-]; auto; right; eexists; repeat split; eauto.
Qed.

Lemma NoDup_snoc (l : list string) (x : string) :
  List.NoDup l -> ~ In x l -> List.NoDup (l ++ [x]).
Proof.
  induction l as [|y l IH]; intros Hnd Hx; simpl.
  - apply List.NoDup_cons; [tauto | apply List.NoDup_nil].
  - apply List.NoDup_cons_iff in Hnd as [Hy Hnd].
    apply List.NoDup_cons.
    + rewrite in_app_iff. simpl. intros [H|[H|[]]]; [tauto|].
      apply Hx. left. congruence.
    + apply IH; [exact Hnd|]. intros H. apply Hx. right. exact H.
Qed.

Lemma insert_image_NoDup api repository tag fs images images' :
  List.NoDup (map fs_layers images) ->
  insert_image api repository tag fs images = Return images' ->
  List.NoDup (map fs_layers images').
Proof.
  intros Hnd Hins.
  destruct (insert_image_cases _ _ _ _ _ _ Hins)
    as [->|(r & -> & Hr & _ & _ & Hnot)]; [exact Hnd|].
  rewrite map_app. simpl. rewrite Hr.
  apply NoDup_snoc; assumption.
Qed.

Lemma insert_all_NoDup api repository reqs :
  forall images images',
    List.NoDup (map fs_layers images) ->
    insert_all api repository reqs images = Return images' ->
    List.NoDup (map fs_layers images').
Proof.
  induction reqs as [|[tag fs] reqs IH]; intros images images' Hnd.
  - intros [= <-]. exact Hnd.
  - cbn [insert_all].
    destruct (insert_image api repository tag fs images) as [images1|] eqn:Hins;
      [|discriminate].
    apply IH. eapply insert_image_NoDup; eauto.
Qed.

Lemma extract_tags_NoDup api repository tags :
  forall images images',
    List.NoDup (map fs_layers images) ->
    extract_tags api repository tags images = Return images' ->
    List.NoDup (map fs_layers images').
Proof.
  induction tags as [|tag tags IH]; intros images images' Hnd.
  - intros [= <-]. exact Hnd.
  - cbn [extract_tags].
    destruct (retry_official _ _ _ _) as [fs|]; [|discriminate].
    destruct (insert_image api repository tag fs images) as [images1|] eqn:Hins;
      [|discriminate].
    apply IH. eapply insert_image_NoDup; eauto.
Qed.

Lemma with_layers_NoDup fs images :
  List.NoDup (map fs_layers images) ->
  List.length (with_layers fs images)
  = if already_retrieved fs images then 1 else 0.
Proof.
  induction images as [|x l IH]; intros Hnd; [reflexivity|].
  simpl in Hnd. apply List.NoDup_cons_iff in Hnd as [Hx Hnd].
  unfold with_layers in *. simpl.
  destruct (String.eqb_spec fs (fs_layers x)) as [->|Hne].
  - simpl. rewrite IH by exact Hnd.
    destruct (already_retrieved (fs_layers x) l) eqn:Hl; [|reflexivity].
    apply already_retrieved_In in Hl. contradiction.
  - apply IH. exact Hnd.
Qed.


Lemma insert_image_present api repository tag fs images :
  In fs (map fs_layers images) ->
  insert_image api repository tag fs images = Return images.
Proof.
  intros Hin. unfold insert_image.
  destruct (String.eqb fs ""); [reflexivity|].
  apply already_retrieved_In in Hin. rewrite Hin. reflexivity.
Qed.

(** C6. During the extraction of a repository, an image whose layers a stored
    record already carries is not inserted; whatever insertions are made,
    starting from the empty list of [get_layers_official_repository], no two
    records of the result carry the same layers; and when a record can be
    built for [repository:tag], inserting it a second time changes nothing and
    leaves exactly one record with its layers. *)
Theorem insertion_deduplicates (api : API) (repository : string) :
  (forall tag fs images,
     In fs (map fs_layers images) ->
     insert_image api repository tag fs images = Return images) /\
  (forall reqs images',
     insert_all api repository reqs [] = Return images' ->
     List.NoDup (map fs_layers images')) /\
  (forall images',
     get_layers_official_repository api repository = Return images' ->
     List.NoDup (map fs_layers images')) /\
  (forall reqs images tag fs,
     insert_all api repository reqs [] = Return images ->
     has_record api repository tag fs ->
     exists images1,
       insert_image api repository tag fs images = Return images1 /\
       insert_image api repository tag fs images1 = Return images1 /\
       List.length (with_layers fs images1) = 1).
Proof.
  split; [intros tag fs images; apply insert_image_present|].
  split; [intros reqs images'; apply insert_all_NoDup; apply List.NoDup_nil|].
  split; [intros images'; apply extract_tags_NoDup; apply List.NoDup_nil|].
  intros reqs images tag fs Hrun (Hfs & (lu & Hlu & Hnull) & Hmb).
  assert (Hnd : List.NoDup (map fs_layers images))
    by (apply (insert_all_NoDup api repository reqs [] images);
        [apply List.NoDup_nil | exact Hrun]).
  assert (Hins : exists images1,
            insert_image api repository tag fs images = Return images1 /\
            In fs (map fs_layers images1)).
  { unfold insert_image.
    destruct (String.eqb_spec fs "") as [?|_]; [contradiction|].
    destruct (already_retrieved fs images) eqn:Hscan.
    - exists images. split; [reflexivity|]. apply already_retrieved_In. exact Hscan.
    - rewrite Hlu.
      destruct (microbadger_tag api repository tag) as [c|]; [|congruence].
      destruct lu as [| |t]; [|congruence|];
        eexists; (split; [reflexivity|]);
        rewrite map_app, in_app_iff; right; left; reflexivity. }
  destruct Hins as (images1 & Hins & Hin).
  exists images1. split; [exact Hins|].
  split; [apply insert_image_present; exact Hin|].
  rewrite with_layers_NoDup by (eapply insert_image_NoDup; eauto).
  apply already_retrieved_In in Hin. rewrite Hin. reflexivity.
Qed.

Import ExtractionExamples.

Example get_layers_official_repository_redis :
  get_layers_official_repository redis_api "redis"
  = Return [mkImage "aaaaaaaaaaaabbbbbbbbbbbb" "7" 200 190;
            mkImage "aaaaaaaaaaaa" "6" 100 90].
Proof. reflexivity. Qed.

Lemma insertion_deduplicates_witness :
  exists images1,
    insert_image redis_api "redis" "latest" "aaaaaaaaaaaabbbbbbbbbbbb"
                 [mkImage "aaaaaaaaaaaabbbbbbbbbbbb" "7" 200 190] = Return images1 /\
    insert_image redis_api "redis" "latest" "aaaaaaaaaaaabbbbbbbbbbbb" images1
      = Return images1 /\
    List.length (with_layers "aaaaaaaaaaaabbbbbbbbbbbb" images1) = 1.
Proof.
  apply (proj2 (proj2 (proj2 (insertion_deduplicates redis_api "redis")))
           [("7", "aaaaaaaaaaaabbbbbbbbbbbb")]).
  - reflexivity.
  - split; [discriminate|]. split; [|discriminate].
    exists (Time 200). split; [reflexivity | discriminate].
Defined.
End ExtractionFacts.

(** ** Facts about the synchronizer *)

Module SyncFacts.
Import Extractor Hub Sync.

(** *** The watermark *)

Lemma watermark_loop_full (images : list ImageRecord) (s : Scan) :
  (threshold <= n_not_raising s)%nat -> watermark_loop images s = s.
Proof.
  intros Hn. destruct images as [|image images]; [reflexivity|].
  cbn [watermark_loop]. destruct (Nat.leb_spec threshold (n_not_raising s)); [reflexivity|lia].
Qed.

Lemma watermark_loop_spec (images : list ImageRecord) :
  forall s, (n_not_raising s <= threshold)%nat ->
    exists new rest,
      images = new ++ rest /\
      scanned (watermark_loop images s) = scanned s ++ new /\
      last_updated_time (watermark_loop images s)
        = fold_left Z.max (map last_updated new) (last_updated_time s) /\
      n_not_raising (watermark_loop images s)
        = (n_not_raising s
           + not_raising (map last_updated new) (last_updated_time s))%nat /\
      (n_not_raising (watermark_loop images s) <= threshold)%nat /\
      (rest <> [] ->
       n_not_raising (watermark_loop images s) = threshold /\
       forall rest', watermark_loop (new ++ rest') s = watermark_loop images s).
Proof.
  induction images as [|image images IH]; intros s Hn.
  - exists [], []. simpl. rewrite app_nil_r, Nat.add_0_r. tauto.
  - cbn [watermark_loop].
    destruct (Nat.leb_spec threshold (n_not_raising s)) as [Hge|Hlt].
    + exists [], (image :: images). simpl. rewrite app_nil_r, Nat.add_0_r.
      repeat split; auto; try lia.
      intros rest'. apply watermark_loop_full. exact Hge.
    + destruct (Z.gtb_spec (last_updated image) (last_updated_time s)) as [Hgt|Hle].
      * destruct (IH (mkScan (last_updated image) (n_not_raising s)
                             (scanned s ++ [image])))
          as (new & rest & -> & Hsc & Hmax & Hcount & Hbound & Hstop);
          [simpl; lia|].
        exists (image :: new), rest. cbn [map fold_left not_raising].
        cbn [scanned last_updated_time n_not_raising] in *.
        replace (Z.max (last_updated_time s) (last_updated image))
          with (last_updated image) by lia.
        destruct (Z.gtb_spec (last_updated image) (last_updated_time s)); [|lia].
        rewrite Hsc, <- app_assoc. repeat split; auto; try (apply Hstop; assumption).
        intros rest'. cbn [app watermark_loop].
        destruct (Nat.leb_spec threshold (n_not_raising s)); [lia|].
        destruct (Z.gtb_spec (last_updated image) (last_updated_time s)); [|lia].
        apply Hstop. assumption.
      * destruct (IH (mkScan (last_updated_time s) (n_not_raising s + 1)
                             (scanned s ++ [image])))
          as (new & rest & -> & Hsc & Hmax & Hcount & Hbound & Hstop);
          [simpl; lia|].
        exists (image :: new), rest. cbn [map fold_left not_raising].
        cbn [scanned last_updated_time n_not_raising] in *.
        replace (Z.max (last_updated_time s) (last_updated image))
          with (last_updated_time s) by lia.
        destruct (Z.gtb_spec (last_updated image) (last_updated_time s)); [lia|].
        rewrite Hsc, <- app_assoc. repeat split; auto; try lia;
          try (apply Hstop; assumption).
        intros rest'. cbn [app watermark_loop].
        destruct (Nat.leb_spec threshold (n_not_raising s)); [lia|].
        destruct (Z.gtb_spec (last_updated image) (last_updated_time s)); [lia|].
        apply Hstop. assumption.
Qed.

Lemma not_raising_le (ts : list Z) : forall m, (not_raising ts m <= List.length ts)%nat.
Proof.
  induction ts as [|t ts IH]; intros m; simpl; [lia|].
  destruct (t >? m)%Z; [specialize (IH t) | specialize (IH m)]; lia.
Qed.

(** C3 (amended). The watermark of a repository is the largest of [0] and the
    ["last_updated"] values of the records the scan reads.  The scan reads the
    stored records in order and stops before the first record met after
    thirty of the records read did not raise the running maximum; a record
    that raises it does not count, so the scan may read more than thirty
    records.  Records after the stop never contribute: any other records in
    their place give the same scan.  A list of at most thirty records is read
    whole. *)
Theorem watermark_window (images : list ImageRecord) :
  watermark images
    = max_time (map last_updated (scanned (watermark_scan images))) /\
  n_not_raising (watermark_scan images)
    = not_raising (map last_updated (scanned (watermark_scan images))) 0 /\
  (n_not_raising (watermark_scan images) <= threshold)%nat /\
  (exists rest,
     images = scanned (watermark_scan images) ++ rest /\
     (rest <> [] ->
      n_not_raising (watermark_scan images) = threshold /\
      forall rest',
        watermark_scan (scanned (watermark_scan images) ++ rest')
        = watermark_scan images)) /\
  ((List.length images <= threshold)%nat ->
   scanned (watermark_scan images) = images).
Proof.
  unfold watermark, watermark_scan, max_time.
  destruct (watermark_loop_spec images (mkScan 0 0 []))
    as (new & rest & Himages & Hsc & Hmax & Hcount & Hbound & Hstop);
    [simpl; unfold threshold; lia|].
  cbn [scanned last_updated_time n_not_raising app] in *.
  rewrite Hsc.
  split; [exact Hmax|]. split; [exact Hcount|]. split; [exact Hbound|].
  split; [exists rest; split; [exact Himages | exact Hstop]|].
  intros Hlen. destruct rest as [|r rest]; [rewrite app_nil_r in Himages; congruence|].
  exfalso. destruct Hstop as [Hfull _]; [discriminate|].
  pose proof (not_raising_le (map last_updated new) 0) as Hle.
  rewrite length_map in Hle.
  rewrite Himages, List.length_app in Hlen. simpl in Hlen. lia.
Qed.

Import SyncExamples.

Lemma watermark_window_witness :
  scanned (watermark_scan (rising 3)) = rising 3.
Proof.
  apply (proj2 (proj2 (proj2 (proj2 (watermark_window (rising 3)))))).
  unfold threshold. simpl. lia.
Defined.

(** C3, the claim as stated fails: of thirty-one records, each newer than the
    one before, all thirty-one are read, and the thirty-first sets the
    watermark. *)
Lemma watermark_reads_past_thirty :
  List.length (scanned (watermark_scan (rising 31))) = 31%nat /\
  watermark (rising 31) = 31%Z /\
  max_time (map last_updated (firstn 30 (rising 31))) = 30%Z /\
  watermark (rising 31) <> max_time (map last_updated (firstn 30 (rising 31))).
Proof.
  split; [reflexivity|]. split; [reflexivity|]. split; [reflexivity|].
  vm_compute. discriminate.
Qed.

(** The first of thirty-one equal records raises the maximum, the thirty
    others do not: the scan stops there and misses the newer record. *)
Example watermark_stops_after_thirty :
  let stale := repeat (mkImage "aaaaaaaaaaaa" "t" 5 0) 31 in
  watermark (stale ++ [mkImage "bbbbbbbbbbbb" "new" 99 0]) = 5%Z.
Proof. reflexivity. Qed.

(** *** The update pass *)

Lemma remove_image_length (x : ImageRecord) (l : list ImageRecord) :
  (List.length (remove_image x l) <= List.length l)%nat.
Proof.
  induction l as [|y l IH]; simpl; [lia|].
  destruct (decide (y = x)); simpl; lia.
Qed.

Lemma update_image_length (x y : ImageRecord) (l : list ImageRecord) :
  List.length (update_image x y l) = List.length l.
Proof.
  unfold update_image. destruct (index_image x l); [apply length_insert | reflexivity].
Qed.

Lemma inner_step_length api repository tag layers image p p' :
  inner_step api repository tag layers image p = Return p' ->
  (List.length (images p') <= List.length (images p))%nat.
Proof.
  unfold inner_step.
  destruct (String.eqb (fs_layers image) layers).
  - destruct (checked_time _) as [[t|]|]; try discriminate; intros [= <-]; simpl;
      [destruct (t >? last_updated image)%Z; [rewrite update_image_length|] |]; lia.
  - destruct (String.eqb (image_tag image) tag); [|intros [= <-]; lia].
    destruct (decide (layers ∈ added p)).
    + intros [= <-]. simpl. apply remove_image_length.
    + destruct (checked_time _) as [[t|]|]; try discriminate; intros [= <-]; simpl;
        [rewrite update_image_length|]; lia.
Qed.

(** The fuel of [inner_loop] is of no consequence once it covers the
    positions left: the loop ends by running off the list, never for lack of
    fuel. *)
Lemma inner_loop_fuel api repository tag layers :
  forall fuel1 fuel2 pos p,
    (List.length (images p) - pos <= fuel1)%nat ->
    (List.length (images p) - pos <= fuel2)%nat ->
    inner_loop fuel1 api repository tag layers pos p
    = inner_loop fuel2 api repository tag layers pos p.
Proof.
  induction fuel1 as [|fuel1 IH]; intros fuel2 pos p H1 H2.
  - assert (Hnone : images p !! pos = None) by (apply lookup_ge_None_2; lia).
    destruct fuel2; simpl; [reflexivity | rewrite Hnone; reflexivity].
  - destruct fuel2 as [|fuel2].
    + assert (Hnone : images p !! pos = None) by (apply lookup_ge_None_2; lia).
      simpl. rewrite Hnone. reflexivity.
    + cbn [inner_loop]. destruct (images p !! pos) as [image|] eqn:Hpos; [|reflexivity].
      destruct (inner_step api repository tag layers image p) as [p'|] eqn:Hstep;
        [|reflexivity].
      apply inner_step_length in Hstep.
      apply lookup_lt_Some in Hpos.
      apply IH; lia.
Qed.

Import SyncExamples.




(** *** The whole run *)

(** C9 (amended). When the database file cannot be read or parsed, the run
    ends right after the attempt: the failure is caught inside
    [update_official_database] and logged, the call returns to its caller
    without raising, and nothing is extracted, checked, written or renamed.
    No run ever hands an exception to its caller. *)
Theorem update_official_database_read_failure (w : World) (e : exn) :
  db_file w = ReadFails e ->
  update_official_database w
    = (Returned, [FetchCatalog; OpenRead; LogException e]) /\
  Forall (fun x => updates_repository x = false)
         (update_official_database w).2 /\
  (forall w' e', (update_official_database w').1 <> Propagated e').
Proof.
  intros Hread.
  assert (Hrun : update_official_database w
                 = (Returned, [FetchCatalog; OpenRead; LogException e])).
  { unfold update_official_database, sync_body, read_database.
    unfold mbind, M_bind, bind, emit, raise. cbn [fst snd app].
    rewrite Hread. reflexivity. }
  split; [exact Hrun|].
  split; [rewrite Hrun; repeat constructor|].
  intros w' e'. unfold update_official_database.
  destruct (sync_body w' _) as [[?|?|] [? ?]]; discriminate.
Qed.

Lemma update_official_database_read_failure_witness :
  update_official_database unreadable
  = (Returned, [FetchCatalog; OpenRead; LogException IOError]).
Proof.
  apply (update_official_database_read_failure unreadable IOError). reflexivity.
Defined.

(** C9, the claim as stated fails: on an unreadable file the caller gets no
    exception, the call returns. *)
Lemma update_official_database_swallows :
  db_file unreadable = ReadFails IOError /\
  (update_official_database unreadable).1 = Returned /\
  (update_official_database unreadable).1 <> Propagated IOError.
Proof. split; [reflexivity|]. split; [reflexivity | discriminate]. Qed.

Example update_official_database_empty_catalog :
  update_official_database empty_catalog
  = (Exited, [FetchCatalog; OpenRead; ProcessExit]).
Proof. reflexivity. Qed.

(** A failure while a repository is checked reaches the same handler: it ends
    the run, the file is neither written nor renamed. *)
Example update_official_database_failing_hub :
  update_official_database failing_hub
  = (Returned, [FetchCatalog; OpenRead; CheckRepository "redis";
                LogException AttributeError]).
Proof. reflexivity. Qed.

Example update_official_database_redis :
  update_official_database redis_world
  = (Returned,
     [FetchCatalog; OpenRead; CheckRepository "redis";
      WriteDb [("redis", [rec6; mkImage layers7 "7" 200 190])];
      RenameFile]).
Proof. vm_compute. reflexivity. Qed.
End SyncFacts.

(** ** Facts about the duplicate resolver *)

Module DuplicatesFacts.
Import Duplicates.

Lemma db_get_In (db : ParentDb) (k : string) (v : list ImageRecord) :
  List.NoDup (keys db) -> In (k, v) db -> db_get db k = v.
Proof.
  induction db as [|[k' v'] db IH]; intros Hnd Hin; [destruct Hin|].
  simpl in *. apply List.NoDup_cons_iff in Hnd as [Hk' Hnd].
  destruct Hin as [[= -> ->]|Hin].
  - rewrite String.eqb_refl. reflexivity.
  - destruct (String.eqb_spec k' k) as [->|_].
    + exfalso. apply Hk'. apply in_map_iff. exists (k, v). split; [reflexivity | exact Hin].
    + apply IH; assumption.
Qed.

(** What one comparison loop reports is sound, and the flag falls exactly
    when a record with equal layers is strictly older. *)
Lemma compare_images_sound repository image repo imgs :
  forall b f,
    In f (compare_images repository image repo imgs b).2 ->
    Duplicates.repository f = repository /\ Duplicates.image f = image /\
    Duplicates.repo f = repo /\ In (img f) imgs /\
    fs_layers image = fs_layers (img f) /\
    (outcome f = ImageMoreRecent <-> (created (img f) < created image)%Z).
Proof.
  induction imgs as [|x imgs IH]; intros b f; simpl; [tauto|].
  destruct (String.eqb_spec (fs_layers image) (fs_layers x)) as [Heq|Hne].
  - destruct (Z.gtb_spec (created image - created x) 0) as [Hgt|Hle].
    + destruct (compare_images repository image repo imgs false) as [flag found] eqn:Hc.
      simpl. intros [<-|Hin].
      * simpl. repeat split; auto. lia.
      * specialize (IH false f). rewrite Hc in IH. specialize (IH Hin). tauto.
    + destruct (compare_images repository image repo imgs b) as [flag found] eqn:Hc.
      simpl. intros [<-|Hin].
      * simpl. repeat split; auto; [discriminate | lia].
      * specialize (IH b f). rewrite Hc in IH. specialize (IH Hin). tauto.
  - intros Hin. specialize (IH b f Hin). tauto.
Qed.

Lemma compare_images_flag repository image repo imgs :
  forall b,
    (compare_images repository image repo imgs b).1 = false ->
    b = false \/
    exists f, In f (compare_images repository image repo imgs b).2 /\
              outcome f = ImageMoreRecent.
Proof.
  induction imgs as [|x imgs IH]; intros b; simpl;
    [intros ->; left; reflexivity|].
  destruct (String.eqb (fs_layers image) (fs_layers x)); [|apply IH].
  destruct (created image - created x >? 0)%Z.
  - destruct (compare_images repository image repo imgs false) as [flag found].
    simpl. intros _. right. eexists. split; [left; reflexivity | reflexivity].
  - specialize (IH b).
    destruct (compare_images repository image repo imgs b) as [flag found].
    simpl in *. intros Hflag. destruct (IH Hflag) as [Hb|(f & Hf & Ho)]; [left; exact Hb|].
    right. exists f. split; [right; exact Hf | exact Ho].
Qed.

Lemma compare_images_older repository image repo imgs x :
  In x imgs -> fs_layers image = fs_layers x -> (created x < created image)%Z ->
  forall b, (compare_images repository image repo imgs b).1 = false.
Proof.
  induction imgs as [|y imgs IH]; intros Hin Heq Hlt b; [destruct Hin|].
  assert (Hfalse : forall l, (compare_images repository image repo l false).1 = false).
  { induction l as [|z l IHl]; simpl; [reflexivity|].
    destruct (String.eqb (fs_layers image) (fs_layers z)); [|exact IHl].
    destruct (created image - created z >? 0)%Z;
      destruct (compare_images repository image repo l false); simpl in *; exact IHl. }
  simpl. destruct Hin as [->|Hin].
  - rewrite Heq, String.eqb_refl.
    destruct (Z.gtb_spec (created image - created x) 0) as [_|Hle]; [|lia].
    specialize (Hfalse imgs).
    destruct (compare_images repository image repo imgs false). exact Hfalse.
  - destruct (String.eqb (fs_layers image) (fs_layers y)); [|apply IH; assumption].
    destruct (created image - created y >? 0)%Z.
    + specialize (Hfalse imgs).
      destruct (compare_images repository image repo imgs false). exact Hfalse.
    + specialize (IH Hin Heq Hlt b).
      destruct (compare_images repository image repo imgs b). exact IH.
Qed.

Lemma scan_others_sound db repository image repositories f :
  In f (scan_others db repository image repositories) ->
  Duplicates.repository f = repository /\ Duplicates.image f = image /\
  In (repo f) repositories /\ In (img f) (db_get db (repo f)) /\
  fs_layers image = fs_layers (img f) /\
  (outcome f = ImageMoreRecent <-> (created (img f) < created image)%Z).
Proof.
  induction repositories as [|r rest IH]; simpl; [tauto|].
  pose proof (compare_images_sound repository image r (db_get db r) true f) as Hs.
  destruct (compare_images repository image r (db_get db r) true) as [flag found].
  simpl in Hs.
  assert (Hhere : In f found ->
            Duplicates.repository f = repository /\ Duplicates.image f = image /\
            (r = repo f \/ In (repo f) rest) /\ In (img f) (db_get db (repo f)) /\
            fs_layers image = fs_layers (img f) /\
            (outcome f = ImageMoreRecent <-> (created (img f) < created image)%Z)).
  { intros Hin. destruct (Hs Hin) as (? & ? & Hr & ? & ? & ?).
    rewrite Hr. repeat split; auto; tauto. }
  destruct flag; [|exact Hhere].
  intros Hin. apply in_app_or in Hin as [Hin|Hin]; [exact (Hhere Hin)|].
  destruct (IH Hin) as (? & ? & ? & ? & ? & ?). repeat split; auto; tauto.
Qed.

(** A record that has a strictly older copy in one of the repositories to
    scan is reported as the more recent one, there or at an earlier
    repository where the scan stops. *)
Lemma scan_others_flags db repository image repositories ra a :
  In ra repositories -> In a (db_get db ra) ->
  fs_layers image = fs_layers a -> (created a < created image)%Z ->
  exists f, In f (scan_others db repository image repositories) /\
            outcome f = ImageMoreRecent.
Proof.
  induction repositories as [|r rest IH]; intros Hra Ha Heq Hlt; [destruct Hra|].
  simpl.
  pose proof (compare_images_flag repository image r (db_get db r) true) as Hflag.
  destruct (compare_images repository image r (db_get db r) true)
    as [flag found] eqn:Hc.
  simpl in Hflag. destruct flag.
  - destruct Hra as [->|Hra].
    + pose proof (compare_images_older repository image ra _ a Ha Heq Hlt true) as Hf.
      rewrite Hc in Hf. discriminate.
    + destruct (IH Hra Ha Heq Hlt) as (f & Hf & Ho).
      exists f. split; [apply in_or_app; right; exact Hf | exact Ho].
  - destruct (Hflag eq_refl) as [?|(f & Hf & Ho)]; [discriminate|].
    exists f. split; assumption.
Qed.

Lemma verify_database_In (db : ParentDb) (f : Finding) :
  In f (verify_database db) <->
  exists repository images image,
    In (repository, images) db /\ In image images /\
    In f (scan_others db repository image (other_repositories db repository)).
Proof.
  unfold verify_database. rewrite in_flat_map. split.
  - intros ([repository images] & Hentry & Hin).
    apply in_flat_map in Hin as (image & Himage & Hf).
    exists repository, images, image. tauto.
  - intros (repository & images & image & Hentry & Himage & Hf).
    exists (repository, images). split; [exact Hentry|].
    apply in_flat_map. exists image. tauto.
Qed.


Lemma db_get_entry (db : ParentDb) (k : string) :
  In k (keys db) -> In (k, db_get db k) db.
Proof.
  induction db as [|[k' v'] db IH]; intros Hin; [destruct Hin|].
  cbn [db_get]. destruct (String.eqb_spec k' k) as [->|Hne];
    [left; reflexivity|].
  right. apply IH. destruct Hin as [Hk|Hin]; [contradiction | exact Hin].
Qed.

Lemma other_repositories_In (db : ParentDb) (r repo : string) :
  List.NoDup (keys db) ->
  In repo (other_repositories db r) <-> In repo (keys db) /\ repo <> r.
Proof. intros Hnd. apply (ResolverFacts.candidate_repositories_in db r repo Hnd). Qed.

(** Inside one repository the comparison loop has no [break]: every record
    with the layers of [image] is reported. *)
Lemma compare_images_complete repository image repo imgs x :
  In x imgs -> fs_layers image = fs_layers x ->
  forall b,
    In (mkFinding repository image repo x
          (if (created image - created x >? 0)%Z
           then ImageMoreRecent else ImageOlder))
       (compare_images repository image repo imgs b).2.
Proof.
  induction imgs as [|y imgs IH]; intros Hin Heq b; [destruct Hin|].
  cbn [compare_images].
  destruct (String.eqb_spec (fs_layers image) (fs_layers y)) as [Hy|Hy].
  - destruct (created image - created y >? 0)%Z eqn:Hgt.
    + specialize (fun H => IH H Heq false).
      destruct (compare_images repository image repo imgs false) as [flag found].
      cbn [snd] in *. destruct Hin as [->|Hin];
        [left; rewrite Hgt; reflexivity | right; apply IH; exact Hin].
    + specialize (fun H => IH H Heq b).
      destruct (compare_images repository image repo imgs b) as [flag found].
      cbn [snd] in *. destruct Hin as [->|Hin];
        [left; rewrite Hgt; reflexivity | right; apply IH; exact Hin].
  - destruct Hin as [->|Hin]; [contradiction|]. apply IH; assumption.
Qed.

Lemma compare_images_keeps_flag repository image repo imgs :
  (forall x, In x imgs -> fs_layers image = fs_layers x ->
             (created image <= created x)%Z) ->
  (compare_images repository image repo imgs true).1 = true.
Proof.
  intros Hold.
  destruct (compare_images repository image repo imgs true).1 eqn:Hflag;
    [reflexivity|].
  destruct (compare_images_flag _ _ _ _ _ Hflag) as [?|(f & Hf & Ho)];
    [discriminate|].
  destruct (compare_images_sound _ _ _ _ _ _ Hf) as (_ & _ & _ & Hin & Hl & Hiff).
  specialize (Hold _ Hin Hl). apply Hiff in Ho. lia.
Qed.

(** As long as no scanned repository holds a strictly older copy, the scan
    goes on: it reaches [ra] and reports every copy held there. *)
Lemma scan_others_reaches db repository image pre ra post a :
  (forall r' x, In r' pre -> In x (db_get db r') ->
     fs_layers image = fs_layers x -> (created image <= created x)%Z) ->
  In a (db_get db ra) -> fs_layers image = fs_layers a ->
  In (mkFinding repository image ra a
        (if (created image - created a >? 0)%Z
         then ImageMoreRecent else ImageOlder))
     (scan_others db repository image (pre ++ ra :: post)).
Proof.
  induction pre as [|r pre IH]; intros Hold Ha Heq; cbn [app scan_others].
  - pose proof (compare_images_complete repository image ra (db_get db ra) a
                  Ha Heq true) as Hall.
    destruct (compare_images repository image ra (db_get db ra) true)
      as [flag found]. cbn [snd] in Hall.
    destruct flag; [apply in_or_app; left|]; exact Hall.
  - pose proof (compare_images_keeps_flag repository image r (db_get db r)
                  (fun x Hx => Hold r x (or_introl eq_refl) Hx)) as Hflag.
    destruct (compare_images repository image r (db_get db r) true)
      as [flag found]. cbn [fst] in Hflag. subst flag.
    apply in_or_app. right. apply IH; [|assumption..].
    intros r' x Hr'. apply Hold. right. exact Hr'.
Qed.

(** Once a scanned repository holds a strictly older copy, the scan stops
    there or before: the record is marked against an older copy of one of
    these repositories, and no repository after them is compared. *)
Lemma scan_others_stops db repository image pre rest :
  (exists r' x, In r' pre /\ In x (db_get db r') /\
                fs_layers image = fs_layers x /\ (created x < created image)%Z) ->
  (exists r' x, In r' pre /\ In x (db_get db r') /\
                fs_layers image = fs_layers x /\ (created x < created image)%Z /\
                In (mkFinding repository image r' x ImageMoreRecent)
                   (scan_others db repository image (pre ++ rest))) /\
  (forall f, In f (scan_others db repository image (pre ++ rest)) ->
             In (repo f) pre).
Proof.
  induction pre as [|r pre IH]; intros (r' & x & Hr' & Hx & Heq & Hlt);
    [destruct Hr'|].
  cbn [app scan_others].
  pose proof (compare_images_sound repository image r (db_get db r) true) as Hsound.
  pose proof (compare_images_flag repository image r (db_get db r) true) as Hflag.
  pose proof (fun H => compare_images_older repository image r (db_get db r) x
                         H Heq Hlt true) as Holder.
  destruct (compare_images repository image r (db_get db r) true)
    as [flag found]. cbn [fst snd] in *.
  destruct flag.
  - assert (Hpre : In r' pre).
    { destruct Hr' as [->|Hr']; [|exact Hr'].
      specialize (Holder Hx). discriminate Holder. }
    destruct (IH (ex_intro _ r' (ex_intro _ x (conj Hpre (conj Hx (conj Heq Hlt))))))
      as [(r2 & x2 & H1 & H2 & H3 & H4 & H5) Hall].
    split.
    + exists r2, x2. split; [right; exact H1|]. repeat split; try assumption.
      apply in_or_app. right. exact H5.
    + intros f Hf. apply in_app_or in Hf as [Hf|Hf].
      * left. destruct (Hsound f Hf) as (_ & _ & Hrepo & _). symmetry. exact Hrepo.
      * right. exact (Hall f Hf).
  - split.
    + destruct (Hflag eq_refl) as [?|(f & Hf & Ho)]; [discriminate|].
      destruct (Hsound f Hf) as (H1 & H2 & H3 & H4 & H5 & H6).
      exists r, (img f). split; [left; reflexivity|]. split; [exact H4|].
      split; [exact H5|]. split; [apply H6; exact Ho|].
      destruct f as [fr fi fo fx fv]. cbn in *. subst. exact Hf.
    + intros f Hf. left. destruct (Hsound f Hf) as (_ & _ & Hrepo & _).
      symmetry. exact Hrepo.
Qed.

Import DuplicatesExamples.

(** C7 (amended). In a database with unique keys, take two records with
    equal layers in different repositories, [a] created strictly before [b].
    The report contains a resolution that marks [b] as more recent than a
    strictly older record with the same layers held by another repository.
    It is the record [a] itself when no repository scanned for [b] before
    the one of [a] holds a strictly older copy of [b]; when one does, the
    scan of [b] stopped at such an earlier repository: [b] is marked against
    an older copy held there, and no resolution of [b] involves the
    repository of [a] or a later one.  Every resolution that confronts [a]
    and [b] marks [b] as the republished copy and leaves [a] as the parent.
    In particular,
    with ["foo"] (created 100) and ["bar"] (created 200) both holding layers
    ["xyz"], both resolutions reported mark the record of ["bar"]. *)
Theorem verify_duplicates_flags_newer (db : ParentDb) (ra rb : string)
    (imgsa imgsb : list ImageRecord) (a b : ImageRecord) :
  List.NoDup (keys db) ->
  In (ra, imgsa) db -> In (rb, imgsb) db -> ra <> rb ->
  In a imgsa -> In b imgsb ->
  fs_layers a = fs_layers b ->
  (created a < created b)%Z ->
  (exists f,
     In f (verify_database db) /\ flags f rb b /\
     repo f <> rb /\ fs_layers (img f) = fs_layers b /\
     (created (img f) < created b)%Z) /\
  (exists pre post,
     other_repositories db rb = pre ++ ra :: post /\ ~ In ra pre /\
     ((forall r' x, In r' pre -> In x (db_get db r') ->
         fs_layers b = fs_layers x -> (created b <= created x)%Z) ->
      In (mkFinding rb b ra a ImageMoreRecent) (verify_database db)) /\
     ((exists r' x, In r' pre /\ In x (db_get db r') /\
                    fs_layers b = fs_layers x /\ (created x < created b)%Z) ->
      (exists r' x, In r' pre /\ In x (db_get db r') /\
                    fs_layers b = fs_layers x /\ (created x < created b)%Z /\
                    In (mkFinding rb b r' x ImageMoreRecent)
                       (verify_database db)) /\
      (forall f, In f (verify_database db) ->
                 repository f = rb -> image f = b -> In (repo f) pre))) /\
  (forall f, In f (verify_database db) -> confronts f ra a rb b ->
     flags f rb b /\ keeps f ra a) /\
  verify_duplicates (Sync.ReadDb foo_bar)
  = ([mkFinding "foo" foo_xyz "bar" bar_xyz ImageOlder;
      mkFinding "bar" bar_xyz "foo" foo_xyz ImageMoreRecent], None) /\
  (forall f, In f (verify_database foo_bar) -> flags f "bar" bar_xyz).
Proof.
  intros Hnd Hra Hrb Hne Ha Hb Heq Hlt.
  assert (Hother : forall r repo,
            In repo (other_repositories db r) <-> In repo (keys db) /\ repo <> r)
    by (intros r repo; apply (ResolverFacts.candidate_repositories_in db r repo Hnd)).
  assert (Hin_ra : In ra (other_repositories db rb)).
  { apply Hother. split; [|exact Hne].
    apply in_map_iff. exists (ra, imgsa). split; [reflexivity | exact Hra]. }
  assert (Ha' : In a (db_get db ra))
    by (rewrite (db_get_In db ra imgsa Hnd Hra); exact Ha).
  split; [|split; [|split; [|split]]].
  2:{ destruct (in_split _ _ Hin_ra) as (pre & post & Hsplit).
      exists pre, post. split; [exact Hsplit|].
      assert (Hpre : ~ In ra pre).
      { pose proof (ResolverFacts.candidate_repositories_NoDup db rb Hnd) as Hcnd.
        change (Resolver.candidate_repositories db rb)
          with (other_repositories db rb) in Hcnd.
        rewrite Hsplit in Hcnd. apply List.NoDup_remove_2 in Hcnd.
        intros Hin. apply Hcnd. apply in_or_app. left. exact Hin. }
      split; [exact Hpre|]. split.
      - intros Hold. apply verify_database_In. exists rb, imgsb, b.
        split; [exact Hrb|]. split; [exact Hb|]. rewrite Hsplit.
        pose proof (scan_others_reaches db rb b pre ra post a Hold Ha'
                      (eq_sym Heq)) as Hreach.
        destruct (Z.gtb_spec (created b - created a) 0); [exact Hreach | lia].
      - intros Hstop.
        destruct (scan_others_stops db rb b pre (ra :: post) Hstop)
          as [(r' & x & H1 & H2 & H3 & H4 & H5) Hall].
        split.
        + exists r', x. repeat split; try assumption.
          apply verify_database_In. exists rb, imgsb, b.
          split; [exact Hrb|]. split; [exact Hb|]. rewrite Hsplit. exact H5.
        + intros f Hf Hfr Hfi.
          apply verify_database_In in Hf as (r & imgs & y & _ & _ & Hf).
          destruct (scan_others_sound _ _ _ _ _ Hf) as (Hr & Hi & _).
          rewrite Hfr in Hr. rewrite Hfi in Hi. subst r y.
          rewrite Hsplit in Hf. exact (Hall f Hf). }
  - destruct (scan_others_flags db rb b (other_repositories db rb) ra a)
      as (f & Hf & Ho).
    + apply Hother. split; [|exact Hne].
      apply in_map_iff. exists (ra, imgsa). split; [reflexivity | exact Hra].
    + rewrite (db_get_In db ra imgsa Hnd Hra). exact Ha.
    + symmetry. exact Heq.
    + exact Hlt.
    + destruct (scan_others_sound _ _ _ _ _ Hf)
        as (Hr & Hi & Hrepo & _ & Hl & Hiff).
      exists f. split.
      { apply verify_database_In. exists rb, imgsb, b. tauto. }
      split; [unfold flags; rewrite Ho; tauto|].
      split; [apply Hother in Hrepo; tauto|].
      split; [symmetry; exact Hl | apply Hiff; exact Ho].
  - intros f Hf Hconf.
    apply verify_database_In in Hf as (r & imgs & x & _ & _ & Hf).
    destruct (scan_others_sound _ _ _ _ _ Hf) as (Hr & Hi & _ & _ & _ & Hiff).
    unfold flags, keeps.
    destruct Hconf as [(H1 & H2 & H3 & H4)|(H1 & H2 & H3 & H4)].
    + destruct (outcome f) eqn:Ho.
      * exfalso. assert (created (img f) < created x)%Z by (apply Hiff; reflexivity).
        rewrite H4 in *. rewrite <- Hi, H2 in *. lia.
      * tauto.
    + destruct (outcome f) eqn:Ho.
      * tauto.
      * exfalso. assert (Himp : (created (img f) < created x)%Z -> False).
        { intros Hc. apply Hiff in Hc. discriminate. }
        apply Himp. rewrite H4. rewrite <- Hi, H2. exact Hlt.
  - reflexivity.
  - simpl. intros f [<-|[<-|[]]]; unfold flags; simpl; tauto.
Qed.

Lemma verify_duplicates_flags_newer_witness :
  exists f,
    In f (verify_database foo_bar) /\ flags f "bar" bar_xyz /\
    repo f <> "bar" /\ fs_layers (img f) = fs_layers bar_xyz /\
    (created (img f) < created bar_xyz)%Z.
Proof.
  apply (verify_duplicates_flags_newer foo_bar "foo" "bar" [foo_xyz] [bar_xyz]
           foo_xyz bar_xyz).
  - simpl. ResolverFacts.solve_NoDup.
  - simpl. auto.
  - simpl. auto.
  - discriminate.
  - simpl. auto.
  - simpl. auto.
  - reflexivity.
  - reflexivity.
Defined.

(** C7, the claim as stated fails: ["foo"]'s record is created before
    ["bar"]'s, with equal layers, but ["base"] holds an older copy and is
    scanned first.  The scans of both records stop there: no resolution
    confronts the two, and ["foo"]'s record, far from being designated the
    owner, is itself marked as a republished copy in every resolution that
    involves it. *)
Lemma verify_duplicates_pair_not_resolved :
  In ("foo", [foo_xyz]) base_foo_bar /\ In ("bar", [bar_xyz]) base_foo_bar /\
  fs_layers foo_xyz = fs_layers bar_xyz /\
  (created foo_xyz < created bar_xyz)%Z /\
  verify_database base_foo_bar
  = [mkFinding "base" base_xyz "foo" foo_xyz ImageOlder;
     mkFinding "base" base_xyz "bar" bar_xyz ImageOlder;
     mkFinding "foo" foo_xyz "base" base_xyz ImageMoreRecent;
     mkFinding "bar" bar_xyz "base" base_xyz ImageMoreRecent] /\
  (forall f, In f (verify_database base_foo_bar) ->
     ~ confronts f "foo" foo_xyz "bar" bar_xyz) /\
  (forall f, In f (verify_database base_foo_bar) -> ~ keeps f "foo" foo_xyz) /\
  (exists f, In f (verify_database base_foo_bar) /\ flags f "foo" foo_xyz).
Proof.
  split; [simpl; auto|]. split; [simpl; auto|].
  split; [reflexivity|]. split; [reflexivity|]. split; [reflexivity|].
  split; [|split].
  - simpl. intros f [<-|[<-|[<-|[<-|[]]]]]; unfold confronts; simpl;
      intros [(H1 & H2 & H3 & H4)|(H1 & H2 & H3 & H4)]; discriminate.
  - simpl. intros f [<-|[<-|[<-|[<-|[]]]]]; unfold keeps; simpl;
      intros [H1 H2]; discriminate.
  - exists (mkFinding "foo" foo_xyz "base" base_xyz ImageMoreRecent).
    split; [simpl; auto|]. unfold flags. simpl. auto.
Qed.
End DuplicatesFacts.

(** ** More about the layer extractor *)

Module ExtractorMore.
Import Extractor ExtractorFacts.

Lemma flat_map_ext_In {A B} (f g : A -> list B) (l : list A) :
  (forall a, In a l -> f a = g a) -> flat_map f l = flat_map g l.
Proof.
  induction l as [|x l IH]; intros H; [reflexivity|].
  simpl. rewrite (H x) by (left; reflexivity). f_equal.
  apply IH. intros a Ha. apply H. right. exact Ha.
Qed.

(** The effects of a loop over the last [m] attempts: the pulls in order,
    a pause of thirty seconds after some of them, never after the last. *)
Lemma retry_loop_effects name pulls m :
  forall fs done, 1 <= m <= 4 ->
    exists k slept,
      1 <= k <= m /\ slept (5 - m + k - 1) = false /\
      effects (retry_loop name pulls (seq (5 - m) m) fs false done)
      = done ++ flat_map
                  (fun j => Pulls j :: if slept j : bool
                                       then [Sleeps retrials_wait_time] else [])
                  (seq (5 - m) k).
Proof.
  induction m as [|m IH]; intros fs done Hm; [lia|].
  cbn [seq retry_loop].
  assert (Hstop : forall r, effects r = done ++ [Pulls (5 - S m)] ->
            exists k slept,
              1 <= k <= S m /\ slept (5 - S m + k - 1) = false /\
              effects r
              = done ++ flat_map
                  (fun j => Pulls j :: if slept j : bool
                                       then [Sleeps retrials_wait_time] else [])
                  (seq (5 - S m) k)).
  { intros r Hr. exists 1, (fun _ => false). split; [lia|]. split; [reflexivity|].
    rewrite Hr. reflexivity. }
  assert (Hgo : forall fs' (sl : bool),
            (sl = true -> m <> 0) ->
            exists k slept,
              1 <= k <= S m /\ slept (5 - S m + k - 1) = false /\
              effects (retry_loop name pulls (seq (S (5 - S m)) m) fs' false
                         ((done ++ [Pulls (5 - S m)])
                            ++ if sl then [Sleeps retrials_wait_time] else []))
              = done ++ flat_map
                  (fun j => Pulls j :: if slept j : bool
                                       then [Sleeps retrials_wait_time] else [])
                  (seq (5 - S m) k)).
  { intros fs' sl Hsl. destruct m as [|m'].
    - exists 1, (fun _ => false). split; [lia|]. split; [reflexivity|].
      destruct sl; [exfalso; apply Hsl; reflexivity|].
      simpl. rewrite app_nil_r. reflexivity.
    - replace (S (5 - S (S m'))) with (5 - S m') by lia.
      destruct (IH fs' ((done ++ [Pulls (5 - S (S m'))])
                          ++ if sl then [Sleeps retrials_wait_time] else []))
        as (k & slept & Hk & Hlast & Heff); [lia|].
      exists (S k), (fun j => if (j =? 5 - S (S m'))%nat then sl else slept j).
      split; [lia|]. split.
      + destruct (Nat.eqb_spec (5 - S (S m') + S k - 1) (5 - S (S m'))); [lia|].
        rewrite <- Hlast. f_equal. lia.
      + rewrite Heff. cbn [seq flat_map]. rewrite Nat.eqb_refl.
        rewrite <- !app_assoc. cbn [app]. f_equal. f_equal.
        replace (S (5 - S (S m'))) with (5 - S m') by lia.
        f_equal. apply flat_map_ext_In. intros j Hj. apply in_seq in Hj.
        destruct (Nat.eqb_spec j (5 - S (S m'))); [lia | reflexivity]. }
  destruct (consume name fs (lines (pulls (5 - S m))) (ending (pulls (5 - S m))))
    as [x|x|x ex].
  - rewrite retry_loop_retrieved. apply Hstop. reflexivity.
  - specialize (Hgo x false ltac:(discriminate)). cbn [app] in Hgo.
    rewrite app_nil_r in Hgo. exact Hgo.
  - destruct ex; try (apply Hstop; reflexivity).
    destruct (contains incompatible_platform msg); [apply Hstop; reflexivity|].
    destruct (Nat.ltb_spec (5 - S m) (retrials - 1)) as [Hlt|Hge].
    + apply (Hgo _ true). intros _. unfold retrials in Hlt. lia.
    + specialize (Hgo (if contains "docker login" msg then x else "") false
                      ltac:(discriminate)).
      cbn [app] in Hgo. rewrite app_nil_r in Hgo. exact Hgo.
Qed.


(** Whatever the registry answers, [get_layers_image] makes at least one
    and at most four attempts, numbered from 1 ([Pulls k] marks the start of
    the attempt [k]: the client is created, logs in and pulls); it pauses
    only for thirty seconds, only right after an attempt, and never after its
    last attempt. *)
Theorem get_layers_image_pacing (name : string) (pulls : nat -> Pull) :
  exists k slept,
    1 <= k <= 4 /\ slept k = false /\
    effects (get_layers_image name pulls)
    = flat_map (fun j => Pulls j :: if slept j : bool then [Sleeps 30] else [])
               (seq 1 k).
Proof.
  destruct (retry_loop_effects name pulls 4 "" [] ltac:(lia))
    as (k & slept & Hk & Hlast & Heff).
  exists k, slept. split; [exact Hk|]. split.
  - rewrite <- Hlast. f_equal. lia.
  - exact Heff.
Qed.

Lemma retry_loop_no_APIError name pulls todo :
  forall fs b done msg,
    outcome (retry_loop name pulls todo fs b done) <> Raise (APIError msg).
Proof.
  induction todo as [|retrial rest IH]; intros fs b done msg; [discriminate|].
  cbn [retry_loop]. destruct b; [discriminate|].
  destruct (consume name fs (lines (pulls retrial)) (ending (pulls retrial)))
    as [x|x|x ex]; try apply IH.
  destruct ex; try discriminate.
  destruct (contains incompatible_platform msg0); [discriminate|].
  destruct (retrial <? retrials - 1)%nat; apply IH.
Qed.

(** No [docker.errors.APIError] ever leaves [get_layers_image]: whether the
    client raises it or an error line of the stream provokes it, the handler
    of the loop consumes it and the call returns a string. *)
Theorem get_layers_image_catches_APIError (name : string) (pulls : nat -> Pull)
    (msg : string) :
  outcome (get_layers_image name pulls) <> Raise (APIError msg).
Proof. apply retry_loop_no_APIError. Qed.

(** When an attempt entered afresh meets the incompatible-platform signal (an
    [APIError] whose text holds ["cannot be used on this platform"], which is
    also what an error line holding that text or ["no matching manifest"]
    provokes), the call ends at once: no retry, no pause, and it returns
    whatever identifiers the attempt had gathered by then. *)
Theorem get_layers_image_incompatible_platform (name : string)
    (pulls : nat -> Pull) (k : nat) (fs msg : string) :
  1 <= k <= 4 ->
  (forall j, 1 <= j < k -> fails_transiently name (pulls j)) ->
  consume name "" (lines (pulls k)) (ending (pulls k)) = Raised fs (APIError msg) ->
  contains incompatible_platform msg = true ->
  get_layers_image name pulls
  = mkRun (Return fs) (failed_effects (k - 1) ++ [Pulls k]).
Proof.
  intros Hk Hfail Hraise Hplat.
  rewrite (get_layers_image_attempt name pulls k Hk Hfail).
  cbn [retry_loop]. rewrite Hraise, Hplat. reflexivity.
Qed.

Lemma get_layers_image_incompatible_platform_witness :
  get_layers_image "mcr.microsoft.com/windows"
    (fun _ => mkPull [ExtractorExamples.layer "aaaaaaaaaaaa";
                      ExtractorExamples.failure
                        "no matching manifest for linux/amd64 in the manifest list"]
                     StreamEnd)
  = mkRun (Return "aaaaaaaaaaaa") [Pulls 1].
Proof.
  apply (get_layers_image_incompatible_platform "mcr.microsoft.com/windows" _ 1
           "aaaaaaaaaaaa" incompatible_platform).
  - lia.
  - intros j Hj. lia.
  - reflexivity.
  - reflexivity.
Defined.

Lemma retry_loop_exhausted name pulls retrial rest fs done :
  Forall passes (lines (pulls retrial)) ->
  ending (pulls retrial) = StreamEnd ->
  retry_loop name pulls (retrial :: rest) fs false done
  = retry_loop name pulls rest (fs +:+ layer_tokens (lines (pulls retrial))) false
               (done ++ [Pulls retrial]).
Proof.
  intros Hpass Hend. cbn [retry_loop].
  rewrite <- (app_nil_r (lines (pulls retrial))).
  rewrite consume_passes by exact Hpass. rewrite app_nil_r.
  cbn [consume]. rewrite Hend. reflexivity.
Qed.

(** When no stream ever reaches a ["Downloading"] line (every layer is
    already present, say: the lines pass and the streams end normally), the
    loop never notices that the layers are known.  It pulls four times without
    pause and returns the identifiers of the four streams one after the
    other: an image whose layers are all cached comes back with its layer
    sequence repeated four times. *)
Theorem get_layers_image_without_download (name : string) (pulls : nat -> Pull) :
  (forall j, 1 <= j <= 4 ->
     Forall passes (lines (pulls j)) /\ ending (pulls j) = StreamEnd) ->
  get_layers_image name pulls
  = mkRun (Return (layer_tokens (lines (pulls 1))
                   +:+ layer_tokens (lines (pulls 2))
                   +:+ layer_tokens (lines (pulls 3))
                   +:+ layer_tokens (lines (pulls 4))))
          [Pulls 1; Pulls 2; Pulls 3; Pulls 4].
Proof.
  intros H. unfold get_layers_image, retrial_range.
  cbn [retrials Nat.add Nat.sub seq].
  rewrite !retry_loop_exhausted by (apply H; lia).
  cbn [retry_loop app]. rewrite !append_assoc. reflexivity.
Qed.

Lemma get_layers_image_without_download_witness :
  get_layers_image "redis"
    (fun _ => mkPull [ExtractorExamples.cached "aaaaaaaaaaaa";
                      mkLine (Some "Digest: sha256:0f1d") None None] StreamEnd)
  = mkRun (Return "aaaaaaaaaaaaaaaaaaaaaaaaaaaaaaaaaaaaaaaaaaaaaaaa")
          [Pulls 1; Pulls 2; Pulls 3; Pulls 4].
Proof.
  apply (get_layers_image_without_download "redis"
           (fun _ => mkPull [ExtractorExamples.cached "aaaaaaaaaaaa";
                             mkLine (Some "Digest: sha256:0f1d") None None]
                            StreamEnd)).
  intros j _. split; [|reflexivity].
  repeat constructor; unfold passes; simpl; congruence.
Defined.
End ExtractorMore.

(** ** More about the repository extraction *)

Module ExtractionMore.
Import Extractor Hub Extraction ExtractionFacts.

(** What a record appended by [insert_image] is made of. *)
Lemma insert_image_record api repository tag fs images images' :
  insert_image api repository tag fs images = Return images' ->
  images' = images \/
  exists r, images' = images ++ [r] /\ fs_layers r = fs /\ image_tag r = tag /\
            fs <> "" /\
            microbadger_tag api repository tag = Some (created r) /\
            (Hub.repository_tag api repository tag = TagObject (Time (last_updated r))
             \/ (Hub.repository_tag api repository tag = TagObject NoTime /\
                 last_updated r = 0%Z)).
Proof.
  unfold insert_image.
  destruct (String.eqb_spec fs "") as [->|Hne]; [intros [= <-]; auto|].
  destruct (already_retrieved fs images); [intros [= <-]; auto|].
  destruct (Hub.repository_tag api repository tag) as [|lu] eqn:Hlu;
    [intros [= <-]; auto|].
  destruct lu as [| |t]; try discriminate;
    destruct (microbadger_tag api repository tag) as [c|] eqn:Hc;
    intros [= <-]; auto; right; eexists; repeat split; eauto.
Qed.

Lemma extract_tags_records api repository all tags :
  forall images images' (P : ImageRecord -> Prop),
    (forall r,
       fs_layers r <> "" -> In (image_tag r) all ->
       retry_official (pulls api repository (image_tag r)) retrial_range "" false
         = Return (fs_layers r) ->
       microbadger_tag api repository (image_tag r) = Some (created r) ->
       (Hub.repository_tag api repository (image_tag r)
          = TagObject (Time (last_updated r))
        \/ (Hub.repository_tag api repository (image_tag r) = TagObject NoTime /\
            last_updated r = 0%Z)) ->
       P r) ->
    incl tags all ->
    Forall P images ->
    extract_tags api repository tags images = Return images' ->
    Forall P images'.
Proof.
  induction tags as [|tag tags IH]; intros images images' P HP Hincl Hall.
  - intros [= <-]. exact Hall.
  - cbn [extract_tags].
    destruct (retry_official _ _ _ _) as [fs|] eqn:Hfs; [|discriminate].
    destruct (insert_image api repository tag fs images) as [images1|] eqn:Hins;
      [|discriminate].
    apply IH; [exact HP | intros x Hx; apply Hincl; right; exact Hx |].
    destruct (insert_image_record _ _ _ _ _ _ Hins)
      as [->|(r & -> & Hr & Ht & Hne & Hc & Hlu)]; [exact Hall|].
    apply Forall_app. split; [exact Hall|]. constructor; [|constructor].
    apply HP.
    + rewrite Hr. exact Hne.
    + rewrite Ht. apply Hincl. left. reflexivity.
    + rewrite Ht, Hr. exact Hfs.
    + rewrite Ht. exact Hc.
    + rewrite Ht. exact Hlu.
Qed.

(** Every record that [get_layers_official_repository] returns is backed by
    what was observed for its tag: the tag is one the registry lists, the
    layers are those its pulls yielded and are not empty, the creation time is
    the one MicroBadger reports, and ["last_updated"] is the time Docker Hub
    reports, or [0] when Docker Hub reports none. *)
Theorem get_layers_official_repository_records (api : API) (repository : string)
    (images : list ImageRecord) :
  get_layers_official_repository api repository = Return images ->
  Forall
    (fun r =>
       fs_layers r <> "" /\
       In (image_tag r) (repository_tags api repository) /\
       retry_official (pulls api repository (image_tag r)) retrial_range "" false
         = Return (fs_layers r) /\
       microbadger_tag api repository (image_tag r) = Some (created r) /\
       (Hub.repository_tag api repository (image_tag r)
          = TagObject (Time (last_updated r))
        \/ (Hub.repository_tag api repository (image_tag r) = TagObject NoTime /\
            last_updated r = 0%Z)))
    images.
Proof.
  intros Hrun.
  apply (extract_tags_records api repository (repository_tags api repository)
           (repository_tags api repository) [] images);
    [tauto | apply incl_refl | constructor | exact Hrun].
Qed.

Lemma get_layers_official_repository_records_witness :
  Forall
    (fun r =>
       fs_layers r <> "" /\
       In (image_tag r) (repository_tags ExtractionExamples.redis_api "redis") /\
       retry_official (pulls ExtractionExamples.redis_api "redis" (image_tag r))
                      retrial_range "" false
         = Return (fs_layers r) /\
       microbadger_tag ExtractionExamples.redis_api "redis" (image_tag r)
         = Some (created r) /\
       (Hub.repository_tag ExtractionExamples.redis_api "redis" (image_tag r)
          = TagObject (Time (last_updated r))
        \/ (Hub.repository_tag ExtractionExamples.redis_api "redis" (image_tag r)
              = TagObject NoTime /\
            last_updated r = 0%Z)))
    [mkImage "aaaaaaaaaaaabbbbbbbbbbbb" "7" 200 190;
     mkImage "aaaaaaaaaaaa" "6" 100 90].
Proof.
  apply (get_layers_official_repository_records ExtractionExamples.redis_api "redis").
  reflexivity.
Defined.

(** An attempt of the official extraction whose pull raises an [APIError]. *)
Lemma retry_official_all_fail pulls todo :
  (forall j, In j todo ->
     forall fs, exists fs' msg,
       consume_official fs (lines (pulls j)) (ending (pulls j))
       = Raised fs' (APIError msg)) ->
  forall fs, fs = "" \/ todo <> [] ->
  retry_official pulls todo fs false = Return "".
Proof.
  induction todo as [|j todo IH]; intros Hfail fs Hfs.
  - destruct Hfs as [->|Hne]; [reflexivity | congruence].
  - cbn [retry_official].
    destruct (Hfail j (or_introl eq_refl) fs) as (fs' & msg & ->).
    apply IH; [|left; reflexivity].
    intros i Hi. apply Hfail. right. exact Hi.
Qed.

Lemma extract_tags_nothing api repository tags :
  (forall tag, In tag tags ->
     retry_official (pulls api repository tag) retrial_range "" false = Return "") ->
  forall images, extract_tags api repository tags images = Return images.
Proof.
  induction tags as [|tag tags IH]; intros Hnone images; [reflexivity|].
  cbn [extract_tags]. rewrite (Hnone tag (or_introl eq_refl)).
  unfold insert_image at 1. cbn [String.eqb].
  apply IH. intros t Ht. apply Hnone. right. exact Ht.
Qed.

(** When every pull of every tag of a repository raises an [APIError], of
    whatever kind, the official extraction discards what each attempt had
    gathered, looks up no metadata, and returns the empty list: the
    repository yields no record. *)
Theorem get_layers_official_repository_all_pulls_fail (api : API)
    (repository : string) :
  (forall tag j, In tag (repository_tags api repository) -> 1 <= j <= 4 ->
     forall fs, exists fs' msg,
       consume_official fs (lines (pulls api repository tag j))
                        (ending (pulls api repository tag j))
       = Raised fs' (APIError msg)) ->
  get_layers_official_repository api repository = Return [].
Proof.
  intros Hfail. apply extract_tags_nothing. intros tag Htag.
  apply retry_official_all_fail; [|left; reflexivity].
  intros j Hj. apply Hfail; [exact Htag|].
  unfold retrial_range, retrials in Hj. apply in_seq in Hj. lia.
Qed.

Lemma get_layers_official_repository_all_pulls_fail_witness :
  get_layers_official_repository
    (mkAPI (fun _ => ["7"; "6"]) (fun _ _ => TagQueryFailed) (fun _ _ => None)
           (fun _ _ _ => mkPull [ExtractorExamples.layer "aaaaaaaaaaaa"]
                                (StreamRaises (APIError "500 Server Error"))))
    "redis"
  = Return [].
Proof.
  apply get_layers_official_repository_all_pulls_fail.
  intros tag j _ _ fs. exists (fs +:+ "aaaaaaaaaaaa"), "500 Server Error".
  reflexivity.
Defined.

End ExtractionMore.

(** ** More about the synchronisation *)

Module SyncMore.
Import Extractor Hub Sync SyncFacts.

(** *** The watermark is a lower estimate *)

Lemma fold_max_ge (ts : list Z) : forall m, (m <= fold_left Z.max ts m)%Z.
Proof.
  induction ts as [|t ts IH]; intros m; simpl; [lia|].
  specialize (IH (Z.max m t)). lia.
Qed.

(** Stopping the scan early can only lower the watermark: it lies between
    [0] and the newest ["last_updated"] of all the stored records, so a
    repository whose latest tag is newer than every stored record is always
    found to be out of date. *)
Theorem watermark_below_newest (images : list ImageRecord) :
  (0 <= watermark images <= max_time (map last_updated images))%Z.
Proof.
  unfold watermark, watermark_scan, max_time.
  destruct (watermark_loop_spec images (mkScan 0 0 []))
    as (new & rest & Himages & _ & Hmax & _);
    [simpl; unfold threshold; lia|].
  cbn [last_updated_time] in Hmax. rewrite Hmax.
  split; [apply fold_max_ge|].
  subst images. rewrite map_app, fold_left_app. apply fold_max_ge.
Qed.

(** *** What the update pass keeps of a record *)

Section Kept.
Variable Q : ImageRecord -> Prop.
Hypothesis Q_same :
  forall r r', Q r -> image_tag r' = image_tag r -> created r' = created r -> Q r'.

Lemma update_image_Forall x y l :
  Forall Q l -> Q y -> Forall Q (update_image x y l).
Proof.
  intros Hl Hy. unfold update_image.
  destruct (index_image x l); [|exact Hl].
  apply Forall_insert; assumption.
Qed.

Lemma remove_image_Forall x l : Forall Q l -> Forall Q (remove_image x l).
Proof.
  induction 1 as [|y l Hy Hl IH]; simpl; [constructor|].
  destruct (decide (y = x)); [exact Hl | constructor; assumption].
Qed.

Lemma inner_step_Forall api repository tag layers image p p' :
  Q image -> Forall Q (images p) ->
  inner_step api repository tag layers image p = Return p' ->
  Forall Q (images p').
Proof.
  intros Hi Hl. unfold inner_step.
  destruct (String.eqb (fs_layers image) layers).
  - destruct (checked_time _) as [[t|]|]; try discriminate; intros [= <-]; simpl;
      [|exact Hl].
    destruct (t >? last_updated image)%Z; [|exact Hl].
    apply update_image_Forall; [exact Hl|]. apply (Q_same image); auto.
  - destruct (String.eqb (image_tag image) tag); [|intros [= <-]; exact Hl].
    destruct (decide (layers ∈ added p)).
    + intros [= <-]. simpl. apply remove_image_Forall. exact Hl.
    + destruct (checked_time _) as [[t|]|]; try discriminate; intros [= <-];
        simpl; [|exact Hl].
      apply update_image_Forall; [exact Hl|]. apply (Q_same image); auto.
Qed.

Lemma inner_loop_Forall api repository tag layers fuel :
  forall pos p p',
    Forall Q (images p) ->
    inner_loop fuel api repository tag layers pos p = Return p' ->
    Forall Q (images p').
Proof.
  induction fuel as [|fuel IH]; intros pos p p' Hl; cbn [inner_loop].
  - intros [= <-]. exact Hl.
  - destruct (images p !! pos) as [image|] eqn:Hpos; [|intros [= <-]; exact Hl].
    destruct (inner_step api repository tag layers image p) as [p1|] eqn:Hstep;
      [|discriminate].
    apply IH. apply (inner_step_Forall _ _ _ _ _ _ _ (proj1 (Forall_lookup _ _) Hl _ _ Hpos) Hl Hstep).
Qed.

End Kept.

Lemma tags_loop_kept api repository all (Q : ImageRecord -> Prop) :
  (forall r r', Q r -> image_tag r' = image_tag r -> created r' = created r -> Q r') ->
  (forall r, In (image_tag r) all ->
             microbadger_tag api repository (image_tag r) = Some (created r) ->
             Q r) ->
  forall tags p p',
    incl tags all ->
    Forall Q (images p) ->
    tags_loop api repository tags p = Return p' ->
    Forall Q (images p').
Proof.
  intros Hsame Hnew.
  induction tags as [|tag tags IH]; intros p p' Hincl Hl; cbn [tags_loop].
  - intros [= <-]. exact Hl.
  - destruct (non_updated_threshold <=? n p)%nat; [intros [= <-]; exact Hl|].
    destruct (outcome _) as [layers|]; [|discriminate].
    assert (Hrest : incl tags all) by (intros x Hx; apply Hincl; right; exact Hx).
    destruct (String.eqb layers ""); [apply IH; [exact Hrest | exact Hl]|].
    cbn [images].
    destruct (inner_loop _ _ _ _ _ _ _) as [p1|] eqn:Hloop; [|discriminate].
    apply (inner_loop_Forall Q Hsame) in Hloop; [|exact Hl].
    destruct (add_new_image api repository tag layers p1) as [p2|] eqn:Hadd;
      [|discriminate].
    apply IH; [exact Hrest|].
    revert Hadd. unfold add_new_image.
    destruct (negb (is_image_updated p1) && _); [|intros [= <-]; exact Hloop].
    destruct (checked_time _) as [[t|]|]; try discriminate;
      [|intros [= <-]; exact Hloop].
    destruct (microbadger_tag api repository tag) as [c|] eqn:Hc;
      [|intros [= <-]; exact Hloop].
    intros [= <-]. cbn [images]. apply Forall_app. split; [exact Hloop|].
    constructor; [|constructor]. apply Hnew; cbn [image_tag created].
    + apply Hincl. left. reflexivity.
    + exact Hc.
Qed.

(** The update pass never rewrites the tag or the creation time of a stored
    record: every record it returns either carries the tag and the creation
    time of a record stored before the pass (its layers and its
    ["last_updated"] may have been replaced, so an image updated under its
    tag keeps the creation time of the image it replaces), or was appended
    for a tag the registry lists, with the creation time MicroBadger gives
    for that tag. *)
Theorem update_pass_keeps_tag_and_created (api : API) (repository : string)
    (stored updated : list ImageRecord) :
  update_pass api repository stored = Return updated ->
  Forall
    (fun r' =>
       (exists r, In r stored /\ image_tag r' = image_tag r /\
                  created r' = created r)
       \/ (In (image_tag r') (repository_tags api repository) /\
           microbadger_tag api repository (image_tag r') = Some (created r')))
    updated.
Proof.
  unfold update_pass.
  destruct (tags_loop _ _ _ _) as [p|] eqn:Hloop; [|discriminate].
  intros [= <-].
  apply (tags_loop_kept api repository (repository_tags api repository)
           (fun r' =>
              (exists r, In r stored /\ image_tag r' = image_tag r /\
                         created r' = created r)
              \/ (In (image_tag r') (repository_tags api repository) /\
                  microbadger_tag api repository (image_tag r') = Some (created r')))
           ) with (tags := repository_tags api repository)
                  (p := mkPass stored ∅ 0 false).
  - intros r r' [(r0 & Hin & Ht & Hc)|[Hin Hc]] Htag Hcreated.
    + left. exists r0. split; [exact Hin|]. split; congruence.
    + right. rewrite Htag, Hcreated. split; assumption.
  - intros r Hin Hc. right. split; assumption.
  - apply incl_refl.
  - cbn [images]. apply List.Forall_forall. intros r Hr. left. exists r. auto.
  - exact Hloop.
Qed.

Lemma update_pass_keeps_tag_and_created_witness :
  Forall
    (fun r' =>
       (exists r, In r [SyncExamples.rec6] /\ image_tag r' = image_tag r /\
                  created r' = created r)
       \/ (In (image_tag r')
              (repository_tags
                 (mkAPI (fun _ => ["6"]) (fun _ _ => TagObject (Time 200))
                        (fun _ _ => Some 190%Z)
                        (pulls (SyncExamples.redis7 None))) "redis") /\
           microbadger_tag
             (mkAPI (fun _ => ["6"]) (fun _ _ => TagObject (Time 200))
                    (fun _ _ => Some 190%Z)
                    (pulls (SyncExamples.redis7 None))) "redis" (image_tag r')
           = Some (created r')))
    [mkImage SyncExamples.layers7 "6" 200 90].
Proof.
  apply (update_pass_keeps_tag_and_created
           (mkAPI (fun _ => ["6"]) (fun _ _ => TagObject (Time 200))
                  (fun _ _ => Some 190%Z) (pulls (SyncExamples.redis7 None)))
           "redis" [SyncExamples.rec6]).
  vm_compute. reflexivity.
Defined.

(** *** A repository that did not change upstream *)

(** A stored record is in step with the tag [tag], whose pull yields
    [layers]: when it holds these layers the tag request answers and its
    time is not newer than the record's; when it holds other layers it is
    not stored under this tag. *)
Lemma inner_step_in_step api repository tag layers image p :
  (fs_layers image = layers ->
   exists lu, Hub.repository_tag api repository tag = TagObject lu /\
              forall t, lu = Time t -> (t <= last_updated image)%Z) ->
  (fs_layers image <> layers -> image_tag image <> tag) ->
  inner_step api repository tag layers image p
  = Return (mkPass (images p) (added p)
                   (if String.eqb (fs_layers image) layers then n p + 1 else n p)
                   (is_image_updated p || String.eqb (fs_layers image) layers)).
Proof.
  intros Hsame Hother. unfold inner_step.
  destruct (String.eqb_spec (fs_layers image) layers) as [Heq|Hne].
  - destruct (Hsame Heq) as (lu & -> & Hlu). rewrite orb_true_r.
    destruct lu as [| |t]; cbn [checked_time]; try reflexivity.
    specialize (Hlu t eq_refl).
    destruct (Z.gtb_spec t (last_updated image)); [lia | reflexivity].
  - rewrite orb_false_r.
    destruct (String.eqb_spec (image_tag image) tag) as [Ht|_];
      [destruct (Hother Hne Ht)|].
    destruct p; reflexivity.
Qed.

Lemma inner_loop_in_step api repository tag layers stored :
  (forall r, In r stored ->
     (fs_layers r = layers ->
      exists lu, Hub.repository_tag api repository tag = TagObject lu /\
                 forall t, lu = Time t -> (t <= last_updated r)%Z) /\
     (fs_layers r <> layers -> image_tag r <> tag)) ->
  forall fuel pos a k b,
  exists k',
    inner_loop fuel api repository tag layers pos (mkPass stored a k b)
    = Return (mkPass stored a k'
                (b || existsb (fun r => String.eqb (fs_layers r) layers)
                              (take fuel (drop pos stored)))).
Proof.
  intros Hstep.
  induction fuel as [|fuel IH]; intros pos a k b; cbn [inner_loop].
  - exists k. rewrite take_0. cbn [existsb]. rewrite orb_false_r. reflexivity.
  - cbn [images]. destruct (stored !! pos) as [image|] eqn:Hpos.
    + assert (Hin : In image stored).
      { apply list_elem_of_In. eapply list_elem_of_lookup_2. exact Hpos. }
      destruct (Hstep image Hin) as [Hsame Hother].
      rewrite (inner_step_in_step api repository tag layers image _ Hsame Hother).
      cbn [images added n is_image_updated].
      destruct (IH (pos + 1)
                   a (if String.eqb (fs_layers image) layers then k + 1 else k)
                   (b || String.eqb (fs_layers image) layers)) as (k' & ->).
      exists k'. rewrite (drop_S _ _ _ Hpos). cbn [take existsb].
      rewrite Nat.add_1_r, orb_assoc. reflexivity.
    + exists k. rewrite drop_ge by (apply lookup_ge_None; exact Hpos).
      rewrite take_nil. cbn [existsb]. rewrite orb_false_r. reflexivity.
Qed.

Lemma tags_loop_in_step api repository stored :
  forall tags,
    (forall tag, In tag tags ->
       exists layers,
         outcome (get_layers_image repository (pulls api repository tag))
         = Return layers /\
         (layers = "" \/
          ((exists r, In r stored /\ fs_layers r = layers) /\
           forall r, In r stored ->
             (fs_layers r = layers ->
              exists lu, Hub.repository_tag api repository tag = TagObject lu /\
                         forall t, lu = Time t -> (t <= last_updated r)%Z) /\
             (fs_layers r <> layers -> image_tag r <> tag)))) ->
    forall a k b,
    exists k' b',
      tags_loop api repository tags (mkPass stored a k b)
      = Return (mkPass stored a k' b').
Proof.
  induction tags as [|tag tags IH]; intros Htags a k b; cbn [tags_loop].
  - exists k, b. reflexivity.
  - cbn [n images added].
    destruct (non_updated_threshold <=? k)%nat; [exists k, b; reflexivity|].
    destruct (Htags tag (or_introl eq_refl)) as (layers & -> & Hlayers).
    assert (Hrest : forall t, In t tags -> _) by
      (intros t Ht; exact (Htags t (or_intror Ht))).
    destruct (String.eqb_spec layers "") as [_|Hne]; [apply IH; exact Hrest|].
    destruct Hlayers as [Hempty|[(r & Hr & Hrl) Hstep]]; [contradiction|].
    destruct (inner_loop_in_step api repository tag layers stored Hstep
                (length stored) 0 a k false) as (k' & ->).
    rewrite drop_0, firstn_all.
    replace (existsb _ stored) with true.
    + unfold add_new_image. cbn [is_image_updated orb negb andb].
      apply IH. exact Hrest.
    + symmetry. apply existsb_exists. exists r. split; [exact Hr|].
      apply String.eqb_eq. exact Hrl.
Qed.

(** When nothing changed upstream the update pass returns the stored records
    as they are.  Nothing changed means, for every tag the registry lists:
    the layers its pull yields are those of a stored record (or the pull
    yields nothing), for every stored record with these layers the tag
    request answers with no time newer than the record's, and no stored
    record keeps this tag for other layers. *)
Theorem update_pass_unchanged (api : API) (repository : string)
    (stored : list ImageRecord) :
  (forall tag, In tag (repository_tags api repository) ->
     exists layers,
       outcome (get_layers_image repository (pulls api repository tag))
       = Return layers /\
       (layers = "" \/
        ((exists r, In r stored /\ fs_layers r = layers) /\
         forall r, In r stored ->
           (fs_layers r = layers ->
            exists lu, Hub.repository_tag api repository tag = TagObject lu /\
                       forall t, lu = Time t -> (t <= last_updated r)%Z) /\
           (fs_layers r <> layers -> image_tag r <> tag)))) ->
  update_pass api repository stored = Return stored.
Proof.
  intros Htags. unfold update_pass.
  destruct (tags_loop_in_step api repository stored _ Htags ∅ 0 false)
    as (k' & b' & ->).
  reflexivity.
Qed.

Lemma update_pass_unchanged_witness :
  update_pass ExtractionExamples.redis_api "redis"
    [mkImage "aaaaaaaaaaaabbbbbbbbbbbb" "7" 200 190;
     mkImage "aaaaaaaaaaaa" "6" 100 90]
  = Return [mkImage "aaaaaaaaaaaabbbbbbbbbbbb" "7" 200 190;
            mkImage "aaaaaaaaaaaa" "6" 100 90].
Proof.
  apply update_pass_unchanged.
  intros tag [<-|[<-|[<-|[]]]];
    [exists "aaaaaaaaaaaabbbbbbbbbbbb" | exists "aaaaaaaaaaaabbbbbbbbbbbb"
     | exists "aaaaaaaaaaaa"];
    (split; [reflexivity|]); right;
    (split;
     [first [exists (mkImage "aaaaaaaaaaaabbbbbbbbbbbb" "7" 200 190);
             split; [cbn; tauto | reflexivity]
            | exists (mkImage "aaaaaaaaaaaa" "6" 100 90);
              split; [cbn; tauto | reflexivity]]
     | intros r [<-|[<-|[]]];
       (split;
        [intros H; cbn in H;
         first [discriminate H
               | eexists; split; [reflexivity | intros t [= <-]; cbn; lia]]
        | intros H; cbn in *;
          first [discriminate | contradiction H; reflexivity]])]).
Defined.

(** *** New repositories are appended *)

Lemma db_set_new (db : ParentDb) repository repository_images :
  ~ In repository (keys db) ->
  db_set db repository repository_images = db ++ [(repository, repository_images)].
Proof.
  induction db as [|[k v] db IH]; intros Hnew; [reflexivity|].
  cbn [db_set app]. destruct (String.eqb_spec k repository) as [->|_].
  - exfalso. apply Hnew. left. reflexivity.
  - rewrite IH; [reflexivity|]. intros Hin. apply Hnew. right. exact Hin.
Qed.

Lemma db_set_keys (db : ParentDb) repository repository_images :
  In repository (keys db) ->
  keys (db_set db repository repository_images) = keys db.
Proof.
  induction db as [|[k v] db IH]; intros Hin; [destruct Hin|].
  cbn [db_set]. destruct (String.eqb_spec k repository) as [->|Hne];
    [reflexivity|].
  cbn [keys map fst]. f_equal. apply IH.
  destruct Hin as [Hk|Hin]; [contradiction | exact Hin].
Qed.

(** The names [brand_new] keeps are distinct names of the catalog that the
    database does not know. *)
Lemma brand_new_spec (names : list string) :
  forall known,
    List.NoDup (brand_new names known) /\
    forall r, In r (brand_new names known) -> In r names /\ ~ In r known.
Proof.
  induction names as [|x names IH]; intros known; cbn [brand_new].
  - split; [constructor | intros r []].
  - destruct (bool_decide_reflect (x ∈ known)) as [Hx|Hx].
    + destruct (IH known) as [Hnd Hin]. split; [exact Hnd|].
      intros r Hr. destruct (Hin r Hr). split; [right|]; assumption.
    + destruct (IH (x :: known)) as [Hnd Hin]. split.
      * constructor; [|exact Hnd]. intros Hx'. destruct (Hin x Hx') as [_ Hn].
        apply Hn. left. reflexivity.
      * intros r [<-|Hr].
        -- split; [left; reflexivity|]. intros Hk. apply Hx.
           apply list_elem_of_In. exact Hk.
        -- destruct (Hin r Hr) as [Hnames Hn]. split; [right; exact Hnames|].
           intros Hk. apply Hn. right. exact Hk.
Qed.

(** Adding the repositories that appeared on the registry never touches the
    repositories already stored, and says exactly what is added.  On distinct
    names unknown to the database, the loop handles the names in order up to
    the first one whose extraction raises, or all of them when none does; the
    database in memory afterwards is the one before, followed, in this order,
    by one entry for each handled name whose extraction gave at least one
    record, holding the records [get_layers_official_repository] returned
    for it, and by nothing for a handled name whose extraction gave no
    record.  The loop ends normally when every name was handled, and with the
    exception of the extraction that raised otherwise. *)
Theorem add_repositories_appends (w : World) (new_repositories : list string) :
  forall (parent_db : ParentDb) (effects : list sync_effect),
    List.NoDup new_repositories ->
    (forall r, In r new_repositories -> ~ In r (keys parent_db)) ->
    exists handled,
      (add_repositories w new_repositories (parent_db, effects)).2.1
      = parent_db
          ++ flat_map
               (fun r =>
                  match Extraction.get_layers_official_repository (api w) r with
                  | Return (image :: images) => [(r, image :: images)]
                  | _ => []
                  end)
               handled /\
      (forall r, In r handled ->
         exists images,
           Extraction.get_layers_official_repository (api w) r = Return images) /\
      (((add_repositories w new_repositories (parent_db, effects)).1 = Ok tt /\
        handled = new_repositories)
       \/ exists r rest e,
            new_repositories = handled ++ r :: rest /\
            Extraction.get_layers_official_repository (api w) r = Raise e /\
            (add_repositories w new_repositories (parent_db, effects)).1
            = Throws e).
Proof.
  induction new_repositories as [|r rest IH]; intros parent_db effects Hnd Hnew.
  - exists []. cbn [flat_map]. rewrite app_nil_r.
    split; [reflexivity|]. split; [intros r []|]. left. split; reflexivity.
  - cbn [add_repositories]. unfold mbind, M_bind, bind, emit, lift.
    cbn [fst snd].
    apply List.NoDup_cons_iff in Hnd. destruct Hnd as [Hr Hnd].
    destruct (Extraction.get_layers_official_repository (api w) r)
      as [[|image images]|e] eqn:Hget.
    + unfold ret. cbn [fst snd].
      destruct (IH parent_db (effects ++ [ExtractRepository r]) Hnd)
        as (handled & Hdb & Hret & Hend).
      { intros x Hx. apply Hnew. right. exact Hx. }
      exists (r :: handled). cbn [flat_map]. rewrite Hget. cbn [app].
      split; [exact Hdb|]. split.
      * intros x [<-|Hx]; [exists []; exact Hget | exact (Hret x Hx)].
      * destruct Hend as [[Hok ->]|(r' & rest' & e & -> & Hraise & Hthrow)].
        -- left. split; [exact Hok | reflexivity].
        -- right. exists r', rest', e. split; [reflexivity|]. split; assumption.
    + unfold ret, get_db, put_db. cbn [fst snd].
      rewrite db_set_new by (apply Hnew; left; reflexivity).
      destruct (IH (parent_db ++ [(r, image :: images)])
                   ((effects ++ [ExtractRepository r])
                      ++ [AppendElement r (image :: images)]) Hnd)
        as (handled & Hdb & Hret & Hend).
      { intros x Hx. unfold keys. rewrite map_app. intros Hin.
        apply in_app_or in Hin. destruct Hin as [Hin|[<-|[]]].
        - exact (Hnew x (or_intror Hx) Hin).
        - exact (Hr Hx). }
      exists (r :: handled). cbn [flat_map]. rewrite Hget.
      split; [rewrite Hdb, <- app_assoc; reflexivity|]. split.
      * intros x [<-|Hx]; [exists (image :: images); exact Hget | exact (Hret x Hx)].
      * destruct Hend as [[Hok ->]|(r' & rest' & e & -> & Hraise & Hthrow)].
        -- left. split; [exact Hok | reflexivity].
        -- right. exists r', rest', e. split; [reflexivity|]. split; assumption.
    + unfold raise. cbn [fst snd]. exists []. cbn [flat_map]. rewrite app_nil_r.
      split; [reflexivity|]. split; [intros x []|].
      right. exists r, rest, e. split; [reflexivity|]. split; [exact Hget | reflexivity].
Qed.

Lemma add_repositories_appends_witness :
  exists handled,
    (add_repositories
       (mkWorld ["nginx"; "redis"] (ReadDb [("nginx", [SyncExamples.rec6])])
                ExtractionExamples.redis_api)
       ["redis"] ([("nginx", [SyncExamples.rec6])], [])).2.1
    = [("nginx", [SyncExamples.rec6])]
        ++ flat_map
             (fun r =>
                match Extraction.get_layers_official_repository
                        (api (mkWorld ["nginx"; "redis"]
                                      (ReadDb [("nginx", [SyncExamples.rec6])])
                                      ExtractionExamples.redis_api)) r with
                | Return (image :: images) => [(r, image :: images)]
                | _ => []
                end)
             handled /\
    (forall r, In r handled ->
       exists images,
         Extraction.get_layers_official_repository
           (api (mkWorld ["nginx"; "redis"]
                         (ReadDb [("nginx", [SyncExamples.rec6])])
                         ExtractionExamples.redis_api)) r
         = Return images) /\
    (((add_repositories
         (mkWorld ["nginx"; "redis"] (ReadDb [("nginx", [SyncExamples.rec6])])
                  ExtractionExamples.redis_api)
         ["redis"] ([("nginx", [SyncExamples.rec6])], [])).1 = Ok tt /\
      handled = ["redis"])
     \/ exists r rest e,
          ["redis"] = handled ++ r :: rest /\
          Extraction.get_layers_official_repository
            (api (mkWorld ["nginx"; "redis"]
                          (ReadDb [("nginx", [SyncExamples.rec6])])
                          ExtractionExamples.redis_api)) r
          = Raise e /\
          (add_repositories
             (mkWorld ["nginx"; "redis"] (ReadDb [("nginx", [SyncExamples.rec6])])
                      ExtractionExamples.redis_api)
             ["redis"] ([("nginx", [SyncExamples.rec6])], [])).1
          = Throws e).
Proof.
  apply (add_repositories_appends
           (mkWorld ["nginx"; "redis"] (ReadDb [("nginx", [SyncExamples.rec6])])
                    ExtractionExamples.redis_api)
           ["redis"] [("nginx", [SyncExamples.rec6])] []).
  - constructor; [intros [] | constructor].
  - intros r [<-|[]] [H|[]]. discriminate H.
Defined.

Example add_repositories_redis :
  (add_repositories
     (mkWorld ["nginx"; "redis"] (ReadDb [("nginx", [SyncExamples.rec6])])
              ExtractionExamples.redis_api)
     ["redis"] ([("nginx", [SyncExamples.rec6])], [])).2.1
  = [("nginx", [SyncExamples.rec6]);
     ("redis", [mkImage "aaaaaaaaaaaabbbbbbbbbbbb" "7" 200 190;
                mkImage "aaaaaaaaaaaa" "6" 100 90])].
Proof. vm_compute. reflexivity. Qed.

(** *** The check of the stored repositories keeps the set of repositories *)

Lemma check_repository_keys (w : World) (repository : string) :
  forall parent_db effects,
    In repository (keys parent_db) ->
    keys (check_repository w repository (parent_db, effects)).2.1
    = keys parent_db.
Proof.
  intros parent_db effects Hin. unfold check_repository.
  unfold mbind, M_bind, bind, emit, lift, get_db. cbn [fst snd].
  destruct (parsed_time _) as [t|e]; unfold ret, raise; cbn [fst snd];
    [|reflexivity].
  destruct (t >? watermark (db_get parent_db repository))%Z; cbn [fst snd];
    [|reflexivity].
  destruct (update_pass (api w) repository (db_get parent_db repository))
    as [images'|e]; unfold put_db; cbn [fst snd]; [|reflexivity].
  apply db_set_keys. exact Hin.
Qed.

(** Checking the stored repositories neither adds, nor drops, nor reorders a
    repository, however the run ends: the database in memory afterwards has
    the keys it had before. *)
Theorem check_repositories_keeps_keys (w : World) (repositories : list string) :
  forall (parent_db : ParentDb) (effects : list sync_effect),
    (forall r, In r repositories -> In r (keys parent_db)) ->
    keys (check_repositories w repositories (parent_db, effects)).2.1
    = keys parent_db.
Proof.
  induction repositories as [|r rest IH]; intros parent_db effects Hin;
    [reflexivity|].
  cbn [check_repositories]. unfold mbind, M_bind, bind.
  pose proof (check_repository_keys w r parent_db effects
                (Hin r (or_introl eq_refl))) as Hkeys.
  destruct (check_repository w r (parent_db, effects)) as [[[]|e|] [db1 eff1]];
    cbn [fst snd] in *; [|exact Hkeys|exact Hkeys].
  rewrite IH; [exact Hkeys|].
  intros x Hx. rewrite Hkeys. apply Hin. right. exact Hx.
Qed.

Lemma check_repositories_keeps_keys_witness :
  keys (check_repositories SyncExamples.redis_world ["redis"]
          ([("redis", [SyncExamples.rec6])], [])).2.1
  = keys [("redis", [SyncExamples.rec6])].
Proof.
  apply (check_repositories_keeps_keys SyncExamples.redis_world ["redis"]
           [("redis", [SyncExamples.rec6])] []).
  intros r [<-|[]]. left. reflexivity.
Defined.

(** *** The file is renamed last, and only by a run that raised nothing *)

Local Abbreviation calm e :=
  (e <> RenameFile /\ forall x, e <> LogException x).

(** A computation that leaves no renaming and no log entry. *)
Local Abbreviation quiet m :=
  (forall s, exists new, (m s).2.2 = s.2 ++ new /\ Forall (fun e => calm e) new).

(** A computation that renames as its last step, when it gets there. *)
Local Abbreviation renames_last k :=
  (forall s,
     exists new,
       Forall (fun e => calm e) new /\
       match (k s).1 with
       | Ok _ => (k s).2.2 = s.2 ++ new ++ [RenameFile]
       | _ => (k s).2.2 = s.2 ++ new
       end).

Lemma quiet_bind {A B} (m : M A) (f : A -> M B) :
  quiet m -> (forall a, quiet (f a)) -> quiet (bind m f).
Proof.
  intros Hm Hf s. unfold bind. destruct (Hm s) as (new & Hnew & Hcalm).
  destruct (m s) as [[a|e|] s1]; cbn [fst snd] in *.
  - destruct (Hf a s1) as (new' & Hnew' & Hcalm').
    exists (new ++ new'). rewrite Hnew', Hnew, <- app_assoc.
    split; [reflexivity | apply Forall_app; split; assumption].
  - exists new. split; assumption.
  - exists new. split; assumption.
Qed.

Lemma renames_last_bind {A B} (m : M A) (f : A -> M B) :
  quiet m -> (forall a, renames_last (f a)) -> renames_last (bind m f).
Proof.
  intros Hm Hf s. unfold bind. destruct (Hm s) as (new & Hnew & Hcalm).
  destruct (m s) as [[a|e|] s1]; cbn [fst snd] in *.
  - destruct (Hf a s1) as (new' & Hcalm' & Hnew').
    exists (new ++ new'). split; [apply Forall_app; split; assumption|].
    destruct (f a s1).1; rewrite Hnew', Hnew, <- ?app_assoc; reflexivity.
  - exists new. split; assumption.
  - exists new. split; assumption.
Qed.

Lemma quiet_emit (e : sync_effect) : calm e -> quiet (emit e).
Proof.
  intros He s. exists [e]. split; [reflexivity | constructor; [exact He | constructor]].
Qed.

Lemma quiet_silent {A} (m : M A) : (forall s, (m s).2.2 = s.2) -> quiet m.
Proof.
  intros Hm s. exists []. rewrite app_nil_r. split; [apply Hm | constructor].
Qed.

Lemma quiet_lift {A} (r : result A) : quiet (lift r).
Proof. apply quiet_silent. intros s. destruct r; reflexivity. Qed.

Lemma quiet_add_repositories (w : World) (new_repositories : list string) :
  quiet (add_repositories w new_repositories).
Proof.
  induction new_repositories as [|r rest IH]; cbn [add_repositories].
  - apply quiet_silent. reflexivity.
  - apply quiet_bind; [apply quiet_emit; split; discriminate|]. intros _.
    apply quiet_bind; [apply quiet_lift|]. intros images.
    apply quiet_bind; [|intros _; exact IH].
    destruct images as [|image images]; [apply quiet_silent; reflexivity|].
    apply quiet_bind; [apply quiet_emit; split; discriminate|]. intros _.
    apply quiet_bind; [apply quiet_silent; reflexivity|]. intros db.
    apply quiet_silent. reflexivity.
Qed.

Lemma quiet_check_repositories (w : World) (repositories : list string) :
  quiet (check_repositories w repositories).
Proof.
  induction repositories as [|r rest IH]; cbn [check_repositories].
  - apply quiet_silent. reflexivity.
  - apply quiet_bind; [|intros _; exact IH]. unfold check_repository.
    apply quiet_bind; [apply quiet_emit; split; discriminate|]. intros _.
    apply quiet_bind; [apply quiet_lift|]. intros t.
    apply quiet_bind; [apply quiet_silent; reflexivity|]. intros db.
    apply quiet_bind.
    + destruct (t >? _)%Z; [|apply quiet_silent; reflexivity].
      apply quiet_bind; [apply quiet_lift|]. intros images.
      apply quiet_silent. reflexivity.
    + intros _. apply quiet_bind; [apply quiet_silent; reflexivity|]. intros db'.
      apply quiet_emit. split; discriminate.
Qed.

Lemma sync_body_renames_last (w : World) : renames_last (sync_body w).
Proof.
  unfold sync_body.
  apply renames_last_bind; [apply quiet_emit; split; discriminate|]. intros _.
  apply renames_last_bind.
  { unfold read_database.
    apply quiet_bind; [apply quiet_emit; split; discriminate|]. intros _.
    destruct (db_file w); apply quiet_silent; reflexivity. }
  intros _. apply renames_last_bind.
  { destruct (catalog w); [|apply quiet_silent; reflexivity].
    apply quiet_bind; [apply quiet_emit; split; discriminate|]. intros _.
    apply quiet_silent. reflexivity. }
  intros _. apply renames_last_bind; [apply quiet_silent; reflexivity|].
  intros db. apply renames_last_bind.
  { destruct (_ <? _)%nat;
      [apply quiet_add_repositories | apply quiet_silent; reflexivity]. }
  intros _. apply renames_last_bind; [apply quiet_silent; reflexivity|].
  intros db'. apply renames_last_bind; [apply quiet_check_repositories|].
  intros _ s. exists []. split; [constructor | reflexivity].
Qed.

(** Whenever a run of [update_official_database] renames the database file,
    the renaming is its last effect and the call returned; before it the run
    left no other renaming and logged no exception.  So a run that fails
    anywhere (reading the file, extracting, checking, writing) keeps the old
    file name. *)
Theorem update_official_database_renames_last (w : World) :
  In RenameFile (update_official_database w).2 ->
  (update_official_database w).1 = Returned /\
  exists before,
    (update_official_database w).2 = before ++ [RenameFile] /\
    Forall (fun e => e <> RenameFile /\ forall x, e <> LogException x) before.
Proof.
  unfold update_official_database.
  destruct (sync_body_renames_last w ([], [])) as (new & Hcalm & Hrun).
  assert (Hno : ~ In RenameFile new).
  { intros Hin. apply (proj1 (List.Forall_forall _ _) Hcalm) in Hin.
    destruct Hin as [Hin _]. apply Hin. reflexivity. }
  destruct (sync_body w ([], [])) as [[[]|e|] [db effects]];
    cbn [fst snd app] in *; subst effects.
  - intros _. split; [reflexivity|]. exists new. split; [reflexivity | exact Hcalm].
  - intros Hin. exfalso. apply in_app_or in Hin.
    destruct Hin as [Hin|[Hin|[]]]; [exact (Hno Hin) | discriminate Hin].
  - intros Hin. exfalso. exact (Hno Hin).
Qed.

Lemma update_official_database_renames_last_witness :
  (update_official_database SyncExamples.redis_world).1 = Returned /\
  exists before,
    (update_official_database SyncExamples.redis_world).2
    = before ++ [RenameFile] /\
    Forall (fun e => e <> RenameFile /\ forall x, e <> LogException x) before.
Proof.
  apply (update_official_database_renames_last SyncExamples.redis_world).
  vm_compute. do 4 right. left. reflexivity.
Defined.

End SyncMore.

(** ** More about the search for duplicates *)

Module DuplicatesMore.
Import Duplicates DuplicatesFacts.

(** Every resolution that [verify_duplicates] reports confronts a stored
    record with a record of another repository that has the same layers, and
    says that the first is more recent exactly when it was created strictly
    later.  Two records of one repository are never confronted, whatever
    their layers. *)
Theorem verify_database_sound (db : ParentDb) (f : Finding) :
  List.NoDup (keys db) ->
  In f (verify_database db) ->
  exists images imgs,
    In (repository f, images) db /\ In (image f) images /\
    In (repo f, imgs) db /\ In (img f) imgs /\
    repo f <> repository f /\
    fs_layers (image f) = fs_layers (img f) /\
    (outcome f = ImageMoreRecent <-> (created (img f) < created (image f))%Z).
Proof.
  intros Hnd Hf.
  apply verify_database_In in Hf as (r & images & x & Hentry & Hx & Hf).
  destruct (scan_others_sound _ _ _ _ _ Hf) as (Hr & Hi & Hrepo & Himg & Hl & Hiff).
  apply (other_repositories_In db r _ Hnd) in Hrepo as [Hkey Hne].
  exists images, (db_get db (repo f)). subst r x.
  repeat split; auto.
  - apply db_get_entry. exact Hkey.
  - apply Hiff.
  - apply Hiff.
Qed.

Lemma verify_database_sound_witness :
  exists images imgs,
    In ("bar", images) DuplicatesExamples.foo_bar /\
    In DuplicatesExamples.bar_xyz images /\
    In ("foo", imgs) DuplicatesExamples.foo_bar /\
    In DuplicatesExamples.foo_xyz imgs /\
    "foo" <> "bar" /\
    fs_layers DuplicatesExamples.bar_xyz = fs_layers DuplicatesExamples.foo_xyz /\
    (ImageMoreRecent = ImageMoreRecent <->
     (created DuplicatesExamples.foo_xyz < created DuplicatesExamples.bar_xyz)%Z).
Proof.
  apply (verify_database_sound DuplicatesExamples.foo_bar
           (mkFinding "bar" DuplicatesExamples.bar_xyz
                      "foo" DuplicatesExamples.foo_xyz ImageMoreRecent)).
  - simpl. ResolverFacts.solve_NoDup.
  - simpl. right. left. reflexivity.
Defined.

Lemma scan_others_nonempty db repository image repositories ra a :
  In ra repositories -> In a (db_get db ra) -> fs_layers image = fs_layers a ->
  scan_others db repository image repositories <> [].
Proof.
  induction repositories as [|r rest IH]; intros Hra Ha Heq; [destruct Hra|].
  cbn [scan_others].
  pose proof (compare_images_flag repository image r (db_get db r) true) as Hflag.
  pose proof (fun H => compare_images_complete repository image r (db_get db r) a
                         H Heq true) as Hall.
  destruct (compare_images repository image r (db_get db r) true)
    as [flag found]. cbn [fst snd] in *.
  destruct flag.
  - destruct Hra as [->|Hra].
    + specialize (Hall Ha). destruct found; [destruct Hall | discriminate].
    + intros Hnil. apply app_eq_nil in Hnil as [_ Hnil].
      exact (IH Hra Ha Heq Hnil).
  - destruct (Hflag eq_refl) as [?|(f & Hf & _)]; [discriminate|].
    destruct found; [destruct Hf | discriminate].
Qed.

(** The report is empty exactly when no two different repositories hold
    records with equal layers: the [break] may hide some pairs, never all of
    them. *)
Theorem verify_database_empty (db : ParentDb) :
  List.NoDup (keys db) ->
  (verify_database db = [] <->
   forall ra rb imgsa imgsb a b,
     In (ra, imgsa) db -> In (rb, imgsb) db -> ra <> rb ->
     In a imgsa -> In b imgsb -> fs_layers a <> fs_layers b).
Proof.
  intros Hnd. split.
  - intros Hnil ra rb imgsa imgsb a b Hra Hrb Hne Ha Hb Heq.
    apply (scan_others_nonempty db ra a (other_repositories db ra) rb b).
    + apply other_repositories_In; [exact Hnd|]. split; [|congruence].
      apply in_map_iff. exists (rb, imgsb). split; [reflexivity | exact Hrb].
    + rewrite (db_get_In db rb imgsb Hnd Hrb). exact Hb.
    + exact Heq.
    + destruct (scan_others db ra a (other_repositories db ra)) as [|f l] eqn:Hs;
        [reflexivity|].
      exfalso. assert (Hf : In f (verify_database db)).
      { apply verify_database_In. exists ra, imgsa, a. rewrite Hs.
        split; [exact Hra|]. split; [exact Ha | left; reflexivity]. }
      rewrite Hnil in Hf. destruct Hf.
  - intros Hdistinct.
    destruct (verify_database db) as [|f l] eqn:Hv; [reflexivity|].
    exfalso.
    assert (Hf : In f (verify_database db)) by (rewrite Hv; left; reflexivity).
    apply verify_database_In in Hf as (r & images & x & Hentry & Hx & Hf).
    destruct (scan_others_sound _ _ _ _ _ Hf) as (_ & _ & Hrepo & Himg & Hl & _).
    apply (other_repositories_In db r _ Hnd) in Hrepo as [Hkey Hne].
    exact (Hdistinct r (repo f) images (db_get db (repo f)) x (img f) Hentry
             (db_get_entry db (repo f) Hkey) (fun H => Hne (eq_sym H)) Hx Himg Hl).
Qed.

Lemma verify_database_empty_witness :
  verify_database DuplicatesExamples.foo_bar = [] <->
  forall ra rb imgsa imgsb a b,
    In (ra, imgsa) DuplicatesExamples.foo_bar ->
    In (rb, imgsb) DuplicatesExamples.foo_bar -> ra <> rb ->
    In a imgsa -> In b imgsb -> fs_layers a <> fs_layers b.
Proof.
  apply (verify_database_empty DuplicatesExamples.foo_bar).
  simpl. ResolverFacts.solve_NoDup.
Defined.

Lemma scan_others_complete db repository image repositories :
  (forall repo img, In repo repositories -> In img (db_get db repo) ->
     fs_layers image = fs_layers img -> (created image <= created img)%Z) ->
  forall repo img, In repo repositories -> In img (db_get db repo) ->
    fs_layers image = fs_layers img ->
    In (mkFinding repository image repo img ImageOlder)
       (scan_others db repository image repositories).
Proof.
  induction repositories as [|r rest IH]; intros Hold repo img Hrepo Himg Heq;
    [destruct Hrepo|].
  cbn [scan_others].
  pose proof (compare_images_keeps_flag repository image r (db_get db r)
                (fun x Hx => Hold r x (or_introl eq_refl) Hx)) as Hflag.
  pose proof (fun H => compare_images_complete repository image r (db_get db r)
                         img H Heq true) as Hall.
  destruct (compare_images repository image r (db_get db r) true)
    as [flag found]. cbn [fst snd] in *. subst flag.
  apply in_or_app. destruct Hrepo as [->|Hrepo].
  - left. specialize (Hall Himg).
    pose proof (Hold repo img (or_introl eq_refl) Himg Heq) as Hle.
    destruct (Z.gtb_spec (created image - created img) 0); [lia | exact Hall].
  - right. apply IH; [|assumption..].
    intros repo' img' Hr'. apply Hold. right. exact Hr'.
Qed.

(** The scan of a record that is nowhere strictly more recent than a copy of
    it never stops early: the report confronts it, as the older one, with
    every record of every other repository that has its layers. *)
Theorem verify_database_oldest_copy (db : ParentDb) (repository : string)
    (images : list ImageRecord) (image : ImageRecord) :
  List.NoDup (keys db) ->
  In (repository, images) db -> In image images ->
  (forall repo imgs img,
     In (repo, imgs) db -> repo <> repository -> In img imgs ->
     fs_layers image = fs_layers img -> (created image <= created img)%Z) ->
  forall repo imgs img,
    In (repo, imgs) db -> repo <> repository -> In img imgs ->
    fs_layers image = fs_layers img ->
    In (mkFinding repository image repo img ImageOlder) (verify_database db).
Proof.
  intros Hnd Hentry Himage Hold repo imgs img Hrepo Hne Himg Heq.
  apply verify_database_In. exists repository, images, image.
  split; [exact Hentry|]. split; [exact Himage|].
  apply scan_others_complete.
  - intros repo' img' Hr' Hi'.
    apply (other_repositories_In db repository repo' Hnd) in Hr' as [Hkey Hne'].
    apply (Hold repo' (db_get db repo') img');
      [apply db_get_entry; exact Hkey | exact Hne' | exact Hi'].
  - apply other_repositories_In; [exact Hnd|]. split; [|exact Hne].
    apply in_map_iff. exists (repo, imgs). split; [reflexivity | exact Hrepo].
  - rewrite (db_get_In db repo imgs Hnd Hrepo). exact Himg.
  - exact Heq.
Qed.

Lemma verify_database_oldest_copy_witness :
  In (mkFinding "base" DuplicatesExamples.base_xyz
                "bar" DuplicatesExamples.bar_xyz ImageOlder)
     (verify_database DuplicatesExamples.base_foo_bar).
Proof.
  apply (verify_database_oldest_copy DuplicatesExamples.base_foo_bar "base"
           [DuplicatesExamples.base_xyz] DuplicatesExamples.base_xyz
           ltac:(simpl; ResolverFacts.solve_NoDup)
           ltac:(simpl; auto) ltac:(simpl; auto))
    with (imgs := [DuplicatesExamples.bar_xyz]).
  - intros repo imgs img [[= <- <-]|[[= <- <-]|[[= <- <-]|[]]]] Hne [<-|[]] _;
      cbn; lia.
  - simpl. auto.
  - discriminate.
  - simpl. auto.
  - reflexivity.
Defined.

End DuplicatesMore.

(** ** More about the resolver *)

Module ResolverMore.
Import Resolver ResolverFacts.

(** *** The records of the owner never matter *)

Lemma index_of_app (x : string) (l1 l2 : list string) :
  ~ In x l1 -> index_of x (l1 ++ x :: l2) = Some (List.length l1).
Proof.
  induction l1 as [|y l1 IH]; intros Hx; cbn [app index_of List.length].
  - rewrite String.eqb_refl. reflexivity.
  - destruct (String.eqb_spec y x) as [->|_];
      [exfalso; apply Hx; left; reflexivity|].
    rewrite IH; [reflexivity|]. intros Hin. apply Hx. right. exact Hin.
Qed.

Lemma index_of_absent (x : string) (l : list string) :
  ~ In x l -> index_of x l = None.
Proof.
  induction l as [|y l IH]; intros Hx; [reflexivity|]. cbn [index_of].
  destruct (String.eqb_spec y x) as [->|_];
    [exfalso; apply Hx; left; reflexivity|].
  rewrite IH; [reflexivity|]. intros Hin. apply Hx. right. exact Hin.
Qed.

Lemma db_get_app_other (db1 db2 : ParentDb) (r repo : string)
    (images : list ImageRecord) :
  repo <> r ->
  db_get (db1 ++ (r, images) :: db2) repo = db_get (db1 ++ db2) repo.
Proof.
  intros Hne. induction db1 as [|[k v] db1 IH]; cbn [app db_get].
  - destruct (String.eqb_spec r repo) as [Heq|_]; [congruence | reflexivity].
  - rewrite IH. reflexivity.
Qed.

Lemma scan_repositories_ext (db db' : ParentDb) (repositories : list string)
    (p : string) :
  (forall repo, In repo repositories -> db_get db repo = db_get db' repo) ->
  forall parent,
    scan_repositories db repositories p parent
    = scan_repositories db' repositories p parent.
Proof.
  unfold scan_repositories.
  induction repositories as [|repo rest IH]; intros Hext parent; [reflexivity|].
  cbn [fold_left]. rewrite (Hext repo (or_introl eq_refl)).
  apply IH. intros x Hx. apply Hext. right. exact Hx.
Qed.

Lemma walk_ext (db db' : ParentDb) (repositories : list string) :
  (forall repo, In repo repositories -> db_get db repo = db_get db' repo) ->
  forall image_ids current_layers parent,
    walk db repositories image_ids current_layers parent
    = walk db' repositories image_ids current_layers parent.
Proof.
  intros Hext. induction image_ids as [|image_id rest IH];
    intros current_layers parent; [reflexivity|].
  cbn [walk]. rewrite (scan_repositories_ext db db' repositories _ Hext).
  apply IH.
Qed.

Lemma candidate_repositories_owner (db1 db2 : ParentDb) (r : string)
    (images : list ImageRecord) :
  List.NoDup (keys (db1 ++ (r, images) :: db2)) ->
  ~ In r (keys db1 ++ keys db2) /\
  candidate_repositories (db1 ++ (r, images) :: db2) r = keys db1 ++ keys db2.
Proof.
  unfold keys. rewrite map_app. cbn [map fst]. intros Hnd.
  assert (Hr : ~ In r (map fst db1 ++ map fst db2)).
  { apply List.NoDup_remove_2 in Hnd. exact Hnd. }
  split; [exact Hr|].
  unfold candidate_repositories, keys. rewrite map_app. cbn [map fst].
  rewrite index_of_app by (intros Hin; apply Hr; apply in_or_app; left; exact Hin).
  rewrite firstn_app, Nat.sub_diag, firstn_all. cbn [firstn]. rewrite app_nil_r.
  rewrite skipn_app, skipn_all2 by lia.
  replace (List.length (map fst db1) + 1 - List.length (map fst db1)) with 1 by lia.
  reflexivity.
Qed.

(** The answer of the resolver does not depend on what the database stores
    for the owning repository: with other records for the owner, or with the
    owner's entry removed, the answer is the same.  An image is never
    resolved against its own repository. *)
Theorem resolve_parent_ignores_owner (db1 db2 : ParentDb) (r L : string)
    (images images' : list ImageRecord) :
  List.NoDup (keys (db1 ++ (r, images) :: db2)) ->
  resolve_parent r L (db1 ++ (r, images) :: db2)
    = resolve_parent r L (db1 ++ (r, images') :: db2) /\
  resolve_parent r L (db1 ++ (r, images) :: db2)
    = resolve_parent r L (db1 ++ db2).
Proof.
  intros Hnd.
  assert (Hnd' : List.NoDup (keys (db1 ++ (r, images') :: db2))).
  { unfold keys in *. rewrite map_app in *. exact Hnd. }
  destruct (candidate_repositories_owner db1 db2 r images Hnd) as [Hr Hc].
  destruct (candidate_repositories_owner db1 db2 r images' Hnd') as [_ Hc'].
  assert (Hgone : resolve_parent r L (db1 ++ (r, images) :: db2)
                  = resolve_parent r L (db1 ++ db2)).
  { unfold resolve_parent. rewrite Hc.
    unfold candidate_repositories.
    replace (keys (db1 ++ db2)) with (keys db1 ++ keys db2)
      by (unfold keys; rewrite map_app; reflexivity).
    rewrite (index_of_absent r _ Hr).
    apply walk_ext. intros repo Hrepo. apply db_get_app_other.
    intros ->. exact (Hr Hrepo). }
  split; [|exact Hgone].
  rewrite Hgone. unfold resolve_parent. rewrite Hc'.
  unfold candidate_repositories.
  replace (keys (db1 ++ db2)) with (keys db1 ++ keys db2)
    by (unfold keys; rewrite map_app; reflexivity).
  rewrite (index_of_absent r _ Hr).
  apply walk_ext. intros repo Hrepo. symmetry. apply db_get_app_other.
  intros ->. exact (Hr Hrepo).
Qed.

Lemma resolve_parent_ignores_owner_witness :
  resolve_parent "beta" ResolverExamples.target4
    ([("alpha", [ResolverExamples.recA])]
       ++ ("beta", [ResolverExamples.recB]) :: [("gamma", [ResolverExamples.recC])])
  = resolve_parent "beta" ResolverExamples.target4
      ([("alpha", [ResolverExamples.recA])]
         ++ ("beta", [ResolverExamples.recC]) :: [("gamma", [ResolverExamples.recC])]) /\
  resolve_parent "beta" ResolverExamples.target4
    ([("alpha", [ResolverExamples.recA])]
       ++ ("beta", [ResolverExamples.recB]) :: [("gamma", [ResolverExamples.recC])])
  = resolve_parent "beta" ResolverExamples.target4
      ([("alpha", [ResolverExamples.recA])] ++ [("gamma", [ResolverExamples.recC])]).
Proof.
  apply (resolve_parent_ignores_owner [("alpha", [ResolverExamples.recA])]
           [("gamma", [ResolverExamples.recC])] "beta" ResolverExamples.target4
           [ResolverExamples.recB] [ResolverExamples.recC]).
  simpl. solve_NoDup.
Defined.

(** *** A target that a candidate carries whole *)

(** When a record of another repository carries exactly the layers of the
    target, the resolver answers with a repository and a tag of a record that
    carries exactly these layers: the image is resolved to a copy of itself,
    not to a shorter ancestor. *)
Theorem resolve_parent_exact_copy (db : ParentDb) (r L repo : string)
    (image : ImageRecord) :
  List.NoDup (keys db) ->
  L <> "" ->
  candidate db r repo image ->
  fs_layers image = L ->
  exists parent image',
    resolve_parent r L db = Some parent /\
    candidate db r (name parent) image' /\
    image_tag image' = tag parent /\
    fs_layers image' = L.
Proof.
  intros Hnd HL Hcand Hlayers.
  destruct (aligned_prefixes_last L HL) as (pre & Hpre).
  assert (Hin : In (fs_layers image) (aligned_prefixes L)).
  { rewrite Hlayers, Hpre. apply in_or_app. right. left. reflexivity. }
  destruct (resolve_parent r L db) as [parent|] eqn:Hres.
  - destruct (resolve_parent_Some db r L parent Hnd Hres)
      as (image' & Hcand' & Htag & Hslice & Hlongest).
    exists parent, image'. split; [reflexivity|]. split; [exact Hcand'|].
    split; [exact Htag|].
    specialize (Hlongest repo image Hcand Hin). rewrite Hlayers in Hlongest.
    rewrite (aligned_prefix_is_slice L _ Hslice).
    apply substring_0_all. exact Hlongest.
  - exfalso. exact (proj1 (resolve_parent_None db r L Hnd) Hres repo image Hcand Hin).
Qed.

Lemma resolve_parent_exact_copy_witness :
  exists parent image',
    resolve_parent "mine" (fs_layers ResolverExamples.recB) ResolverExamples.db3
    = Some parent /\
    candidate ResolverExamples.db3 "mine" (name parent) image' /\
    image_tag image' = tag parent /\
    fs_layers image' = fs_layers ResolverExamples.recB.
Proof.
  apply (resolve_parent_exact_copy ResolverExamples.db3 "mine"
           (fs_layers ResolverExamples.recB) "beta" ResolverExamples.recB).
  - simpl. solve_NoDup.
  - discriminate.
  - split; [simpl; tauto|]. split; [discriminate | simpl; tauto].
  - reflexivity.
Defined.

(** *** Splitting the layers *)

Lemma prefixes_last (image_ids : list string) :
  forall current_layers pre p,
    prefixes image_ids current_layers = pre ++ [p] ->
    p = current_layers +:+ fold_right String.append "" image_ids.
Proof.
  induction image_ids as [|image_id rest IH]; intros current_layers pre p Hp.
  - destruct pre; discriminate Hp.
  - cbn [prefixes fold_right] in *.
    destruct rest as [|image_id' rest].
    + cbn [prefixes fold_right] in *. destruct pre as [|q pre].
      * injection Hp as <-. rewrite ExtractorFacts.append_empty_r. reflexivity.
      * destruct pre; discriminate Hp.
    + destruct pre as [|q pre]; [discriminate Hp|].
      injection Hp as _ Hp. rewrite (IH _ _ _ Hp).
      rewrite ExtractorFacts.append_assoc. reflexivity.
Qed.

(** The identifiers that [get_image_parent] cuts out of a layer string give
    the string back when put together again, in order: nothing is lost at the
    end of a string whose length is not a multiple of twelve. *)
Theorem split_layers_concat (image_layers : string) :
  fold_right String.append "" (split_layers image_layers) = image_layers.
Proof.
  destruct (String.eqb_spec image_layers "") as [->|Hne]; [reflexivity|].
  destruct (aligned_prefixes_last image_layers Hne) as (pre & Hpre).
  rewrite <- prefixes_split_layers in Hpre.
  symmetry. exact (prefixes_last _ _ _ _ Hpre).
Qed.

(** *** A file that does not hold a database *)

(** When the most recent file of the requested type can be opened but its
    first line is not a JSON object, the failure is swallowed and the search
    then runs into the names the [try] block left unbound: for every target
    that is not empty the call raises a [NameError], whatever the
    repository. *)
Theorem get_image_parent_malformed (st : Storage) (r L : string) :
  L <> "" ->
  (official_db st = LoadMalformed ->
   get_image_parent st r L "official" = Raise NameError) /\
  (verified_db st = LoadMalformed ->
   get_image_parent st r L "verified" = Raise NameError).
Proof.
  intros HL.
  assert (Hids : exists x l, split_layers L = x :: l).
  { destruct (split_layers L) as [|x l] eqn:Hs; [|eauto].
    exfalso. destruct (aligned_prefixes_last L HL) as (pre & Hpre).
    rewrite <- prefixes_split_layers, Hs in Hpre.
    destruct pre; discriminate Hpre. }
  destruct Hids as (x & l & Hids).
  unfold get_image_parent. rewrite Hids. split; intros ->; reflexivity.
Qed.

Lemma get_image_parent_malformed_witness :
  (official_db (mkStorage LoadMalformed LoadMalformed) = LoadMalformed ->
   get_image_parent (mkStorage LoadMalformed LoadMalformed) "redis"
                    ResolverExamples.t1 "official"
   = Raise NameError) /\
  (verified_db (mkStorage LoadMalformed LoadMalformed) = LoadMalformed ->
   get_image_parent (mkStorage LoadMalformed LoadMalformed) "redis"
                    ResolverExamples.t1 "verified"
   = Raise NameError).
Proof.
  apply (get_image_parent_malformed (mkStorage LoadMalformed LoadMalformed)
           "redis" ResolverExamples.t1).
  discriminate.
Defined.

End ResolverMore.

(** ** Facts about the most recent file *)

Module UtilsFacts.
Import Utils.

Lemma most_recent_loop_spec (getmtime : string -> Z) (files : list string) :
  forall m f,
    (most_recent_loop getmtime files (Some m) f = f /\
     forall x, In x files -> (getmtime x <= m)%Z) \/
    (exists pre post,
       files = pre ++ most_recent_loop getmtime files (Some m) f :: post /\
       (m < getmtime (most_recent_loop getmtime files (Some m) f))%Z /\
       (forall x, In x pre ->
          (getmtime x < getmtime (most_recent_loop getmtime files (Some m) f))%Z) /\
       (forall x, In x post ->
          (getmtime x <= getmtime (most_recent_loop getmtime files (Some m) f))%Z)).
Proof.
  induction files as [|file rest IH]; intros m f; cbn [most_recent_loop].
  - left. split; [reflexivity | intros x []].
  - destruct (Z.gtb_spec (getmtime file) m) as [Hgt|Hle].
    + right. destruct (IH (getmtime file) file)
        as [[-> Hall]|(pre & post & Hfiles & Hm & Hpre & Hpost)].
      * exists [], rest. split; [reflexivity|]. split; [exact Hgt|].
        split; [intros x [] | exact Hall].
      * exists (file :: pre), post. split; [cbn [app]; f_equal; exact Hfiles|].
        split; [lia|]. split; [|exact Hpost].
        intros x [<-|Hx]; [exact Hm | exact (Hpre x Hx)].
    + destruct (IH m f) as [[-> Hall]|(pre & post & Hfiles & Hm & Hpre & Hpost)].
      * left. split; [reflexivity|]. intros x [<-|Hx]; [exact Hle | exact (Hall x Hx)].
      * right. exists (file :: pre), post.
        split; [cbn [app]; f_equal; exact Hfiles|].
        split; [exact Hm|]. split; [|exact Hpost].
        intros x [<-|Hx]; [lia | exact (Hpre x Hx)].
Qed.

(** [get_most_recent_file] returns the empty string for an empty list, and
    otherwise a file of the list that no file is newer than; among several
    files with the newest modification time it returns the first one of the
    list. *)
Theorem get_most_recent_file_first_newest (getmtime : string -> Z)
    (files : list string) :
  match files with
  | [] => get_most_recent_file getmtime files = ""
  | _ :: _ =>
      exists pre post,
        files = pre ++ get_most_recent_file getmtime files :: post /\
        (forall x, In x pre ->
           (getmtime x < getmtime (get_most_recent_file getmtime files))%Z) /\
        (forall x, In x post ->
           (getmtime x <= getmtime (get_most_recent_file getmtime files))%Z)
  end.
Proof.
  destruct files as [|file rest]; [reflexivity|].
  unfold get_most_recent_file. cbn [most_recent_loop].
  destruct (most_recent_loop_spec getmtime rest (getmtime file) file)
    as [[-> Hall]|(pre & post & Hfiles & Hm & Hpre & Hpost)].
  - exists [], rest. split; [reflexivity|]. split; [intros x [] | exact Hall].
  - exists (file :: pre), post. split; [cbn [app]; f_equal; exact Hfiles|].
    split; [|exact Hpost].
    intros x [<-|Hx]; [exact Hm | exact (Hpre x Hx)].
Qed.

End UtilsFacts.

(** ** Facts about the tags of a repository *)

Module TagsQueryFacts.
Import TagsQuery.

Lemma total_pages_covers (total_images : nat) :
  total_images <= total_pages total_images * fetching_size.
Proof.
  unfold total_pages, fetching_size.
  pose proof (Nat.div_mod_eq total_images 50) as Hdm.
  pose proof (Nat.mod_upper_bound total_images 50 ltac:(lia)) as Hlt.
  destruct (Nat.ltb_spec 0 (total_images mod 50)); lia.
Qed.

(** The pages requested are the fewest pages of fifty tags that hold
    ["count"] tags: none for a count of zero, and never a page too many or
    too few. *)
Theorem total_pages_least (total_images : nat) :
  total_images <= total_pages total_images * fetching_size /\
  forall k, total_images <= k * fetching_size -> total_pages total_images <= k.
Proof.
  unfold total_pages, fetching_size.
  pose proof (Nat.div_mod_eq total_images 50) as Hdm.
  pose proof (Nat.mod_upper_bound total_images 50 ltac:(lia)) as Hlt.
  destruct (Nat.ltb_spec 0 (total_images mod 50)) as [Hpos|Hzero].
  - split; [lia|]. intros k Hk. nia.
  - split; [lia|]. intros k Hk. nia.
Qed.

Lemma fetch_pages_results page p rest tags names :
  page p = PageResults names ->
  fetch_pages page (p :: rest) tags = fetch_pages page rest (tags ++ names).
Proof.
  intros Hp. cbn [fetch_pages]. rewrite Hp.
  destruct names; [rewrite app_nil_r|]; reflexivity.
Qed.

Lemma fetch_pages_served (all : list string) (page : nat -> page_response) :
  forall m i,
    (forall p, i < p <= i + m ->
       page p = PageResults
                  (firstn fetching_size (skipn ((p - 1) * fetching_size) all))) ->
    fetch_pages page (seq (S i) m) (firstn (i * fetching_size) all)
    = firstn ((i + m) * fetching_size) all.
Proof.
  induction m as [|m IH]; intros i Hpage.
  - rewrite Nat.add_0_r. reflexivity.
  - cbn [seq].
    rewrite (fetch_pages_results page (S i) _ _ _ (Hpage (S i) ltac:(lia))).
    replace (S i - 1) with i by lia.
    change (firstn (i * fetching_size) all
            ++ firstn fetching_size (skipn (i * fetching_size) all))
      with (take (i * fetching_size) all
            ++ take fetching_size (drop (i * fetching_size) all)).
    rewrite take_take_drop.
    replace (i * fetching_size + fetching_size) with (S i * fetching_size) by lia.
    change (take (S i * fetching_size) all)
      with (firstn (S i * fetching_size) all).
    rewrite IH by (intros p Hp; apply Hpage; lia).
    f_equal. lia.
Qed.

(** When the registry answers every request and serves the tags of a
    repository in pages of fifty, in order, [get_repository_tags_query_v2]
    returns exactly these tags, in the order of the registry, whatever their
    number; and [get_latest_versioned_tag] is the first of them, or the empty
    string when there is none. *)
Theorem get_repository_tags_query_v2_complete (e : Endpoint)
    (all : list string) :
  session_raises e = false ->
  count_response e = Some (List.length all) ->
  (forall p, 1 <= p <= total_pages (List.length all) ->
     page e p = PageResults
                  (firstn fetching_size (skipn ((p - 1) * fetching_size) all))) ->
  get_repository_tags_query_v2 e = all /\
  get_latest_versioned_tag e = hd "" all.
Proof.
  intros Hs Hc Hpage.
  assert (Hall : get_repository_tags_query_v2 e = all).
  { unfold get_repository_tags_query_v2. rewrite Hs, Hc.
    change (@nil string) with (firstn (0 * fetching_size) all).
    rewrite fetch_pages_served by (intros p Hp; apply Hpage; lia).
    apply firstn_all2. cbn [Nat.add].
    apply total_pages_covers. }
  split; [exact Hall|].
  unfold get_latest_versioned_tag. rewrite Hall. destruct all; reflexivity.
Qed.

Lemma get_repository_tags_query_v2_complete_witness :
  get_repository_tags_query_v2
    (serves (map (fun k => String (ascii_of_nat k) "") (seq 40 120)))
  = map (fun k => String (ascii_of_nat k) "") (seq 40 120) /\
  get_latest_versioned_tag
    (serves (map (fun k => String (ascii_of_nat k) "") (seq 40 120)))
  = hd "" (map (fun k => String (ascii_of_nat k) "") (seq 40 120)).
Proof.
  apply (get_repository_tags_query_v2_complete
           (serves (map (fun k => String (ascii_of_nat k) "") (seq 40 120)))
           (map (fun k => String (ascii_of_nat k) "") (seq 40 120))).
  - reflexivity.
  - reflexivity.
  - intros p _. reflexivity.
Defined.

Lemma fetch_pages_extends page todo :
  forall tags, exists more, fetch_pages page todo tags = tags ++ more /\
    forall t, In t more ->
      exists p names, In p todo /\ page p = PageResults names /\ In t names.
Proof.
  induction todo as [|p rest IH]; intros tags; cbn [fetch_pages].
  - exists []. rewrite app_nil_r. split; [reflexivity | intros t []].
  - destruct (page p) as [| |names] eqn:Hp.
    + exists []. rewrite app_nil_r. split; [reflexivity | intros t []].
    + destruct (IH tags) as (more & -> & Hmore). exists more.
      split; [reflexivity|]. intros t Ht.
      destruct (Hmore t Ht) as (q & names & Hq & Hpage & Hin).
      exists q, names. split; [right; exact Hq | split; assumption].
    + assert (Hstep : exists more,
                fetch_pages page rest (tags ++ names) = tags ++ more /\
                forall t, In t more ->
                  exists q names', In q (p :: rest) /\
                                   page q = PageResults names' /\ In t names').
      { destruct (IH (tags ++ names)) as (more & -> & Hmore).
        exists (names ++ more). rewrite app_assoc. split; [reflexivity|].
        intros t Ht. apply in_app_or in Ht as [Ht|Ht].
        - exists p, names. split; [left; reflexivity | split; assumption].
        - destruct (Hmore t Ht) as (q & names' & Hq & Hpage & Hin).
          exists q, names'. split; [right; exact Hq | split; assumption]. }
      destruct names as [|x names]; [|exact Hstep].
      rewrite app_nil_r in Hstep. exact Hstep.
Qed.

(** Whatever the registry does, every tag that
    [get_repository_tags_query_v2] returns was served on one of the pages
    [1 .. total_pages]: a page beyond the announced count is never read, and
    no tag is made up. *)
Theorem get_repository_tags_query_v2_sound (e : Endpoint) (t : string) :
  In t (get_repository_tags_query_v2 e) ->
  exists total_images p names,
    count_response e = Some total_images /\
    1 <= p <= total_pages total_images /\
    page e p = PageResults names /\ In t names.
Proof.
  unfold get_repository_tags_query_v2.
  destruct (session_raises e); [intros []|].
  destruct (count_response e) as [total_images|]; [|intros []].
  destruct (fetch_pages_extends (page e) (seq 1 (total_pages total_images)) [])
    as (more & -> & Hmore).
  cbn [app]. intros Ht.
  destruct (Hmore t Ht) as (p & names & Hp & Hpage & Hin).
  exists total_images, p, names. apply in_seq in Hp.
  split; [reflexivity|]. split; [lia|]. split; assumption.
Qed.

Lemma get_repository_tags_query_v2_sound_witness :
  exists total_images p names,
    count_response (serves ["7"; "6"]) = Some total_images /\
    1 <= p <= total_pages total_images /\
    page (serves ["7"; "6"]) p = PageResults names /\ In "6" names.
Proof.
  apply (get_repository_tags_query_v2_sound (serves ["7"; "6"]) "6").
  cbn. right. left. reflexivity.
Defined.

End TagsQueryFacts.

(** ** Facts about the creation time of a tag *)

Module MicroBadgerFacts.
Import MicroBadger.

Lemma scan_tags_In (tags : list string) (repository_tag : string) :
  scan_tags tags repository_tag = true <-> In repository_tag tags.
Proof.
  induction tags as [|tag rest IH]; cbn [scan_tags In]; [split; [discriminate | tauto]|].
  destruct (String.eqb_spec tag repository_tag) as [->|Hne].
  - split; [left; reflexivity | reflexivity].
  - rewrite IH. split; [right; assumption | intros [H|H]; [contradiction | exact H]].
Qed.

Lemma scan_versions_retrieved versions repository_tag tag_object :
  scan_versions versions repository_tag tag_object true = tag_object.
Proof. destruct versions; reflexivity. Qed.

Lemma scan_versions_first (versions : list Version) (repository_tag : string) :
  match scan_versions versions repository_tag None false with
  | Some version =>
      exists pre post,
        versions = pre ++ version :: post /\
        In repository_tag (Tags version) /\
        forall v, In v pre -> ~ In repository_tag (Tags v)
  | None => forall v, In v versions -> ~ In repository_tag (Tags v)
  end.
Proof.
  induction versions as [|version rest IH]; cbn [scan_versions].
  - intros v [].
  - destruct (scan_tags (Tags version) repository_tag) eqn:Hscan.
    + rewrite scan_versions_retrieved. exists [], rest.
      split; [reflexivity|]. split; [apply scan_tags_In; exact Hscan | intros v []].
    + assert (Hnot : ~ In repository_tag (Tags version)).
      { intros Hin. apply scan_tags_In in Hin. congruence. }
      destruct (scan_versions rest repository_tag None false) as [found|].
      * destruct IH as (pre & post & -> & Hin & Hpre).
        exists (version :: pre), post. split; [reflexivity|]. split; [exact Hin|].
        intros v [<-|Hv]; [exact Hnot | exact (Hpre v Hv)].
      * intros v [<-|Hv]; [exact Hnot | exact (IH v Hv)].
Qed.

(** [get_repository_tag_query_v1] answers with the first version, in the
    order of MicroBadger, that lists the requested tag; it answers with
    nothing exactly when the request failed, brought no versions, or no
    version lists the tag.  So the creation time stored for a tag that
    several versions list is the one of the first of them. *)
Theorem get_repository_tag_query_v1_first
    (result : option (option (list Version))) (repository_tag : string) :
  match get_repository_tag_query_v1 result repository_tag with
  | Some version =>
      exists versions pre post,
        result = Some (Some versions) /\
        versions = pre ++ version :: post /\
        In repository_tag (Tags version) /\
        forall v, In v pre -> ~ In repository_tag (Tags v)
  | None =>
      forall versions, result = Some (Some versions) ->
        forall v, In v versions -> ~ In repository_tag (Tags v)
  end.
Proof.
  destruct result as [[versions|]|]; cbn [get_repository_tag_query_v1];
    try (intros ? [=]).
  destruct versions as [|version rest]; [intros ? [= <-] v []|].
  pose proof (scan_versions_first (version :: rest) repository_tag) as Hfirst.
  destruct (scan_versions (version :: rest) repository_tag None false) as [found|].
  - destruct Hfirst as (pre & post & Hv & Hin & Hpre).
    exists (version :: rest), pre, post. auto.
  - intros versions [= <-]. exact Hfirst.
Qed.

End MicroBadgerFacts.

(** ** Facts about the download of an image *)

Module AnalyzerFacts.
Import Extractor Analyzer ExtractorFacts.

Lemma consume_all_tokens (ls : list Line) (e : stream_end) :
  (forall l, In l ls -> announces_layer l = true -> id l <> None) ->
  forall fs,
    consume_all fs ls e
    = match e with
      | StreamEnd => Exhausted (fs +:+ layer_tokens ls)
      | StreamRaises ex => Raised (fs +:+ layer_tokens ls) ex
      end.
Proof.
  induction ls as [|line rest IH]; intros Hid fs; cbn [consume_all layer_tokens].
  - rewrite append_empty_r. reflexivity.
  - assert (Hrest : forall l, In l rest -> announces_layer l = true -> id l <> None)
      by (intros l Hl; apply Hid; right; exact Hl).
    destruct (announces_layer line) eqn:Hann.
    + destruct (id line) as [i|] eqn:Hi;
        [|exfalso; exact (Hid line (or_introl eq_refl) Hann Hi)].
      rewrite (IH Hrest). cbn [default]. rewrite append_assoc. reflexivity.
    + rewrite (IH Hrest). reflexivity.
Qed.

(** [download_image] reads the stream to its end and looks only at the
    announcements: when the stream ends without an exception the call returns
    every announced identifier, in order, also those that come after the
    first ["Downloading"] line, and a line that carries an ["error"] raises
    nothing. *)
Theorem download_image_whole_stream (pull : Pull) :
  (forall l, In l (lines pull) -> announces_layer l = true -> id l <> None) ->
  ending pull = StreamEnd ->
  download_image pull = Return (layer_tokens (lines pull)).
Proof.
  intros Hid Hend. unfold download_image.
  rewrite (consume_all_tokens _ _ Hid), Hend. reflexivity.
Qed.

Lemma download_image_whole_stream_witness :
  download_image ExtractorExamples.broken_pull = Return "aaaaaaaaaaaa".
Proof.
  apply (download_image_whole_stream ExtractorExamples.broken_pull).
  - intros l [<-|[<-|[<-|[]]]]; cbn; intros; discriminate.
  - reflexivity.
Defined.

Lemma layer_tokens_app (l1 l2 : list Line) :
  layer_tokens (l1 ++ l2) = layer_tokens l1 +:+ layer_tokens l2.
Proof.
  induction l1 as [|line l1 IH]; cbn [app layer_tokens]; [reflexivity|].
  rewrite IH, append_assoc. reflexivity.
Qed.

Lemma passes_has_id (line : Line) :
  passes line -> announces_layer line = true -> id line <> None.
Proof. unfold passes. intros Hp Hann. rewrite Hann in Hp. exact Hp. Qed.

Lemma starts_download_announces (line : Line) :
  starts_download line -> announces_layer line = false.
Proof.
  unfold starts_download, announces_layer, status_is. intros [Hs _].
  destruct (status line) as [s|]; [|discriminate].
  apply String.eqb_eq in Hs. subst s. reflexivity.
Qed.

(** On one and the same stream, the extraction of the parent database and
    the download of the analysis do not read the same layers: up to the
    first ["Downloading"] line both gather the announced identifiers, but
    [get_layers_image] stops there while [download_image] goes on to the end
    of the stream.  What the first returns is the beginning of what the
    second returns, and the two are equal only if nothing is announced after
    that line. *)
Theorem download_image_reads_past_download (name : string)
    (pulls : nat -> Pull) (pre post : list Line) (d : Line) :
  lines (pulls 1) = pre ++ d :: post ->
  ending (pulls 1) = StreamEnd ->
  Forall passes pre ->
  starts_download d ->
  (forall l, In l post -> announces_layer l = true -> id l <> None) ->
  outcome (get_layers_image name pulls) = Return (layer_tokens pre) /\
  download_image (pulls 1)
  = Return (layer_tokens pre +:+ layer_tokens post).
Proof.
  intros Hlines Hend Hpre Hd Hpost. split.
  - unfold get_layers_image, retrial_range, retrials. cbn [Nat.add Nat.sub seq].
    cbn [retry_loop]. rewrite Hlines, (consume_until_download name "" pre d post _ Hpre Hd).
    reflexivity.
  - unfold download_image. rewrite consume_all_tokens, Hend.
    + rewrite Hlines, layer_tokens_app. cbn [layer_tokens].
      rewrite (starts_download_announces d Hd). reflexivity.
    + rewrite Hlines. intros l Hl. apply in_app_or in Hl as [Hl|[<-|Hl]].
      * apply passes_has_id. exact (proj1 (List.Forall_forall _ _) Hpre l Hl).
      * rewrite (starts_download_announces d Hd). discriminate.
      * exact (Hpost l Hl).
Qed.

Lemma download_image_reads_past_download_witness :
  outcome (get_layers_image "redis" (fun _ => ExtractorExamples.good_pull))
  = Return (layer_tokens [ExtractorExamples.pulling_from "7";
                          ExtractorExamples.layer "aaaaaaaaaaaa";
                          ExtractorExamples.cached "bbbbbbbbbbbb"]) /\
  download_image ExtractorExamples.good_pull
  = Return (layer_tokens [ExtractorExamples.pulling_from "7";
                          ExtractorExamples.layer "aaaaaaaaaaaa";
                          ExtractorExamples.cached "bbbbbbbbbbbb"]
            +:+ layer_tokens [ExtractorExamples.layer "cccccccccccc"]).
Proof.
  apply (download_image_reads_past_download "redis"
           (fun _ => ExtractorExamples.good_pull)
           [ExtractorExamples.pulling_from "7";
            ExtractorExamples.layer "aaaaaaaaaaaa";
            ExtractorExamples.cached "bbbbbbbbbbbb"]
           [ExtractorExamples.layer "cccccccccccc"]
           (ExtractorExamples.downloading "aaaaaaaaaaaa")).
  - reflexivity.
  - reflexivity.
  - repeat constructor; cbn; discriminate.
  - split; reflexivity.
  - intros l [<-|[]] _. discriminate.
Defined.

(** An [APIError] leaves [download_image] unless its message says that the
    pull was denied, or that a manifest of [mcr.microsoft.com] was not found;
    in these two cases the identifiers gathered so far are returned.  The
    last branch of the handler, which only logs, is never taken. *)
Theorem download_image_handler (pull : Pull) (fs msg : string) :
  consume_all "" (lines pull) (ending pull) = Raised fs (APIError msg) ->
  handler msg <> LoggedOnly /\
  download_image pull
  = if contains "pull access denied" msg
       || (manifest_not_found msg && contains "mcr.microsoft.com" msg)
    then Return fs
    else Raise (APIError msg).
Proof.
  intros Hrun. unfold download_image, handler. rewrite Hrun.
  destruct (contains "pull access denied" msg); [split; [discriminate | reflexivity]|].
  destruct (manifest_not_found msg); cbn [negb orb andb];
    [|split; [discriminate | reflexivity]].
  destruct (contains "mcr.microsoft.com" msg); split;
    first [discriminate | reflexivity].
Qed.

Lemma download_image_handler_witness :
  handler "manifest for mcr.microsoft.com/windows/nanoserver:1809 not found"
  <> LoggedOnly /\
  download_image
    (mkPull [ExtractorExamples.layer "aaaaaaaaaaaa"]
       (StreamRaises
          (APIError "manifest for mcr.microsoft.com/windows/nanoserver:1809 not found")))
  = if contains "pull access denied"
         "manifest for mcr.microsoft.com/windows/nanoserver:1809 not found"
       || (manifest_not_found
             "manifest for mcr.microsoft.com/windows/nanoserver:1809 not found"
           && contains "mcr.microsoft.com"
                "manifest for mcr.microsoft.com/windows/nanoserver:1809 not found")
    then Return "aaaaaaaaaaaa"
    else Raise
           (APIError "manifest for mcr.microsoft.com/windows/nanoserver:1809 not found").
Proof.
  apply (download_image_handler
           (mkPull [ExtractorExamples.layer "aaaaaaaaaaaa"]
              (StreamRaises
                 (APIError
                    "manifest for mcr.microsoft.com/windows/nanoserver:1809 not found")))
           "aaaaaaaaaaaa").
  reflexivity.
Defined.

Example manifest_not_found_same_line :
  manifest_not_found "manifest for redis:0 not found" = true /\
  manifest_not_found "manifest unknown" = false /\
  manifest_not_found
    (String.append "manifest" (String newline "not found")) = false.
Proof. repeat split; reflexivity. Qed.

End AnalyzerFacts.

(** ** Facts about the retrieval of the parent *)

Module MainFacts.
Import Resolver Main.

Section Retrieval.
Variable storage : nat -> Storage.
Variables name image_layers : string.

(** The lookup number [i] on the database [db_type] raises. *)
Local Abbreviation fails db_type i :=
  (exists e, get_image_parent (storage i) name image_layers db_type = Raise e).

Local Abbreviation retries db_type k :=
  (concat (repeat [Sleep retrials_wait_time; Lookup db_type] k)).

Lemma retry_spec (db_type : string) (todo : list nat) :
  forall s,
    (exists j a,
       j < List.length todo /\
       (forall i, i < j -> fails db_type (lookups s + i)) /\
       get_image_parent (storage (lookups s + j)) name image_layers db_type
       = Return a /\
       retry storage name image_layers db_type todo s
       = mkRetrieval
           (match a with
            | ParentDict (Some p) => Resolver.name p +:+ ":" +:+ tag p
            | _ => image_parent s
            end)
           a true (lookups s + j + 1) (trace s ++ retries db_type (j + 1)))
    \/ ((forall i, i < List.length todo -> fails db_type (lookups s + i)) /\
        retry storage name image_layers db_type todo s
        = mkRetrieval (image_parent s) (image_parent_dict s) (is_retrieved s)
                      (lookups s + List.length todo)
                      (trace s ++ retries db_type (List.length todo))).
Proof.
  induction todo as [|retrial rest IH]; intros s.
  - right. split; [intros i Hi; inversion Hi|].
    cbn. rewrite Nat.add_0_r, app_nil_r. destruct s; reflexivity.
  - cbn [retry]. unfold lookup, pause. cbn [lookups image_parent image_parent_dict
                                             is_retrieved trace].
    destruct (get_image_parent (storage (lookups s)) name image_layers db_type)
      as [a|e] eqn:Hget.
    + left. exists 0, a. cbn [List.length]. split; [lia|].
      split; [intros i Hi; inversion Hi|].
      rewrite Nat.add_0_r. split; [exact Hget|].
      unfold retrieved. cbn. rewrite <- app_assoc. reflexivity.
    + match goal with
      | |- context [retry _ _ _ _ rest ?s1] => destruct (IH s1) as
            [(j & a & Hj & Hfail & Hok & ->)|[Hfail ->]]
      end; cbn [lookups image_parent image_parent_dict is_retrieved trace] in *.
      * left. exists (S j), a. cbn [List.length]. split; [lia|].
        split.
        { intros i Hi. destruct i as [|i].
          - rewrite Nat.add_0_r. exists e. exact Hget.
          - replace (lookups s + S i) with (lookups s + 1 + i) by lia.
            apply Hfail. lia. }
        replace (lookups s + S j) with (lookups s + 1 + j) by lia.
        split; [exact Hok|].
        f_equal; try lia. cbn [Nat.add repeat concat].
        rewrite <- !app_assoc. reflexivity.
      * right. split.
        { intros i Hi. cbn [List.length] in Hi. destruct i as [|i].
          - rewrite Nat.add_0_r. exists e. exact Hget.
          - replace (lookups s + S i) with (lookups s + 1 + i) by lia.
            apply Hfail. lia. }
        cbn [List.length]. f_equal; try lia. cbn [repeat concat].
        rewrite <- !app_assoc. reflexivity.
Qed.

Lemma consult_spec (db_type : string) (s : Retrieval) :
  (exists j a,
     j <= retrials /\
     (forall i, i < j -> fails db_type (lookups s + i)) /\
     get_image_parent (storage (lookups s + j)) name image_layers db_type
     = Return a /\
     consult storage name image_layers db_type s
     = mkRetrieval
         (match a with
          | ParentDict (Some p) => Resolver.name p +:+ ":" +:+ tag p
          | _ => image_parent s
          end)
         a true (lookups s + j + 1)
         (trace s ++ Lookup db_type :: retries db_type j))
  \/ ((forall i, i <= retrials -> fails db_type (lookups s + i)) /\
      consult storage name image_layers db_type s
      = mkRetrieval (image_parent s) (image_parent_dict s) (is_retrieved s)
                    (lookups s + retrials + 1)
                    (trace s ++ Lookup db_type :: retries db_type retrials)).
Proof.
  unfold consult, lookup.
  destruct (get_image_parent (storage (lookups s)) name image_layers db_type)
    as [a|e] eqn:Hget.
  - left. exists 0, a. split; [lia|]. split; [intros i Hi; inversion Hi|].
    rewrite Nat.add_0_r. split; [exact Hget|]. reflexivity.
  - match goal with
    | |- context [retry _ _ _ _ ?todo ?s1] => destruct (retry_spec db_type todo s1)
          as [(j & a & Hj & Hfail & Hok & ->)|[Hfail ->]]
    end; rewrite ?length_seq in *;
      cbn [lookups image_parent image_parent_dict is_retrieved trace] in *.
    + left. exists (S j), a. split; [lia|]. split.
      { intros i Hi. destruct i as [|i].
        - rewrite Nat.add_0_r. exists e. exact Hget.
        - replace (lookups s + S i) with (lookups s + 1 + i) by lia.
          apply Hfail. lia. }
      replace (lookups s + S j) with (lookups s + 1 + j) by lia.
      split; [exact Hok|].
      f_equal; try lia. rewrite <- app_assoc.
      replace (j + 1) with (S j) by lia. reflexivity.
    + right. split.
      { intros i Hi. destruct i as [|i].
        - rewrite Nat.add_0_r. exists e. exact Hget.
        - replace (lookups s + S i) with (lookups s + 1 + i) by lia.
          apply Hfail. lia. }
      f_equal; try lia. rewrite <- app_assoc. reflexivity.
Qed.

Lemma retries_other (db_type other : string) (k : nat) :
  db_type <> other -> ~ In (Lookup other) (retries db_type k).
Proof.
  intros Hne. induction k as [|k IH]; cbn [repeat concat app]; [intros []|].
  intros [H|[H|H]]; [discriminate H | injection H as H; exact (Hne H) | exact (IH H)].
Qed.

(** The retrieval asks the official database first and makes at most four
    lookups on a database, a pause of 30 seconds before each one but the
    first; lookups on the verified database, if any, come after all those on
    the official one.  Without layers nothing is looked up. *)
Theorem retrieve_parent_trace (experiment_type : string) :
  (image_layers = "" ->
   trace (retrieve_parent storage name image_layers experiment_type) = []) /\
  (image_layers <> "" ->
   exists j rest,
     j <= 3 /\
     trace (retrieve_parent storage name image_layers experiment_type)
     = Lookup "official"
         :: concat (repeat [Sleep 30; Lookup "official"] j) ++ rest /\
     (rest = [] \/
      exists j', j' <= 3 /\
        rest = Lookup "verified"
                 :: concat (repeat [Sleep 30; Lookup "verified"] j'))).
Proof.
  unfold retrieve_parent. split.
  - intros ->. reflexivity.
  - intros Hne. destruct (String.eqb_spec image_layers "") as [|_]; [contradiction|].
    set (s0 := mkRetrieval "" (ParentDict None) false 0 []).
    assert (Hofficial : exists j,
              j <= 3 /\
              trace (consult storage name image_layers "official" s0)
              = Lookup "official" :: retries "official" j).
    { destruct (consult_spec "official" s0)
        as [(j & a & Hj & _ & _ & ->)|[_ ->]].
      - exists j. split; [exact Hj | reflexivity].
      - exists 3. split; [lia | reflexivity]. }
    destruct Hofficial as (j & Hj & Htrace). exists j.
    destruct ((negb (is_retrieved (consult storage name image_layers "official" s0))
               && String.eqb experiment_type "verified")
              || String.eqb experiment_type "certified").
    + destruct (consult_spec "verified"
                  (consult storage name image_layers "official" s0))
        as [(j' & a & Hj' & _ & _ & ->)|[_ ->]]; cbn [trace]; rewrite Htrace.
      * eexists. split; [exact Hj|]. split; [reflexivity|].
        right. exists j'. split; [exact Hj' | reflexivity].
      * eexists. split; [exact Hj|]. split; [reflexivity|].
        right. exists 3. split; [lia | reflexivity].
    + exists []. split; [exact Hj|]. rewrite app_nil_r.
      split; [exact Htrace | left; reflexivity].
Qed.

(** The verified database is consulted in two cases only: for an experiment
    on certified images, always; for an experiment on verified images, when
    the four lookups on the official database all raised.  An official
    database that can be read and holds no parent for the image counts as
    retrieved, and the verified database is then not asked. *)
Theorem retrieve_parent_consults_verified (experiment_type : string) :
  image_layers <> "" ->
  (In (Lookup "verified")
      (trace (retrieve_parent storage name image_layers experiment_type))
   <->
   experiment_type = "certified" \/
   (experiment_type = "verified" /\
    forall i, i <= 3 ->
      exists e, get_image_parent (storage i) name image_layers "official"
                = Raise e)).
Proof.
  intros Hne. unfold retrieve_parent.
  destruct (String.eqb_spec image_layers "") as [|_]; [contradiction|].
  set (s0 := mkRetrieval "" (ParentDict None) false 0 []).
  assert (Hofficial :
    ~ In (Lookup "verified")
         (trace (consult storage name image_layers "official" s0)) /\
    (is_retrieved (consult storage name image_layers "official" s0) = false <->
     forall i, i <= 3 -> fails "official" i)).
  { destruct (consult_spec "official" s0)
      as [(j & a & Hj & Hfail & Hok & ->)|[Hfail ->]];
      unfold s0 in *; cbn [trace is_retrieved lookups Nat.add app] in *.
    - split.
      + intros [H|H]; [discriminate H|].
        exact (retries_other "official" "verified" j ltac:(discriminate) H).
      + split; [discriminate|]. intros Hall.
        destruct (Hall j Hj) as (e & He). congruence.
    - split.
      + intros [H|H]; [discriminate H|].
        exact (retries_other "official" "verified" _ ltac:(discriminate) H).
      + split; [intros _; exact Hfail | reflexivity]. }
  destruct Hofficial as [Hnot Hretrieved].
  assert (Hverified : forall s,
            In (Lookup "verified")
               (trace (consult storage name image_layers "verified" s))).
  { intros s. destruct (consult_spec "verified" s)
      as [(j & a & _ & _ & _ & ->)|[_ ->]]; cbn [trace];
      apply in_or_app; right; left; reflexivity. }
  destruct (String.eqb_spec experiment_type "certified") as [Hc|Hc].
  - rewrite orb_true_r. split; [intros _; left; exact Hc | intros _; apply Hverified].
  - rewrite orb_false_r.
    destruct (String.eqb_spec experiment_type "verified") as [Hv|Hv].
    + rewrite andb_true_r.
      destruct (is_retrieved (consult storage name image_layers "official" s0))
        eqn:Hr; cbn [negb].
      * split; [intros H; destruct (Hnot H)|].
        intros [H|[_ Hall]]; [contradiction|].
        apply Hretrieved in Hall. discriminate Hall.
      * split; [|intros _; apply Hverified].
        intros _. right. split; [exact Hv|]. apply Hretrieved. reflexivity.
    + rewrite andb_false_r. split; [intros H; destruct (Hnot H)|].
      intros [H|[H _]]; contradiction.
Qed.

(** For an experiment on certified images the answer of the verified
    database replaces the dictionary found in the official one, even when it
    is empty, while the text [name:tag] is replaced only by a parent that
    was found: when the official database holds a parent [p] and the
    verified one holds none, the image ends up with the parent text of [p]
    and an empty parent dictionary. *)
Theorem retrieve_parent_certified_mismatch (p : Parent) :
  image_layers <> "" ->
  get_image_parent (storage 0) name image_layers "official"
  = Return (ParentDict (Some p)) ->
  get_image_parent (storage 1) name image_layers "verified"
  = Return (ParentDict None) ->
  image_parent (retrieve_parent storage name image_layers "certified")
  = Resolver.name p +:+ ":" +:+ tag p /\
  image_parent_dict (retrieve_parent storage name image_layers "certified")
  = ParentDict None /\
  trace (retrieve_parent storage name image_layers "certified")
  = [Lookup "official"; Lookup "verified"].
Proof.
  intros Hne Hofficial Hverified.
  assert (Hrun : retrieve_parent storage name image_layers "certified"
                 = mkRetrieval (Resolver.name p +:+ ":" +:+ tag p)
                               (ParentDict None) true 2
                               [Lookup "official"; Lookup "verified"]).
  { unfold retrieve_parent.
    destruct (String.eqb_spec image_layers "") as [|_]; [contradiction|].
    assert (H1 : consult storage name image_layers "official"
                   (mkRetrieval "" (ParentDict None) false 0 [])
                 = mkRetrieval (Resolver.name p +:+ ":" +:+ tag p)
                               (ParentDict (Some p)) true 1 [Lookup "official"]).
    { unfold consult, lookup. cbn [lookups]. rewrite Hofficial. reflexivity. }
    rewrite H1. rewrite String.eqb_refl, orb_true_r.
    unfold consult, lookup. cbn [lookups]. rewrite Hverified. reflexivity. }
  rewrite Hrun. repeat split; reflexivity.
Qed.

End Retrieval.

Lemma retrieve_parent_consults_verified_witness :
  In (Lookup "verified")
     (trace (retrieve_parent (fun _ => mkStorage LoadIOError (Loaded ResolverExamples.db3))
                             "mine" ResolverExamples.target4 "verified"))
  <->
  "verified" = "certified" \/
  ("verified" = "verified" /\
   forall i, i <= 3 ->
     exists e, get_image_parent
                 (mkStorage LoadIOError (Loaded ResolverExamples.db3))
                 "mine" ResolverExamples.target4 "official"
               = Raise e).
Proof.
  apply (retrieve_parent_consults_verified
           (fun _ => mkStorage LoadIOError (Loaded ResolverExamples.db3))
           "mine" ResolverExamples.target4 "verified").
  discriminate.
Defined.

Lemma retrieve_parent_certified_mismatch_witness :
  image_parent
    (retrieve_parent
       (fun _ => mkStorage (Loaded ResolverExamples.db3) (Loaded []))
       "mine" ResolverExamples.target4 "certified")
  = "gamma:3" /\
  image_parent_dict
    (retrieve_parent
       (fun _ => mkStorage (Loaded ResolverExamples.db3) (Loaded []))
       "mine" ResolverExamples.target4 "certified")
  = ParentDict None /\
  trace
    (retrieve_parent
       (fun _ => mkStorage (Loaded ResolverExamples.db3) (Loaded []))
       "mine" ResolverExamples.target4 "certified")
  = [Lookup "official"; Lookup "verified"].
Proof.
  apply (retrieve_parent_certified_mismatch
           (fun _ => mkStorage (Loaded ResolverExamples.db3) (Loaded []))
           "mine" ResolverExamples.target4 (mkParent "gamma" "3")).
  - discriminate.
  - reflexivity.
  - reflexivity.
Defined.

End MainFacts.

(** ** Facts about the download of one image *)

Module DownloaderFacts.
Import Extractor Analyzer Downloader.

Lemma retry_download_keeps (pulls : nat -> Pull) (todo : list nat) :
  forall d,
    downloaded_image_layers (retry_download pulls todo d)
    = downloaded_image_layers d /\
    exists k,
      k <= List.length todo /\
      done (retry_download pulls todo d)
      = done d ++ flat_map (fun retrial => [Wait retrials_wait_time;
                                            Download (retrial + 1)])
                           (firstn k todo).
Proof.
  induction todo as [|retrial rest IH]; intros d; cbn [retry_download].
  - split; [reflexivity|]. exists 0. rewrite app_nil_r. split; [lia | reflexivity].
  - destruct (download_image (pulls (retrial + 1))).
    + split; [reflexivity|]. exists 1. cbn [List.length firstn flat_map app].
      split; [lia | reflexivity].
    + match goal with
      | |- context [retry_download pulls rest ?d1] =>
          destruct (IH d1) as [Hkeep (k & Hk & Hdone)]
      end.
      split; [exact Hkeep|]. exists (S k). cbn [List.length firstn flat_map].
      split; [lia|]. rewrite Hdone. cbn [done]. rewrite <- app_assoc. reflexivity.
Qed.

(** The retries go on until a download returns: of the retries
    [s, s + 1, ..] at most [m] are made, each after a pause; all but the last
    one made raised, and the last one made returned unless it was the [m]th. *)
Lemma retry_download_first_success (pulls : nat -> Pull) :
  forall m s d,
    0 < m ->
    exists k,
      1 <= k <= m /\
      done (retry_download pulls (seq s m) d)
      = done d ++ flat_map (fun retrial => [Wait retrials_wait_time;
                                            Download (retrial + 1)])
                           (seq s k) /\
      (forall j, s <= j < s + k - 1 ->
         exists e, download_image (pulls (j + 1)) = Raise e) /\
      (k = m \/
       exists image_layers,
         download_image (pulls (s + k)) = Return image_layers).
Proof.
  induction m as [|m IH]; intros s d Hm; [lia|].
  cbn [seq retry_download].
  destruct (download_image (pulls (s + 1))) as [fs|e] eqn:Hget.
  - exists 1. split; [lia|]. cbn [seq flat_map done app].
    split; [reflexivity|]. split; [intros j Hj; lia|].
    right. exists fs. exact Hget.
  - destruct m as [|m].
    + exists 1. split; [lia|]. cbn [seq retry_download flat_map done app].
      split; [reflexivity|]. split; [intros j Hj; lia|]. left. reflexivity.
    + match goal with
      | |- context [retry_download pulls (seq (S s) (S m)) ?d1] =>
          destruct (IH (S s) d1 ltac:(lia)) as (k & Hk & Hdone & Hfail & Hlast)
      end.
      exists (S k). split; [lia|]. split.
      * rewrite Hdone. cbn [done seq flat_map]. rewrite <- app_assoc. reflexivity.
      * split.
        -- intros j Hj. destruct (Nat.eq_dec j s) as [->|Hne];
             [exists e; exact Hget | apply Hfail; lia].
        -- destruct Hlast as [->|(fs & Hfs)]; [left; reflexivity|].
           right. exists fs. replace (s + S k) with (S s + k) by lia. exact Hfs.
Qed.

(** The layers of an image are recorded only by its first download: when it
    returns, its layers replace the entry of the image name; when it raises,
    the image is downloaded again, each time after a pause of 30 seconds,
    until a download returns or three retries have been made: at least one
    retry is made, every retry but the last one made raised, and the last
    one made returned unless it was the third.  What a retried download
    returns is dropped and the entry of the image is left as it was, so that
    an image whose download succeeds at a retry has no layers for the search
    of its parent. *)
Theorem download_records_first_attempt (name : string) (pulls : nat -> Pull)
    (d : Downloads) :
  (forall image_layers,
     download_image (pulls 1) = Return image_layers ->
     download name pulls d
     = mkDownloads (<[name := image_layers]> (downloaded_image_layers d))
                   (done d ++ [Download 1])) /\
  (forall e,
     download_image (pulls 1) = Raise e ->
     downloaded_image_layers (download name pulls d) = downloaded_image_layers d /\
     recorded_layers (download name pulls d) name = recorded_layers d name /\
     exists k,
       1 <= k <= 3 /\
       done (download name pulls d)
       = done d ++ Download 1
           :: flat_map (fun retrial => [Wait 30; Download (retrial + 1)])
                       (seq 1 k) /\
       (forall j, 1 <= j < k ->
          exists e', download_image (pulls (j + 1)) = Raise e') /\
       (k = 3 \/
        exists image_layers,
          download_image (pulls (k + 1)) = Return image_layers)).
Proof.
  unfold download. split.
  - intros image_layers ->. reflexivity.
  - intros e ->.
    match goal with
    | |- context [retry_download pulls ?todo ?d1] =>
        destruct (retry_download_keeps pulls todo d1) as [Hkeep _];
        destruct (retry_download_first_success pulls retrials 1 d1
                    ltac:(unfold retrials; lia))
          as (k & Hk & Hdone & Hfail & Hlast)
    end.
    cbn [downloaded_image_layers done] in *.
    split; [exact Hkeep|]. split; [unfold recorded_layers; rewrite Hkeep; reflexivity|].
    exists k. split; [exact Hk|]. split.
    + rewrite Hdone, <- app_assoc. reflexivity.
    + split.
      * intros j Hj. apply Hfail. lia.
      * destruct Hlast as [->|(fs & Hfs)]; [left; reflexivity|].
        right. exists fs. replace (k + 1) with (1 + k) by lia. exact Hfs.
Qed.

Lemma download_records_first_attempt_witness :
  downloaded_image_layers
    (download "redis"
       (fun k => if (k =? 1)%nat then
                   mkPull [] (StreamRaises (APIError "500 Server Error"))
                 else ExtractorExamples.good_pull)
       (mkDownloads ∅ []))
  = ∅ /\
  recorded_layers
    (download "redis"
       (fun k => if (k =? 1)%nat then
                   mkPull [] (StreamRaises (APIError "500 Server Error"))
                 else ExtractorExamples.good_pull)
       (mkDownloads ∅ []))
    "redis"
  = recorded_layers (mkDownloads ∅ []) "redis" /\
  exists k,
    1 <= k <= 3 /\
    done
      (download "redis"
         (fun k => if (k =? 1)%nat then
                     mkPull [] (StreamRaises (APIError "500 Server Error"))
                   else ExtractorExamples.good_pull)
         (mkDownloads ∅ []))
    = [] ++ Download 1
        :: flat_map (fun retrial => [Wait 30; Download (retrial + 1)]) (seq 1 k) /\
    (forall j, 1 <= j < k ->
       exists e',
         download_image
           ((fun k => if (k =? 1)%nat then
                        mkPull [] (StreamRaises (APIError "500 Server Error"))
                      else ExtractorExamples.good_pull) (j + 1))
         = Raise e') /\
    (k = 3 \/
     exists image_layers,
       download_image
         ((fun k => if (k =? 1)%nat then
                      mkPull [] (StreamRaises (APIError "500 Server Error"))
                    else ExtractorExamples.good_pull) (k + 1))
       = Return image_layers).
Proof.
  apply (proj2 (download_records_first_attempt "redis"
                  (fun k => if (k =? 1)%nat then
                              mkPull [] (StreamRaises (APIError "500 Server Error"))
                            else ExtractorExamples.good_pull)
                  (mkDownloads ∅ []))
               (APIError "500 Server Error")).
  reflexivity.
Defined.

Example download_stops_at_first_success :
  done
    (download "redis"
       (fun k => if (k =? 1)%nat then
                   mkPull [] (StreamRaises (APIError "500 Server Error"))
                 else ExtractorExamples.good_pull)
       (mkDownloads ∅ []))
  = [Download 1; Wait 30; Download 2].
Proof. reflexivity. Qed.

(** An image whose first download raises, and whose name has no layers
    recorded from before, gets no parent: whatever the retries bring, the
    analysis finds no layers for it, looks nothing up and leaves the parent
    empty. *)
Theorem retried_download_has_no_parent (storage : nat -> Resolver.Storage)
    (name experiment_type : string) (pulls : nat -> Pull) (d : Downloads)
    (e : exn) :
  download_image (pulls 1) = Raise e ->
  downloaded_image_layers d !! name = None ->
  Main.retrieve_parent storage name
    (recorded_layers (download name pulls d) name) experiment_type
  = Main.mkRetrieval "" (Resolver.ParentDict None) false 0 [].
Proof.
  intros Hfirst Hnone.
  assert (Hlayers : recorded_layers (download name pulls d) name = "").
  { unfold recorded_layers, download. rewrite Hfirst.
    rewrite (proj1 (retry_download_keeps pulls _ _)). cbn [downloaded_image_layers].
    rewrite Hnone. reflexivity. }
  rewrite Hlayers. reflexivity.
Qed.

Lemma retried_download_has_no_parent_witness :
  Main.retrieve_parent
    (fun _ => Resolver.mkStorage (Resolver.Loaded ResolverExamples.db3)
                                 (Resolver.Loaded []))
    "redis"
    (recorded_layers
       (download "redis"
          (fun k => if (k =? 1)%nat then
                      mkPull [] (StreamRaises (APIError "500 Server Error"))
                    else ExtractorExamples.good_pull)
          (mkDownloads ∅ []))
       "redis")
    "official"
  = Main.mkRetrieval "" (Resolver.ParentDict None) false 0 [].
Proof.
  apply (retried_download_has_no_parent
           (fun _ => Resolver.mkStorage (Resolver.Loaded ResolverExamples.db3)
                                        (Resolver.Loaded []))
           "redis" "official"
           (fun k => if (k =? 1)%nat then
                       mkPull [] (StreamRaises (APIError "500 Server Error"))
                     else ExtractorExamples.good_pull)
           (mkDownloads ∅ []) (APIError "500 Server Error")).
  - reflexivity.
  - reflexivity.
Defined.

End DownloaderFacts.
